(** * content_hash_unzip: validation, fingerprint and extraction of a zip

    A shallow embedding of [main.go] and the properties of its
    validation-and-extraction pipeline.

    Go strings are byte strings: they are modelled by [string], whose
    characters are the bytes.  The functions of Go's standard library the
    program calls ([path.Clean], [path.Dir], [strings.HasSuffix], UTF-8
    decoding of [range], [io.LimitedReader], ...) are transcribed from their
    documented algorithms.  What belongs to other modules and is looked up in
    tables that are not part of the repository ([unicode.SimpleFold],
    [module.CheckFilePath]) is a parameter of the development. *)

From Stdlib Require Import ZArith Strings.String Strings.Ascii Strings.Byte.
From Stdlib Require Import DecimalString.
From Stdlib Require Import List Sorting.Permutation Sorting.Sorted Lia Bool.
From stdpp Require Import gmap strings.
Import ListNotations.
Open Scope string_scope.

(** ** Byte strings *)

Module Str.

Definition slash : ascii := "/"%char.
Definition dot : ascii := "."%char.
Definition newline : ascii := "010"%char.

Definition byteVal (c : ascii) : Z := Z.of_N (N_of_ascii c).
Definition byteOf (z : Z) : ascii := ascii_of_N (Z.to_N (z mod 256)).

Definition tail (s : string) : string :=
  match s with
  | EmptyString => EmptyString
  | String _ s' => s'
  end.

(** [s[0] == c], false on the empty string. *)
Definition headIs (c : ascii) (s : string) : bool :=
  match s with
  | EmptyString => false
  | String d _ => Ascii.eqb d c
  end.

(** [strings.HasPrefix(s, prefix)] *)
Fixpoint HasPrefix (s prefix : string) : bool :=
  match prefix, s with
  | EmptyString, _ => true
  | String _ _, EmptyString => false
  | String a p', String b s' => Ascii.eqb a b && HasPrefix s' p'
  end.

(** [strings.TrimPrefix(s, prefix)] *)
Definition TrimPrefix (s prefix : string) : string :=
  if HasPrefix s prefix
  then String.substring (String.length prefix)
                        (String.length s - String.length prefix) s
  else s.

(** [strings.HasSuffix(s, "/")] *)
Fixpoint HasSuffixSlash (s : string) : bool :=
  match s with
  | EmptyString => false
  | String c EmptyString => Ascii.eqb c slash
  | String _ s' => HasSuffixSlash s'
  end.

(** [s[:len(s)-1]] for a non-empty [s]. *)
Fixpoint dropLast (s : string) : string :=
  match s with
  | EmptyString => EmptyString
  | String _ EmptyString => EmptyString
  | String c s' => String c (dropLast s')
  end.

Fixpoint hasSlash (s : string) : bool :=
  match s with
  | EmptyString => false
  | String c s' => Ascii.eqb c slash || hasSlash s'
  end.

Definition ofRev (out : list ascii) : string :=
  string_of_list_ascii (rev out).

End Str.

(** ** Go's [path] package *)

Module Path.
Import Str.

(** [r+1 == n || path[r+1] == '/'], on the rest of the path after [r]. *)
Definition atEnd (s : string) : bool :=
  match s with
  | EmptyString => true
  | String c _ => Ascii.eqb c slash
  end.

(** The [".."] case's backtracking,
    [out.w--; for out.w > dotdot && out.index(out.w) != '/' { out.w-- }].
    The buffer is kept reversed: its head is the byte at index [w-1], and
    the byte at index [w] tested by the loop is the one just dropped. *)
Fixpoint backtrack (dotdot : nat) (out : list ascii) : list ascii :=
  match out with
  | [] => []
  | c :: rest =>
      if (dotdot <? length rest)%nat && negb (Ascii.eqb c slash)
      then backtrack dotdot rest
      else rest
  end.

(** [for ; r < n && path[r] != '/'; r++ { out.append(path[r]) }] *)
Fixpoint copyElem (s : string) (out : list ascii) : string * list ascii :=
  match s with
  | EmptyString => (s, out)
  | String c s' =>
      if Ascii.eqb c slash then (s, out) else copyElem s' (c :: out)
  end.

(** [if rooted && out.w != 1 || !rooted && out.w != 0 { out.append('/') }] *)
Definition withSep (rooted : bool) (out : list ascii) : list ascii :=
  if (rooted && negb (length out =? 1)%nat)
     || (negb rooted && negb (length out =? 0)%nat)
  then slash :: out else out.

(** The main loop of [path.Clean]; [s] is [path[r:]], [out] the reversed
    buffer [buf[:w]].  Every iteration consumes at least one byte of [s],
    so [fuel = len(path)] iterations always suffice. *)
Fixpoint cleanLoop (fuel : nat) (rooted : bool) (s : string)
         (out : list ascii) (dotdot : nat) : list ascii :=
  match fuel with
  | O => out
  | S fuel' =>
      match s with
      | EmptyString => out
      | String c s1 =>
          if Ascii.eqb c slash then
            (* empty path element *)
            cleanLoop fuel' rooted s1 out dotdot
          else if Ascii.eqb c dot && atEnd s1 then
            (* . element *)
            cleanLoop fuel' rooted s1 out dotdot
          else if Ascii.eqb c dot && headIs dot s1 && atEnd (tail s1) then
            (* .. element: remove to last / *)
            let s2 := tail s1 in
            if (dotdot <? length out)%nat then
              cleanLoop fuel' rooted s2 (backtrack dotdot out) dotdot
            else if negb rooted then
              let out1 := if (0 <? length out)%nat then slash :: out else out in
              let out2 := dot :: dot :: out1 in
              cleanLoop fuel' rooted s2 out2 (length out2)
            else
              cleanLoop fuel' rooted s2 out dotdot
          else
            (* real path element: add slash if needed, copy element *)
            let '(rest, out2) := copyElem s (withSep rooted out) in
            cleanLoop fuel' rooted rest out2 dotdot
      end
  end.

(** The iterations of the loop as a relation: from [path[r:] = s] with the
    buffer [out] and the mark [dotdot], the loop ends with the buffer [R]. *)
Inductive cleans (rooted : bool) : string -> list ascii -> nat -> list ascii -> Prop :=
| cleans_end (out : list ascii) (dd : nat) :
    cleans rooted EmptyString out dd out
| cleans_slash (s1 : string) (out : list ascii) (dd : nat) (R : list ascii) :
    cleans rooted s1 out dd R ->
    cleans rooted (String slash s1) out dd R
| cleans_dot (s1 : string) (out : list ascii) (dd : nat) (R : list ascii) :
    atEnd s1 = true ->
    cleans rooted s1 out dd R ->
    cleans rooted (String dot s1) out dd R
| cleans_back (s2 : string) (out : list ascii) (dd : nat) (R : list ascii) :
    atEnd s2 = true -> (dd < length out)%nat ->
    cleans rooted s2 (backtrack dd out) dd R ->
    cleans rooted (String dot (String dot s2)) out dd R
| cleans_up (s2 : string) (out : list ascii) (dd : nat) (R : list ascii) :
    atEnd s2 = true -> (length out <= dd)%nat -> rooted = false ->
    cleans rooted s2
           (dot :: dot :: (if (0 <? length out)%nat then slash :: out else out))
           (length (dot :: dot :: (if (0 <? length out)%nat then slash :: out else out)))
           R ->
    cleans rooted (String dot (String dot s2)) out dd R
| cleans_drop (s2 : string) (out : list ascii) (dd : nat) (R : list ascii) :
    atEnd s2 = true -> (length out <= dd)%nat -> rooted = true ->
    cleans rooted s2 out dd R ->
    cleans rooted (String dot (String dot s2)) out dd R
| cleans_elem (c : ascii) (s1 : string) (out : list ascii) (dd : nat)
              (rest : string) (out2 R : list ascii) :
    c <> slash ->
    Ascii.eqb c dot && atEnd s1 = false ->
    Ascii.eqb c dot && headIs dot s1 && atEnd (tail s1) = false ->
    copyElem (String c s1) (withSep rooted out) = (rest, out2) ->
    cleans rooted rest out2 dd R ->
    cleans rooted (String c s1) out dd R.

(** [path.Clean] *)
Definition Clean (p : string) : string :=
  match p with
  | EmptyString => "."
  | String c _ =>
      let rooted := Ascii.eqb c slash in
      let out :=
        if rooted
        then cleanLoop (String.length p) true (tail p) [slash] 1
        else cleanLoop (String.length p) false p [] 0 in
      match out with
      | [] => "."
      | _ => ofRev out
      end
  end.

(** [path[:i+1]] where [i] is the last index of ['/'] in [path]
    ([-1] when there is none): the [dir] result of [path.Split]. *)
Fixpoint splitDir (p : string) : string :=
  match p with
  | EmptyString => EmptyString
  | String c p' => if hasSlash p then String c (splitDir p') else EmptyString
  end.

(** [path.Dir] *)
Definition Dir (p : string) : string := Clean (splitDir p).

End Path.

(** ** Path elements *)

Module Elements.
Import Str.

(** The elements of a path: what stands between its separators. *)
Fixpoint segments (s : string) : list string :=
  match s with
  | EmptyString => [EmptyString]
  | String c s' =>
      if Ascii.eqb c slash then EmptyString :: segments s'
      else match segments s' with
           | x :: l => String c x :: l
           | [] => [String c EmptyString]
           end
  end.

Definition hasSegment (x p : string) : bool := existsb (String.eqb x) (segments p).

(** Two separators in a row. *)
Fixpoint doubleSlash (s : string) : bool :=
  match s with
  | EmptyString => false
  | String c s' => (Ascii.eqb c slash && headIs slash s') || doubleSlash s'
  end.

(** The bytes section 4.1 of the specification lets a portable path hold:
    no control character, and neither the double quote nor any of
    [: * ? < > |] and the backslash. *)
Definition safeByte (c : ascii) : bool :=
  let b := byteVal c in
  (32 <=? b)%Z && negb (b =? 127)%Z &&
  negb (existsb (Z.eqb b) [58; 42; 63; 34; 60; 62; 124; 92]%Z).

Fixpoint allBytes (f : ascii -> bool) (s : string) : bool :=
  match s with
  | EmptyString => true
  | String c s' => f c && allBytes f s'
  end.

(** The four reasons for which the specification has a name rejected: a
    [..] element, a leading separator, a redundant separator, a byte outside
    the safe set. *)
Definition listedReason (p : string) : bool :=
  hasSegment ".." p || headIs slash p || doubleSlash p || negb (allBytes safeByte p).

(** The shape of a path that [path.Clean] leaves as it is, apart from ["."]
    and ["/"]: [..] elements first if the path is not rooted, then elements
    that are neither empty nor [.] nor [..]. *)
Fixpoint tidy (dotdotOk : bool) (l : list string) : bool :=
  match l with
  | [] => true
  | x :: l' =>
      if String.eqb x ".." then dotdotOk && tidy dotdotOk l'
      else negb (String.eqb x "") && negb (String.eqb x ".") && tidy false l'
  end.

Definition isClean (p : string) : bool :=
  match p with
  | EmptyString => false
  | String c p' =>
      if Ascii.eqb c slash
      then String.eqb p' "" || tidy false (segments p')
      else String.eqb p "." || tidy true (segments p)
  end.

End Elements.

(** ** UTF-8, as decoded by [range] over a string and encoded by
    [bytes.Buffer.WriteRune] *)

Module Utf8.
Import Str.
Open Scope Z_scope.

Definition RuneSelf : Z := 0x80.
Definition RuneError : Z := 0xFFFD.
Definition MaxRune : Z := 0x10FFFF.

Definition inRange (lo hi z : Z) : bool := (lo <=? z) && (z <=? hi).
Definition low6 (b : Z) : Z := Z.land b 0x3F.

(** One step of [for _, r := range s]: the rune at the head of a non-empty
    [s] and the rest of [s].  An invalid sequence gives [RuneError] and
    advances by one byte. *)
Definition DecodeRune (s : string) : Z * string :=
  match s with
  | EmptyString => (RuneError, EmptyString)
  | String c0 s1 =>
      let b0 := byteVal c0 in
      let invalid := (RuneError, s1) in
      if b0 <? RuneSelf then (b0, s1)
      else if inRange 0xC2 0xDF b0 then
        match s1 with
        | String c1 s2 =>
            let b1 := byteVal c1 in
            if inRange 0x80 0xBF b1
            then (Z.lor (Z.shiftl (Z.land b0 0x1F) 6) (low6 b1), s2)
            else invalid
        | _ => invalid
        end
      else if inRange 0xE0 0xEF b0 then
        let lo := if b0 =? 0xE0 then 0xA0 else 0x80 in
        let hi := if b0 =? 0xED then 0x9F else 0xBF in
        match s1 with
        | String c1 (String c2 s3) =>
            let b1 := byteVal c1 in
            let b2 := byteVal c2 in
            if inRange lo hi b1 && inRange 0x80 0xBF b2
            then (Z.lor (Z.lor (Z.shiftl (Z.land b0 0x0F) 12)
                               (Z.shiftl (low6 b1) 6)) (low6 b2), s3)
            else invalid
        | _ => invalid
        end
      else if inRange 0xF0 0xF4 b0 then
        let lo := if b0 =? 0xF0 then 0x90 else 0x80 in
        let hi := if b0 =? 0xF4 then 0x8F else 0xBF in
        match s1 with
        | String c1 (String c2 (String c3 s4)) =>
            let b1 := byteVal c1 in
            let b2 := byteVal c2 in
            let b3 := byteVal c3 in
            if inRange lo hi b1 && inRange 0x80 0xBF b2 && inRange 0x80 0xBF b3
            then (Z.lor (Z.lor (Z.lor (Z.shiftl (Z.land b0 0x07) 18)
                                      (Z.shiftl (low6 b1) 12))
                               (Z.shiftl (low6 b2) 6)) (low6 b3), s4)
            else invalid
        | _ => invalid
        end
      else invalid
  end.

Definition enc3 (i : Z) : string :=
  String (byteOf (Z.lor 0xE0 (Z.shiftr i 12)))
    (String (byteOf (Z.lor 0x80 (low6 (Z.shiftr i 6))))
       (String (byteOf (Z.lor 0x80 (low6 i))) EmptyString)).

(** [WriteRune(r)] for a rune [r] (an [int32]); [i] is [uint32(r)]. *)
Definition EncodeRune (r : Z) : string :=
  let i := r mod 2 ^ 32 in
  if i <=? 0x7F then String (byteOf i) EmptyString
  else if i <=? 0x7FF then
    String (byteOf (Z.lor 0xC0 (Z.shiftr i 6)))
      (String (byteOf (Z.lor 0x80 (low6 i))) EmptyString)
  else if (MaxRune <? i) || inRange 0xD800 0xDFFF i then enc3 RuneError
  else if i <=? 0xFFFF then enc3 i
  else
    String (byteOf (Z.lor 0xF0 (Z.shiftr i 18)))
      (String (byteOf (Z.lor 0x80 (low6 (Z.shiftr i 12))))
         (String (byteOf (Z.lor 0x80 (low6 (Z.shiftr i 6))))
            (String (byteOf (Z.lor 0x80 (low6 i))) EmptyString))).

End Utf8.

(** ** SHA-256 (FIPS 180-4), hexadecimal and base64 text

    The hash primitive and the two encodings behind the fingerprint, on
    byte strings; words are numbers below [2^32]. *)

Module Sha256.
Import Str.
Open Scope Z_scope.

Definition w32 (x : Z) : Z := x mod 2 ^ 32.
Definition add32 (x y : Z) : Z := w32 (x + y).
Definition rotr (n x : Z) : Z := Z.lor (Z.shiftr x n) (w32 (Z.shiftl x (32 - n))).
Definition not32 (x : Z) : Z := Z.lxor x 0xFFFFFFFF.
Definition Ch (x y z : Z) : Z := Z.lxor (Z.land x y) (Z.land (not32 x) z).
Definition Maj (x y z : Z) : Z :=
  Z.lxor (Z.lxor (Z.land x y) (Z.land x z)) (Z.land y z).
Definition Sigma0 (x : Z) : Z := Z.lxor (Z.lxor (rotr 2 x) (rotr 13 x)) (rotr 22 x).
Definition Sigma1 (x : Z) : Z := Z.lxor (Z.lxor (rotr 6 x) (rotr 11 x)) (rotr 25 x).
Definition sigma0 (x : Z) : Z := Z.lxor (Z.lxor (rotr 7 x) (rotr 18 x)) (Z.shiftr x 3).
Definition sigma1 (x : Z) : Z := Z.lxor (Z.lxor (rotr 17 x) (rotr 19 x)) (Z.shiftr x 10).

(** The first [n] primes, by trial division. *)
Definition isPrime (p : Z) : bool :=
  forallb (fun d => negb (p mod d =? 0)) (map Z.of_nat (seq 2 (Z.to_nat p - 2))).

Definition primes (n : nat) : list Z :=
  firstn n (filter isPrime (map Z.of_nat (seq 2 400))).

(** The integer cube root of a number below [2^(3*bits)], bit by bit. *)
Fixpoint cbrt (bits : nat) (x acc : Z) : Z :=
  match bits with
  | O => acc
  | S b =>
      let c := acc + 2 ^ Z.of_nat b in
      if c * c * c <=? x then cbrt b x c else cbrt b x acc
  end.

(** The round constants: the first 32 bits of the fractional parts of the
    cube roots of the first 64 primes. *)
Definition K : list Z :=
  Eval vm_compute in map (fun p => w32 (cbrt 36 (p * 2 ^ 96) 0)) (primes 64).

(** The initial hash value: the first 32 bits of the fractional parts of
    the square roots of the first 8 primes. *)
Definition H0 : list Z :=
  Eval vm_compute in map (fun p => w32 (Z.sqrt (p * 2 ^ 64))) (primes 8).

(** Big-endian bytes of the [n]-byte word [x]. *)
Fixpoint beBytes (n : nat) (x : Z) : list Z :=
  match n with
  | O => []
  | S n' => Z.shiftr x (8 * Z.of_nat n') mod 256 :: beBytes n' x
  end.

Fixpoint beWord (bs : list Z) (acc : Z) : Z :=
  match bs with
  | [] => acc
  | b :: bs' => beWord bs' (acc * 256 + b)
  end.

(** The message followed by 0x80, zeros up to 56 mod 64, and its length in
    bits as a 64-bit big-endian number. *)
Definition pad (msg : list Z) : list Z :=
  let len := Z.of_nat (length msg) in
  let zeros := Z.to_nat ((55 - len) mod 64) in
  msg ++ [0x80] ++ repeat 0 zeros ++ beBytes 8 (8 * len).

Fixpoint words (n : nat) (bs : list Z) : list Z :=
  match n with
  | O => []
  | S n' => beWord (firstn 4 bs) 0 :: words n' (skipn 4 bs)
  end.

(** The message schedule, newest word first: [sched] holds
    [W[t-1], W[t-2], ...]. *)
Fixpoint extend (n : nat) (sched : list Z) : list Z :=
  match n with
  | O => sched
  | S n' =>
      let w := add32 (add32 (sigma1 (nth 1 sched 0)) (nth 6 sched 0))
                     (add32 (sigma0 (nth 14 sched 0)) (nth 15 sched 0)) in
      extend n' (w :: sched)
  end.

Definition round (st : list Z) (kw : Z * Z) : list Z :=
  match st with
  | [a; b; c; d; e; f; g; h] =>
      let t1 := add32 (add32 (add32 h (Sigma1 e)) (add32 (Ch e f g) (fst kw))) (snd kw) in
      let t2 := add32 (Sigma0 a) (Maj a b c) in
      [add32 t1 t2; a; b; c; add32 d t1; e; f; g]
  | _ => st
  end.

Definition compress (h : list Z) (block : list Z) : list Z :=
  let w := rev (extend 48 (rev (words 16 block))) in
  let st := fold_left round (combine K w) h in
  map (fun p => add32 (fst p) (snd p)) (combine h st).

Fixpoint blocks (n : nat) (h : list Z) (bs : list Z) : list Z :=
  match n with
  | O => h
  | S n' => blocks n' (compress h (firstn 64 bs)) (skipn 64 bs)
  end.

Definition digest (msg : list Z) : list Z :=
  let p := pad msg in
  flat_map (beBytes 4) (blocks (length p / 64) H0 p).

Definition bytesOf (s : string) : list Z := map byteVal (list_ascii_of_string s).
Definition stringOf (bs : list Z) : string := string_of_list_ascii (map byteOf bs).

(** [sha256.Sum256], on byte strings. *)
Definition Sum256 (s : string) : string := stringOf (digest (bytesOf s)).

End Sha256.

Module Hex.
Import Str.
Open Scope Z_scope.
Definition digit (n : Z) : ascii :=
  if n <? 10 then byteOf (48 + n) else byteOf (87 + n).
(** [fmt.Sprintf("%x", b)] for a byte slice: two lower-case digits per byte. *)
Fixpoint EncodeToString (s : string) : string :=
  match s with
  | EmptyString => EmptyString
  | String c s' =>
      String (digit (byteVal c / 16)) (String (digit (byteVal c mod 16)) (EncodeToString s'))
  end.
End Hex.

Module Base64.
Import Str.
Open Scope Z_scope.
(** The standard alphabet of RFC 4648. *)
Definition enc (n : Z) : ascii :=
  if n <? 26 then byteOf (65 + n)
  else if n <? 52 then byteOf (97 + (n - 26))
  else if n <? 62 then byteOf (48 + (n - 52))
  else if n =? 62 then "+"%char else "/"%char.
Definition pad : ascii := "="%char.
(** [base64.StdEncoding.EncodeToString] *)
Fixpoint EncodeToString (s : string) : string :=
  match s with
  | EmptyString => EmptyString
  | String a EmptyString =>
      let x := byteVal a in
      String (enc (x / 4)) (String (enc (x mod 4 * 16)) (String pad (String pad EmptyString)))
  | String a (String b EmptyString) =>
      let x := byteVal a in let y := byteVal b in
      String (enc (x / 4)) (String (enc (x mod 4 * 16 + y / 16))
        (String (enc (y mod 16 * 4)) (String pad EmptyString)))
  | String a (String b (String c s')) =>
      let x := byteVal a in let y := byteVal b in let z := byteVal c in
      String (enc (x / 4)) (String (enc (x mod 4 * 16 + y / 16))
        (String (enc (y mod 16 * 4 + z / 64)) (String (enc (z mod 64)) (EncodeToString s'))))
  end.
End Base64.

(** ** Errors, reports and the archive as the decoder presents it *)

Definition MaxZipFile : Z := 500 * 2 ^ 20.

(** Conversion to [int64], with its wrap-around. *)
Definition int64 (z : Z) : Z := (z + 2 ^ 63) mod 2 ^ 64 - 2 ^ 63.

(** Runes are [int32]. *)
Definition int32 (x : Z) : Prop := (- 2 ^ 31 <= x < 2 ^ 31)%Z.

(** ['A' <= c && c <= 'Z'], on a byte. *)
Definition upperCase (c : ascii) : bool :=
  (65 <=? Str.byteVal c)%Z && (Str.byteVal c <=? 90)%Z.

(** The errors of the program, one constructor per [fmt.Errorf] or error
    type of [main.go]; [ErrOther] stands for the errors of the operating
    system and of the libraries. *)
Inductive error : Type :=
| ErrUsage
| ErrHashMismatch (got expected : string)
| ErrZipTooLarge (zipSize : Z)
| ErrTotalTooLarge
| ErrNotClean (name : string)
| ErrCollision (other p : string)
| ErrFileAndDir (p : string)
| ErrMultiple (p : string)
| FileErrorList (el : list FileError)
| ErrTargetNotEmpty (dir : string)
| ErrDeclaredSize (name : string) (declared : Z)
| ErrNoPrefixMatch (prefix : string)
| zipError (verb path : string) (err : error)
| ErrOther (msg : string)
with FileError : Type :=
| mkFileError (Path : string) (Err : error).

Module FileError.
Definition Path (e : FileError) : string := let '(mkFileError p _) := e in p.
Definition Err (e : FileError) : error := let '(mkFileError _ err) := e in err.
(** [Unwrap] *)
Definition Unwrap (e : FileError) : error := Err e.
End FileError.

(** [zipError.Unwrap], on the error values that are a [zipError]. *)
Definition Unwrap (e : error) : option error :=
  match e with
  | zipError _ _ err => Some err
  | _ => None
  end.

Module CheckedFiles.

Record t : Type := mk {
  Valid : list string;
  Omitted : list FileError;
  Invalid : list FileError;
  SizeError : option error }.

(** The zero value of [var cf CheckedFiles]. *)
Definition zero : t :=
  {| Valid := []; Omitted := []; Invalid := []; SizeError := None |}.

Definition Err (cf : t) : option error :=
  match SizeError cf with
  | Some e => Some e
  | None =>
      if (0 <? length (Invalid cf))%nat
      then Some (FileErrorList (Invalid cf))
      else None
  end.

End CheckedFiles.

(** ** The texts of the errors *)

Module Messages.
Section Text.

(** [strconv.Quote], behind the verb [%q]; it is not part of the
    repository. *)
Variable Quote : string -> string.

(** The verb [%d]. *)
Definition decimal (z : Z) : string := NilZero.string_of_int (Z.to_int z).

(** The method [Error] of the errors of [main.go]: the texts of the
    [fmt.Errorf] calls and the methods of [FileErrorList], [FileError] and
    [zipError].  The loop of [FileErrorList.Error] has the builder [buf] and
    the separator [sep] as its variables. *)
Fixpoint Error (e : error) : string :=
  match e with
  | ErrUsage => "usage: <zip> [<hash> <dir> [<strip_prefix>]]"
  | ErrHashMismatch got expected => "got hash " ++ got ++ ", expected " ++ expected
  | ErrZipTooLarge zipSize =>
      "zip file is too large (" ++ decimal zipSize ++ " bytes; limit is "
        ++ decimal MaxZipFile ++ " bytes)"
  | ErrTotalTooLarge =>
      "total uncompressed size of module contents too large (max size is "
        ++ decimal MaxZipFile ++ " bytes)"
  | ErrNotClean name => "file path is not clean: " ++ name
  | ErrCollision other p =>
      "case-insensitive file name collision: " ++ Quote other ++ " and " ++ Quote p
  | ErrFileAndDir p => "entry " ++ Quote p ++ " is both a file and a directory"
  | ErrMultiple p => "multiple entries for file " ++ Quote p
  | FileErrorList el =>
      (fix loop (el : list FileError) (buf sep : string) : string :=
         match el with
         | [] => buf
         | e :: el' =>
             loop el' ((buf ++ sep) ++ FileErrorText e) (String Str.newline "")
         end) el "" ""
  | ErrTargetNotEmpty dir => "target directory " ++ dir ++ " exists and is not empty"
  | ErrDeclaredSize name declared =>
      "uncompressed size of file " ++ name ++ " is larger than declared size ("
        ++ decimal declared ++ " bytes)"
  | ErrNoPrefixMatch prefix => "no file matched prefix " ++ Quote prefix
  | zipError verb path err =>
      if String.eqb path "" then verb ++ ": " ++ Error err
      else verb ++ " " ++ path ++ ": " ++ Error err
  | ErrOther msg => msg
  end
with FileErrorText (e : FileError) : string :=
  match e with
  | mkFileError path err => path ++ ": " ++ Error err
  end.

End Text.
End Messages.

(** What a Go call gives back: a value, an error, or nothing at all when the
    call does not return (the recursion of [check] on a rooted path). *)
Inductive result (A : Type) : Type :=
| Ok (a : A)
| Fail (e : error)
| Diverges.
Arguments Ok {A} a.
Arguments Fail {A} e.
Arguments Diverges {A}.

Module zip.

(** The decompressed stream of an entry, as the decoder gives it: the bytes
    it delivers and then, at a read of its own, [io.EOF] ([None]) or an
    error. *)
Record Reader : Type := mkReader {
  Bytes : string;
  End_ : option error }.

(** [zip.File]: the fields the program reads, and what [Open] returns. *)
Record File : Type := mkFile {
  Name : string;
  Method : Z;
  UncompressedSize64 : Z;
  Open : result Reader }.

End zip.

Module os.

(** An opened [*os.File] on a zip: the size reported by [Stat] and the
    entries [zip.NewReader] decodes from it. *)
Record File : Type := mkFile {
  Stat : result Z;
  NewReader : result (list zip.File) }.

End os.

(** The calls the program makes, in the order it makes them. *)
Inductive Event : Type :=
| EvHashZip (zipFile : string)
| EvCompareHash (hash expectedHash : string)
| EvPrintln (s : string)
| EvReadDir (dir : string)
| EvOpen (name : string)
| EvStat
| EvNewReader
| EvChecked (err : option error)
| EvMkdirAll (dir : string)
| EvOpenFile (dst : string)
| EvZipOpen (name : string)
| EvCopy (dst : string) (data : string)
| EvClose (dst : string).

(** The calls that change the file system. *)
Definition writes (e : Event) : bool :=
  match e with
  | EvMkdirAll _ | EvOpenFile _ | EvCopy _ _ | EvClose _ => true
  | _ => false
  end.

(** The step of an invocation a call belongs to: the fingerprint, its
    comparison with the expected one, the test that the target is empty, the
    opening of the zip, the test of its raw size, the decoding, the
    validation, and last the extraction or the printing of the
    fingerprint. *)
Definition phase (e : Event) : nat :=
  match e with
  | EvHashZip _ => 0
  | EvCompareHash _ _ => 1
  | EvReadDir _ => 2
  | EvOpen _ => 3
  | EvStat => 4
  | EvNewReader => 5
  | EvChecked _ => 6
  | EvMkdirAll _ | EvOpenFile _ | EvZipOpen _ | EvCopy _ _ | EvClose _
  | EvPrintln _ => 7
  end.

(** The calls of the last step. *)
Definition extracting (e : Event) : Prop := phase e = 7%nat.

Definition inOrder (tr : list Event) : Prop :=
  StronglySorted (fun a b => (phase a <= phase b)%nat) tr.

(** The operating system as the program sees it.  [ReadDir] gives
    [len(files)] (the caller drops the error); the calls that change the file
    system may fail depending on everything done before. *)
Record World : Type := mkWorld {
  ReadDir : string -> nat;
  OsOpen : string -> result os.File;
  MkdirAll : list Event -> string -> option error;
  OpenFile : list Event -> string -> option error;
  Write : list Event -> string -> string -> option error;
  Close : list Event -> string -> option error }.

(** No call that changes the file system fails. *)
Definition noFailure (w : World) : Prop :=
  forall h p, MkdirAll w h p = None /\ OpenFile w h p = None /\
              (forall data, Write w h p data = None) /\ Close w h p = None.

Module pathInfo.
Record t : Type := mk { path : string; isDir : bool }.
End pathInfo.

(** A run of the program: the calls made so far are threaded through, and an
    error ends the run of the enclosing function as [return err] does.  The
    closing of what was only read ([defer f.Close()], [r.Close()]) is no call
    of the model: its result is dropped and it changes nothing. *)
Definition M (A : Type) : Type := list Event -> list Event * result A.

Definition ret {A} (a : A) : M A := fun h => (h, Ok a).
Definition fail {A} (e : error) : M A := fun h => (h, Fail e).
Definition diverge {A} : M A := fun h => (h, Diverges).
Definition bind {A B} (m : M A) (k : A -> M B) : M B :=
  fun h =>
    match m h with
    | (h', Ok a) => k a h'
    | (h', Fail e) => (h', Fail e)
    | (h', Diverges) => (h', Diverges)
    end.
Definition emit (e : Event) : M unit := fun h => ((h ++ [e])%list, Ok tt).
Definition history : M (list Event) := fun h => (h, Ok h).
Definition lift {A} (r : result A) : M A := fun h => (h, r).
(** A call whose only result is an [error]. *)
Definition orFail (o : option error) : M unit :=
  match o with
  | Some e => fail e
  | None => ret tt
  end.
(** The error of [m] as a value, for the calls whose error is inspected or
    dropped rather than returned. *)
Definition errOf (m : M unit) : M (option error) :=
  fun h =>
    match m h with
    | (h', Ok _) => (h', Ok None)
    | (h', Fail e) => (h', Ok (Some e))
    | (h', Diverges) => (h', Diverges)
    end.
(** [defer func() { if err != nil { err = &zipError{...} } }()] *)
Definition deferZipError (verb path : string) (m : M unit) : M unit :=
  fun h =>
    match m h with
    | (h', Fail e) => (h', Fail (zipError verb path e))
    | r => r
    end.

(** Every call that [m] makes satisfies [P]. *)
Definition emits {A} (P : Event -> Prop) (m : M A) : Prop :=
  forall h, exists evs, fst (m h) = (h ++ evs)%list /\ Forall P evs.

Declare Scope go_scope.
Delimit Scope go_scope with go.
Notation "'do' x <- m ; k" := (bind m (fun x => k))
  (at level 10, x name, m at level 100, k at level 200) : go_scope.
Open Scope go_scope.

(** ** The fingerprint *)

Module dirhash.

(** Modelled from the spec: the sorting of the digest lines by path of
    [dirhash.Hash1] (section 4.5), in the byte order of Go strings; an
    insertion sort that keeps entries of equal path in archive order. *)
Fixpoint insert {A : Type} (x : string * A) (l : list (string * A))
  : list (string * A) :=
  match l with
  | [] => [x]
  | y :: l' =>
      if String.leb (fst x) (fst y) then x :: y :: l' else y :: insert x l'
  end.

Fixpoint sortByPath {A : Type} (l : list (string * A)) : list (string * A) :=
  match l with
  | [] => []
  | x :: l' => insert x (sortByPath l')
  end.

(** Modelled from the spec: the decompressed byte stream of an entry
    (section 4.5), read to its end by [dirhash.Hash1]. *)
Definition readAll (o : result zip.Reader) : result string :=
  match o with
  | Ok r =>
      match zip.End_ r with
      | None => Ok (zip.Bytes r)
      | Some e => Fail e
      end
  | Fail e => Fail e
  | Diverges => Diverges
  end.

(** Modelled from the spec: the (path, content) pairs of the file entries
    that [dirhash.HashZip] hashes (section 4.5, directories excluded); an
    entry whose name ends in a separator is a directory. *)
Definition files (z : list zip.File) : list (string * result string) :=
  map (fun zf => (zip.Name zf, readAll (zip.Open zf)))
      (filter (fun zf => negb (Str.HasSuffixSlash (zip.Name zf))) z).

(** Modelled from the spec: the digest line of a file in [dirhash.Hash1],
    the hexadecimal SHA-256 of the content, two spaces, the path and a
    newline (sections 4.5 and 6). *)
Definition line (path content : string) : string :=
  Hex.EncodeToString (Sha256.Sum256 content)
    ++ "  " ++ path ++ String Str.newline EmptyString.

(** Modelled from the spec: the concatenation of the digest lines that
    [dirhash.Hash1] hashes; the first stream that cannot be read gives its
    error. *)
Fixpoint summary (l : list (string * result string)) : result string :=
  match l with
  | [] => Ok EmptyString
  | (path, Ok content) :: l' =>
      match summary l' with
      | Ok s => Ok (line path content ++ s)
      | r => r
      end
  | (_, Fail e) :: _ => Fail e
  | (_, Diverges) :: _ => Diverges
  end.

(** Modelled from the spec: [dirhash.HashZip] with [dirhash.Hash1] belongs
    to golang.org/x/mod and is not part of the repository.  Following
    sections 4.5 and 6 of the specification: one digest line per file
    entry, the lines sorted by path, the concatenation hashed and encoded
    in standard base64 behind the prefix ["h1:"]. *)
Definition Hash1 (l : list (string * result string)) : result string :=
  match summary (sortByPath l) with
  | Ok s => Ok ("h1:" ++ Base64.EncodeToString (Sha256.Sum256 s))
  | Fail e => Fail e
  | Diverges => Diverges
  end.

(** Modelled from the spec: [dirhash.HashZip] opens and decodes the zip
    and hashes its file entries with [Hash1]. *)
Definition HashZip (w : World) (zipFile : string) : result string :=
  match OsOpen w zipFile with
  | Ok f =>
      match os.NewReader f with
      | Ok z => Hash1 (files z)
      | Fail e => Fail e
      | Diverges => Diverges
      end
  | Fail e => Fail e
  | Diverges => Diverges
  end.

End dirhash.

(** ** The program *)

Module Main.
Section Program.

(** [unicode.SimpleFold], on runes ([int32]); its table is not part of the
    repository. *)
Variable SimpleFold : Z -> Z.

(** [module.CheckFilePath] of golang.org/x/mod, not part of the
    repository: [None] when the path is accepted. *)
Variable CheckFilePath : string -> option error.

Variable W : World.

(** *** [strToFold] *)

(** The loop [for { r0 := r; r = unicode.SimpleFold(r0); if r <= r0 { break } }],
    run for at most [2^depth] iterations: the rune reached and whether the
    loop has left.  Runes are [int32] and grow at every iteration that
    stays, so [depth = 32] is always enough. *)
Fixpoint foldOrbit (depth : nat) (r : Z) : Z * bool :=
  match depth with
  | O => let r' := SimpleFold r in (r', (r' <=? r)%Z)
  | S d =>
      let '(r1, out) := foldOrbit d r in
      if out then (r1, true) else foldOrbit d r1
  end.

Definition foldRune (r : Z) : Z :=
  let r := fst (foldOrbit 32 r) in
  (* Exception to allow fast path above: A-Z => a-z *)
  if (65 <=? r)%Z && (r <=? 90)%Z then (r + (97 - 65))%Z else r.

(** The fast path's test: some byte is not ASCII or is an upper-case
    letter. *)
Fixpoint needsFold (s : string) : bool :=
  match s with
  | EmptyString => false
  | String c s' =>
      let b := Str.byteVal c in
      (Utf8.RuneSelf <=? b)%Z || ((65 <=? b)%Z && (b <=? 90)%Z) || needsFold s'
  end.

(** The slow path; [fuel] bounds the number of runes by [len(s)]. *)
Fixpoint foldRunes (fuel : nat) (s : string) : string :=
  match fuel, s with
  | S fuel', String _ _ =>
      let '(r, rest) := Utf8.DecodeRune s in
      Utf8.EncodeRune (foldRune r) ++ foldRunes fuel' rest
  | _, _ => EmptyString
  end.

Definition strToFold (s : string) : string :=
  if needsFold s then foldRunes (String.length s) s else s.

(** *** [collisionChecker] *)

(** [cc.check(p, isDir)], with the map it leaves behind: Go maps are
    shared, so what a failing call has stored stays stored.  [fuel] bounds
    the depth of the recursion; [None] when it is not enough. *)
Fixpoint check (fuel : nat) (cc : gmap string pathInfo.t) (p : string)
         (isDir : bool) : option (gmap string pathInfo.t * option error) :=
  match fuel with
  | O => None
  | S fuel' =>
      let fold := strToFold p in
      let parents (cc' : gmap string pathInfo.t) :=
        let parent := Path.Dir p in
        if negb (String.eqb parent ".")
        then check fuel' cc' parent true
        else Some (cc', None) in
      match cc !! fold with
      | Some other =>
          if negb (String.eqb p (pathInfo.path other)) then
            Some (cc, Some (ErrCollision (pathInfo.path other) p))
          else if negb (Bool.eqb isDir (pathInfo.isDir other)) then
            Some (cc, Some (ErrFileAndDir p))
          else if negb isDir then
            Some (cc, Some (ErrMultiple p))
          else parents cc
      | None => parents (<[fold := pathInfo.mk p isDir]> cc)
      end
  end.

(** [p] is registered, as a directory or as a file: the folded form of
    [p] is a key of the map and the entry found there is [p] itself. *)
Definition registered (cc : gmap string pathInfo.t) (p : string) (isDir : bool)
  : Prop :=
  cc !! strToFold p = Some (pathInfo.mk p isDir).

(** [q] is an ancestor directory of [p]: one of the parents on which
    [check] recurses from [p]. *)
Inductive ancestor : string -> string -> Prop :=
| ancestor_parent (p : string) :
    Path.Dir p <> "." -> ancestor (Path.Dir p) p
| ancestor_step (q p : string) :
    Path.Dir p <> "." -> ancestor q (Path.Dir p) -> ancestor q p.

(** The invariant of the registry: every ancestor directory of a
    registered path is registered as a directory. *)
Definition ancestorsRegistered (cc : gmap string pathInfo.t) : Prop :=
  forall p isDir q, registered cc p isDir -> ancestor q p -> registered cc q true.

(** *** [checkZip] *)

(** The variables of the loop over [z.File]. *)
Record checkState : Type := mkCheckState {
  cf : CheckedFiles.t;
  collisions : gmap string pathInfo.t;
  size : Z }.

(** The running total stays within the budget. *)
Definition sizeOk (st : checkState) : Prop := (0 <= size st <= MaxZipFile)%Z.

Definition checkStart : checkState :=
  {| cf := CheckedFiles.zero; collisions := ∅; size := 0 |}.

Definition addError (st : checkState) (cc : gmap string pathInfo.t)
           (zf : zip.File) (err : error) : checkState :=
  let c := cf st in
  {| cf := {| CheckedFiles.Valid := CheckedFiles.Valid c;
              CheckedFiles.Omitted := CheckedFiles.Omitted c;
              CheckedFiles.Invalid :=
                (CheckedFiles.Invalid c ++ [mkFileError (zip.Name zf) err])%list;
              CheckedFiles.SizeError := CheckedFiles.SizeError c |};
     collisions := cc;
     size := size st |}.

(** Lines 185 to 191: the size of a file entry that passed the checks. *)
Definition addSize (st : checkState) (cc : gmap string pathInfo.t)
           (zf : zip.File) : checkState :=
  let c := cf st in
  let sz := int64 (zip.UncompressedSize64 zf) in
  let fits := (0 <=? sz)%Z && (sz <=? int64 (MaxZipFile - size st))%Z in
  {| cf := {| CheckedFiles.Valid := (CheckedFiles.Valid c ++ [zip.Name zf])%list;
              CheckedFiles.Omitted := CheckedFiles.Omitted c;
              CheckedFiles.Invalid := CheckedFiles.Invalid c;
              CheckedFiles.SizeError :=
                if fits then CheckedFiles.SizeError c
                else match CheckedFiles.SizeError c with
                     | None => Some ErrTotalTooLarge
                     | Some e => Some e
                     end |};
     collisions := cc;
     size := if fits then int64 (size st + sz) else size st |}.

(** The entry name without the separator that marks a directory. *)
Definition entryIsDir (zf : zip.File) : bool := Str.HasSuffixSlash (zip.Name zf).
Definition entryName (zf : zip.File) : string :=
  if entryIsDir zf then Str.dropLast (zip.Name zf) else zip.Name zf.

(** Lines 170 to 177: the two checks of the name alone. *)
Definition checkName (name : string) : option error :=
  if negb (String.eqb (Path.Clean name) name) then Some (ErrNotClean name)
  else CheckFilePath name.

(** [module.CheckFilePath] accepts no path that starts with a separator
    (it rejects empty path elements). *)
Definition relativeOnly : Prop :=
  forall p, CheckFilePath p = None -> Str.headIs Str.slash p = false.

(** A [module.CheckFilePath] that accepts no path with an element [.] or
    [..], and no path that starts with a separator. *)
Definition plainOnly : Prop :=
  forall p, CheckFilePath p = None ->
    Str.headIs Str.slash p = false /\
    Elements.hasSegment "." p = false /\ Elements.hasSegment ".." p = false.

(** A [module.CheckFilePath] that accepts no path with a byte outside the
    safe set: it allows letters, digits, the space and some punctuation,
    and none of the bytes the safe set leaves out. *)
Definition safeOnly : Prop :=
  forall p, CheckFilePath p = None ->
    Elements.allBytes Elements.safeByte p = true.

(** One iteration of [for _, zf := range z.File]; [None] when [check] does
    not return. *)
Definition checkFile (st : checkState) (zf : zip.File) : option checkState :=
  let name := entryName zf in
  let isDir := entryIsDir zf in
  match checkName name with
  | Some err => Some (addError st (collisions st) zf err)
  | None =>
      match check (S (String.length name)) (collisions st) name isDir with
      | None => None
      | Some (cc, Some err) => Some (addError st cc zf err)
      | Some (cc, None) =>
          if isDir
          then Some {| cf := cf st; collisions := cc; size := size st |}
          else Some (addSize st cc zf)
      end
  end.

Fixpoint checkFiles (st : checkState) (z : list zip.File) : option checkState :=
  match z with
  | [] => Some st
  | zf :: z' =>
      match checkFile st zf with
      | Some st' => checkFiles st' z'
      | None => None
      end
  end.

(** The sum of the declared sizes of the file entries of an archive. *)
Fixpoint declaredTotal (z : list zip.File) : Z :=
  match z with
  | [] => 0
  | zf :: z' =>
      ((if entryIsDir zf then 0 else zip.UncompressedSize64 zf) + declaredTotal z')%Z
  end.

(** [UncompressedSize64] is a [uint64]. *)
Definition uint64 (x : Z) : Prop := (0 <= x < 2 ^ 64)%Z.

(** The paths of the [Invalid] field. *)
Definition invalidPaths (c : CheckedFiles.t) : list string :=
  map FileError.Path (CheckedFiles.Invalid c).

(** [checkZip]: the archive's entries when it returns no error. *)
Definition checkZip (f : os.File) : M (list zip.File) :=
  do _ <- emit EvStat;
  do zipSize <- lift (os.Stat f);
  if (MaxZipFile <? zipSize)%Z then
    let cf := {| CheckedFiles.Valid := []; CheckedFiles.Omitted := [];
                 CheckedFiles.Invalid := [];
                 CheckedFiles.SizeError := Some (ErrZipTooLarge zipSize) |} in
    do _ <- orFail (CheckedFiles.Err cf);
    ret []
  else
    do _ <- emit EvNewReader;
    do z <- lift (os.NewReader f);
    match checkFiles checkStart z with
    | None => diverge
    | Some st =>
        do _ <- emit (EvChecked (CheckedFiles.Err (cf st)));
        do _ <- orFail (CheckedFiles.Err (cf st));
        ret z
    end.

(** *** [hashZip] *)

Definition hashZip (zipFile : string) : M string :=
  do _ <- emit (EvHashZip zipFile);
  lift (dirhash.HashZip W zipFile).

(** *** [unzip] *)

(** [filepath.Join(dir, name)] and [filepath.Dir], with ['/'] as the
    separator. *)
Definition Join (dir name : string) : string :=
  if negb (String.eqb dir "") then Path.Clean (dir ++ "/" ++ name)
  else if negb (String.eqb name "") then Path.Clean name
  else "".

(** [io.Copy(w, lr)] through [lr := &io.LimitedReader{R: r, N: n}]: the
    bytes that reach [w], the error of the reader when it is met before
    the limit, and [lr.N] afterwards. *)
Definition limited (n : Z) (r : zip.Reader) : string * option error * Z :=
  if (n <=? 0)%Z then (EmptyString, None, n)
  else
    let len := Z.of_nat (String.length (zip.Bytes r)) in
    if (len <? n)%Z then (zip.Bytes r, zip.End_ r, (n - len)%Z)
    else (String.substring 0 (Z.to_nat n) (zip.Bytes r), None, 0%Z).

Definition mkdirAll (dir : string) : M unit :=
  do h <- history;
  do _ <- emit (EvMkdirAll dir);
  orFail (MkdirAll W h dir).

Definition openFile (dst : string) : M unit :=
  do h <- history;
  do _ <- emit (EvOpenFile dst);
  orFail (OpenFile W h dst).

(** [io.Copy]: what was read is written; nothing is written, and nothing
    fails, when nothing was read. *)
Definition copy (dst data : string) : M unit :=
  if String.eqb data "" then ret tt
  else
    do h <- history;
    do _ <- emit (EvCopy dst data);
    orFail (Write W h dst data).

Definition close (dst : string) : M unit :=
  do h <- history;
  do _ <- emit (EvClose dst);
  orFail (Close W h dst).

(** Lines 247 to 273: one file entry written under [name]. *)
Definition extract (dir name : string) (zf : zip.File) : M unit :=
  let dst := Join dir name in
  do _ <- mkdirAll (Path.Dir dst);
  (* Mark all files as executable. *)
  do _ <- openFile dst;
  do _ <- emit (EvZipOpen (zip.Name zf));
  match zip.Open zf with
  | Fail err =>
      do _ <- errOf (close dst);
      fail err
  | Diverges => diverge
  | Ok r =>
      let '(data, rerr, n) :=
        limited (int64 (int64 (zip.UncompressedSize64 zf) + 1)) r in
      do werr <- errOf (copy dst data);
      match (match werr with Some e => Some e | None => rerr end) with
      | Some err =>
          do _ <- errOf (close dst);
          fail err
      | None =>
          do _ <- close dst;
          if (n <=? 0)%Z
          then fail (ErrDeclaredSize (zip.Name zf) (zip.UncompressedSize64 zf))
          else ret tt
      end
  end.

(** The loop of lines 235 to 274, with [prefixMatched]. *)
Fixpoint extractAll (dir prefix : string) (z : list zip.File)
         (prefixMatched : bool) : M bool :=
  match z with
  | [] => ret prefixMatched
  | zf :: z' =>
      let name := zip.Name zf in
      if String.eqb name "" || Str.HasSuffixSlash name then
        extractAll dir prefix z' prefixMatched
      else if negb (String.eqb prefix "") then
        if negb (Str.HasPrefix name (prefix ++ "/")) then
          extractAll dir prefix z' prefixMatched
        else
          do _ <- extract dir (Str.TrimPrefix name (prefix ++ "/")) zf;
          extractAll dir prefix z' true
      else
        do _ <- extract dir name zf;
        extractAll dir prefix z' prefixMatched
  end.

(** Lines 236 to 246: the name under which the loop writes an entry,
    [None] for an entry it skips. *)
Definition target (prefix : string) (zf : zip.File) : option string :=
  let name := zip.Name zf in
  if String.eqb name "" || Str.HasSuffixSlash name then None
  else if negb (String.eqb prefix "") then
    if negb (Str.HasPrefix name (prefix ++ "/")) then None
    else Some (Str.TrimPrefix name (prefix ++ "/"))
  else Some name.

(** The file that a call creates, writes or closes. *)
Definition fileOf (e : Event) : option string :=
  match e with
  | EvOpenFile dst | EvCopy dst _ | EvClose dst => Some dst
  | _ => None
  end.

(** The directory that a call creates. *)
Definition dirOf (e : Event) : option string :=
  match e with
  | EvMkdirAll d => Some d
  | _ => None
  end.

(** The files that the calls of a trace open with [os.OpenFile], in the
    order of the calls. *)
Definition opens (evs : list Event) : list string :=
  flat_map (fun e => match e with EvOpenFile dst => [dst] | _ => [] end) evs.

(** The calls of [e] on a file are on [dst], and the directory it creates
    is the directory of [dst]. *)
Definition onFile (dst : string) (e : Event) : Prop :=
  (forall d, fileOf e = Some d -> d = dst) /\
  (forall d, dirOf e = Some d -> d = Path.Dir dst).

(** The elements of [name] are neither empty nor [.] nor [..]. *)
Definition plain (name : string) : Prop :=
  Elements.hasSegment "" name = false /\ Elements.hasSegment "." name = false /\
  Elements.hasSegment ".." name = false.

(** The calls that write an entry under [name] when none of them fails
    (lines 247 to 268): the directory of the file, the file, the stream of
    the entry, what was read from it, and the closing. *)
Definition written (dir name : string) (zf : zip.File) (data : string)
  : list Event :=
  let dst := Join dir name in
  ([EvMkdirAll (Path.Dir dst); EvOpenFile dst; EvZipOpen (zip.Name zf)]
     ++ (if String.eqb data "" then [] else [EvCopy dst data])
     ++ [EvClose dst])%list.

(** The calls for an entry whose stream is written whole; none for an
    entry that the loop skips. *)
Definition extracted (dir prefix : string) (zf : zip.File) : list Event :=
  match target prefix zf, zip.Open zf with
  | Some name, Ok r => written dir name zf (zip.Bytes r)
  | _, _ => []
  end.

(** A reader that keeps to the declared size, as the reader of
    [archive/zip] does: it delivers no more than the declared bytes (it
    stops with [zip.ErrFormat] past them), and it ends without error only
    after exactly those (it ends a shorter stream with
    [io.ErrUnexpectedEOF]). *)
Definition sizeChecked (zf : zip.File) (r : zip.Reader) : Prop :=
  (Z.of_nat (String.length (zip.Bytes r)) <= zip.UncompressedSize64 zf)%Z /\
  (zip.End_ r = None ->
   Z.of_nat (String.length (zip.Bytes r)) = zip.UncompressedSize64 zf).

(** The entries of [z] that the loop writes have a stream that ends,
    without error, within the declared size. *)
Definition fitting (prefix : string) (z : list zip.File) : Prop :=
  forall zf name, In zf z -> target prefix zf = Some name ->
    exists r, zip.Open zf = Ok r /\ zip.End_ r = None /\
              (Z.of_nat (String.length (zip.Bytes r)) <= zip.UncompressedSize64 zf)%Z.

(** Some entry of [z] is written. *)
Definition matched (prefix : string) (z : list zip.File) : bool :=
  existsb (fun zf => match target prefix zf with Some _ => true | None => false end) z.

Definition unzip (dir zipFile prefix : string) : M unit :=
  deferZipError "unzip" zipFile (
    (* Check that the directory is empty. Don't create it yet in case
       there's an error reading the zip. *)
    do _ <- emit (EvReadDir dir);
    if (0 <? ReadDir W dir)%nat then fail (ErrTargetNotEmpty dir)
    else
      (* Open the zip and check that it satisfies all restrictions. *)
      do _ <- emit (EvOpen zipFile);
      do f <- lift (OsOpen W zipFile);
      do z <- checkZip f;
      (* unzip, enforcing sizes declared in the zip file. *)
      do _ <- mkdirAll dir;
      do prefixMatched <- extractAll dir prefix z false;
      if negb (String.eqb prefix "") && negb prefixMatched
      then fail (ErrNoPrefixMatch prefix)
      else ret tt).

(** *** [run] *)

Definition run (args : list string) : M unit :=
  let n := length args in
  if negb (n =? 1)%nat && negb (n =? 3)%nat && negb (n =? 4)%nat then
    fail ErrUsage
  else
    let zipFile := nth 0 args "" in
    do hash <- hashZip zipFile;
    if (n =? 1)%nat then
      do _ <- emit (EvOpen zipFile);
      do f <- lift (OsOpen W zipFile);
      do _ <- checkZip f;
      emit (EvPrintln hash)
    else
      let expectedHash := nth 1 args "" in
      do _ <- emit (EvCompareHash hash expectedHash);
      if negb (String.eqb hash expectedHash) then
        fail (ErrHashMismatch hash expectedHash)
      else
        let dir := nth 2 args "" in
        let prefix := if (n =? 4)%nat then nth 3 args "" else "" in
        unzip dir zipFile prefix.

(** *** [main] *)

(** [strconv.Quote], for the texts of the errors. *)
Variable Quote : string -> string.

(** What the process leaves when it ends: what it wrote to the standard
    error, and its exit status. *)
Record exit : Type := mkExit { stderr : string; status : Z }.

(** [main], on [os.Args[1:]]: the error of [run] is written to the
    standard error by [fmt.Fprintln], on a line, and the process exits with
    the status 1; without error [main] returns, and the status is 0. *)
Definition main (args : list string) : M exit :=
  fun h =>
    match run args h with
    | (h', Ok _) => (h', Ok {| stderr := ""; status := 0 |})
    | (h', Fail err) =>
        (h', Ok {| stderr := Messages.Error Quote err ++ String Str.newline "";
                   status := 1 |})
    | (h', Diverges) => (h', Diverges)
    end.

End Program.
End Main.
Export Main.

(** ** Instances for the examples *)

Module Sample.
Import Str Elements.

(** The ASCII part of [unicode.SimpleFold]: the two cases of a letter are
    exchanged, every other rune is left alone. *)
Definition SimpleFold (r : Z) : Z :=
  if (65 <=? r)%Z && (r <=? 90)%Z then (r + 32)%Z
  else if (97 <=? r)%Z && (r <=? 122)%Z then (r - 32)%Z
  else r.

Definition reserved : list string :=
  [ "CON"; "PRN"; "AUX"; "NUL";
    "COM1"; "COM2"; "COM3"; "COM4"; "COM5"; "COM6"; "COM7"; "COM8"; "COM9";
    "LPT1"; "LPT2"; "LPT3"; "LPT4"; "LPT5"; "LPT6"; "LPT7"; "LPT8"; "LPT9" ].

Fixpoint upper (s : string) : string :=
  match s with
  | EmptyString => EmptyString
  | String c s' =>
      let b := byteVal c in
      String (if (97 <=? b)%Z && (b <=? 122)%Z then byteOf (b - 32) else c) (upper s')
  end.

(** Modelled from the spec: [module.CheckFilePath] belongs to
    golang.org/x/mod and is not part of the repository.  Rule 2 of section
    4.1: the path is not empty, no element is empty or a reserved device
    name, and every byte is in the safe set.  The bounds on lengths, which
    the specification leaves open, are left out. *)
Definition CheckFilePath (p : string) : option error :=
  if String.eqb p "" then Some (ErrOther "empty path")
  else if existsb (String.eqb "") (segments p) then Some (ErrOther "empty path element")
  else if existsb (fun x => existsb (String.eqb (upper x)) reserved) (segments p)
  then Some (ErrOther "reserved name")
  else if negb (allBytes safeByte p) then Some (ErrOther "invalid char")
  else None.

(** An instance that also refuses the elements [.] and [..]. *)
Definition CheckPlainPath (p : string) : option error :=
  if hasSegment "." p || hasSegment ".." p
  then Some (ErrOther "invalid path element")
  else CheckFilePath p.

(** [strconv.Quote] on the strings of printable ASCII bytes that hold
    neither a double quote nor a backslash: the string between double
    quotes. *)
Definition Quote (s : string) : string :=
  String "034"%char (s ++ String "034"%char "").

(** A file entry whose declared size is the size of its content. *)
Definition file (name content : string) : zip.File :=
  {| zip.Name := name; zip.Method := 8;
     zip.UncompressedSize64 := Z.of_nat (String.length content);
     zip.Open := Ok (zip.mkReader content None) |}.

(** A file entry that declares [declared] bytes. *)
Definition sized (name : string) (declared : Z) (content : string) : zip.File :=
  {| zip.Name := name; zip.Method := 8;
     zip.UncompressedSize64 := declared;
     zip.Open := Ok (zip.mkReader content None) |}.

(** A file entry that declares [declared] bytes and whose stream ends with
    an error after [delivered]. *)
Definition broken (name : string) (declared : Z) (delivered msg : string)
  : zip.File :=
  {| zip.Name := name; zip.Method := 8;
     zip.UncompressedSize64 := declared;
     zip.Open := Ok (zip.mkReader delivered (Some (ErrOther msg))) |}.

Definition directory (name : string) : zip.File :=
  {| zip.Name := name; zip.Method := 0;
     zip.UncompressedSize64 := 0;
     zip.Open := Ok (zip.mkReader "" None) |}.

(** A world in which every path opens the archive [z], of [zipSize] bytes,
    the target directory is empty and no call fails. *)
Definition world (zipSize : Z) (z : list zip.File) : World :=
  {| ReadDir := fun _ => 0%nat;
     OsOpen := fun _ => Ok (os.mkFile (Ok zipSize) (Ok z));
     MkdirAll := fun _ _ => None;
     OpenFile := fun _ _ => None;
     Write := fun _ _ _ => None;
     Close := fun _ _ => None |}.

(** The archive of the scenario of section 8 of the specification. *)
Definition scenario : list zip.File := [file "a/b.txt" "hi"; directory "a/"].

End Sample.

Module PathFacts.
Import Str Path.

Lemma length_ofRev (out : list ascii) : String.length (ofRev out) = length out.
Proof.
  unfold ofRev. rewrite <- (length_rev out).
  induction (rev out) as [|c l IH]; simpl; [reflexivity | now rewrite IH].
Qed.

Lemma app_nil (t : string) : "" ++ t = t.
Proof. reflexivity. Qed.

Lemma app_cons (c : ascii) (s t : string) : String c s ++ t = String c (s ++ t).
Proof. reflexivity. Qed.

Lemma length_append (s t : string) :
  String.length (s ++ t) = (String.length s + String.length t)%nat.
Proof.
  induction s as [|c s IH]; [reflexivity|].
  rewrite app_cons. simpl. now rewrite IH.
Qed.

Lemma slash_cases (c : ascii) : {c = slash} + {c <> slash}.
Proof. destruct (Ascii.eqb_spec c slash); auto. Qed.

(** What [copyElem] leaves: the rest is at the end of an element, and
    every byte consumed is in the buffer. *)
Lemma copyElem_spec (s : string) (out : list ascii) :
  forall rest out2, copyElem s out = (rest, out2) ->
    atEnd rest = true /\
    (String.length rest + length out2 = String.length s + length out)%nat /\
    (String.length rest <= String.length s)%nat /\
    (out <> [] -> List.last out2 dot = List.last out dot).
Proof.
  revert out. induction s as [|c s IH]; intros out rest out2 H; simpl in H.
  - inversion H; subst. simpl. auto.
  - destruct (Ascii.eqb_spec c slash) as [->|Hc].
    + inversion H; subst. simpl. repeat split; auto.
    + apply IH in H. destruct H as (H1 & H2 & H3 & H4). simpl in *.
      repeat split; auto; try lia.
      intros Hne. rewrite H4 by discriminate.
      destruct out; [contradiction | reflexivity].
Qed.

Lemma copyElem_first (c : ascii) (s : string) (out : list ascii) :
  c <> slash ->
  forall rest out2, copyElem (String c s) out = (rest, out2) ->
    (String.length rest <= String.length s)%nat /\
    (out = [] -> List.last out2 dot = c).
Proof.
  intros Hc rest out2 H. simpl in H.
  destruct (Ascii.eqb_spec c slash); [contradiction|].
  apply copyElem_spec in H. destruct H as (_ & _ & H3 & H4).
  split; [exact H3|]. intros ->. rewrite H4 by discriminate. reflexivity.
Qed.

Lemma backtrack_length (dd : nat) (out : list ascii) :
  out <> [] -> (length (backtrack dd out) < length out)%nat.
Proof.
  induction out as [|c out IH]; [contradiction|]. intros _. simpl.
  destruct ((dd <? length out)%nat && negb (Ascii.eqb c slash)); [|lia].
  destruct out as [|d out]; [simpl; lia|].
  specialize (IH ltac:(discriminate)). lia.
Qed.

Lemma backtrack_last (dd : nat) (out : list ascii) :
  backtrack dd out = [] \/ List.last (backtrack dd out) dot = List.last out dot.
Proof.
  induction out as [|c out IH]; simpl; [auto|].
  destruct out as [|d out].
  - left. now destruct (_ && _).
  - destruct (_ && _); [|right; reflexivity].
    destruct IH as [IH|IH]; [left; exact IH | right; exact IH].
Qed.

(** Induction along the iterations of the loop of [Clean]. *)
Lemma cleanLoop_ind (rooted : bool)
      (P : string -> list ascii -> nat -> list ascii -> Prop) :
  (forall out dd, P "" out dd out) ->
  (forall s1 out dd R, P s1 out dd R -> P (String slash s1) out dd R) ->
  (forall s1 out dd R, atEnd s1 = true ->
     P s1 out dd R -> P (String dot s1) out dd R) ->
  (forall s2 out dd R, atEnd s2 = true -> (dd < length out)%nat ->
     P s2 (backtrack dd out) dd R -> P (String dot (String dot s2)) out dd R) ->
  (forall s2 out dd R, atEnd s2 = true -> (length out <= dd)%nat ->
     rooted = false ->
     let out2 := dot :: dot :: (if (0 <? length out)%nat then slash :: out else out) in
     P s2 out2 (length out2) R -> P (String dot (String dot s2)) out dd R) ->
  (forall s2 out dd R, atEnd s2 = true -> (length out <= dd)%nat ->
     rooted = true ->
     P s2 out dd R -> P (String dot (String dot s2)) out dd R) ->
  (forall c s1 out dd rest out2 R,
     c <> slash ->
     Ascii.eqb c dot && atEnd s1 = false ->
     Ascii.eqb c dot && headIs dot s1 && atEnd (tail s1) = false ->
     copyElem (String c s1) (withSep rooted out) = (rest, out2) ->
     P rest out2 dd R -> P (String c s1) out dd R) ->
  forall fuel s out dd, (String.length s <= fuel)%nat ->
    P s out dd (cleanLoop fuel rooted s out dd).
Proof.
  intros Hnil Hslash Hdot Hback Happ Hdrop Helem.
  induction fuel as [|fuel IH]; intros s out dd Hlen.
  - destruct s; [apply Hnil | simpl in Hlen; lia].
  - destruct s as [|c s1]; [apply Hnil|]. simpl in Hlen.
    cbn [cleanLoop].
    destruct (Ascii.eqb_spec c slash) as [->|Hc].
    { apply Hslash, IH. lia. }
    destruct (Ascii.eqb c dot && atEnd s1) eqn:E1.
    { apply andb_true_iff in E1 as [Ec E1]. apply Ascii.eqb_eq in Ec as ->.
      apply Hdot; [exact E1 | apply IH; lia]. }
    destruct (Ascii.eqb c dot && headIs dot s1 && atEnd (tail s1)) eqn:E2.
    { apply andb_true_iff in E2 as [E2 E3]. apply andb_true_iff in E2 as [Ec E2].
      apply Ascii.eqb_eq in Ec as ->.
      destruct s1 as [|d s2]; [discriminate|]. simpl in E2.
      apply Ascii.eqb_eq in E2 as ->. simpl in E3. simpl in Hlen.
      cbn [tail].
      destruct (Nat.ltb_spec dd (length out)) as [Hdd|Hdd].
      - apply Hback; [exact E3 | exact Hdd | apply IH; lia].
      - destruct rooted; cbn [negb].
        + apply Hdrop; [exact E3 | exact Hdd | reflexivity | apply IH; lia].
        + apply Happ; [exact E3 | exact Hdd | reflexivity | apply IH; lia]. }
    destruct (copyElem (String c s1) (withSep rooted out)) as [rest out2] eqn:E3.
    eapply Helem; eauto.
    apply IH. apply copyElem_first in E3 as [E3 _]; [lia | exact Hc].
Qed.

Lemma cleanLoop_fuel (rooted : bool) (fuel fuel' : nat) (s : string)
      (out : list ascii) (dd : nat) :
  (String.length s <= fuel)%nat -> (String.length s <= fuel')%nat ->
  cleanLoop fuel rooted s out dd = cleanLoop fuel' rooted s out dd.
Proof.
  intros H H'. revert fuel' H'.
  pattern s, out, dd, (cleanLoop fuel rooted s out dd).
  apply cleanLoop_ind; [..|exact H]; clear.
  - intros out dd [|f] _; reflexivity.
  - intros s1 out dd R IH [|f] Hf; simpl in Hf; [lia|].
    cbn [cleanLoop]. rewrite Ascii.eqb_refl. apply IH. lia.
  - intros s1 out dd R E IH [|f] Hf; simpl in Hf; [lia|].
    cbn [cleanLoop]. change (Ascii.eqb dot slash) with false. cbv iota.
    rewrite Ascii.eqb_refl, E. cbn [andb]. apply IH. lia.
  - intros s2 out dd R E Hdd IH [|f] Hf; simpl in Hf; [lia|].
    cbn [cleanLoop]. change (Ascii.eqb dot slash) with false. cbv iota.
    cbn [atEnd headIs tail]. change (Ascii.eqb dot slash) with false.
    rewrite Ascii.eqb_refl, E. cbn [andb].
    destruct (Nat.ltb_spec dd (length out)); [|lia]. apply IH. lia.
  - intros s2 out dd R E Hdd -> out2 IH [|f] Hf; simpl in Hf; [lia|].
    cbn [cleanLoop]. change (Ascii.eqb dot slash) with false. cbv iota.
    cbn [atEnd headIs tail]. change (Ascii.eqb dot slash) with false.
    rewrite Ascii.eqb_refl, E. cbn [andb negb].
    destruct (Nat.ltb_spec dd (length out)); [lia|]. apply IH. lia.
  - intros s2 out dd R E Hdd -> IH [|f] Hf; simpl in Hf; [lia|].
    cbn [cleanLoop]. change (Ascii.eqb dot slash) with false. cbv iota.
    cbn [atEnd headIs tail]. change (Ascii.eqb dot slash) with false.
    rewrite Ascii.eqb_refl, E. cbn [andb negb].
    destruct (Nat.ltb_spec dd (length out)); [lia|]. apply IH. lia.
  - intros c s1 out dd rest out2 R Hc E1 E2 E3 IH [|f] Hf; simpl in Hf; [lia|].
    cbn [cleanLoop]. destruct (Ascii.eqb_spec c slash); [contradiction|].
    rewrite E1, E2, E3. apply IH.
    apply copyElem_first in E3 as [E3 _]; [lia | assumption].
Qed.

Lemma withSep_length (rooted : bool) (out : list ascii) :
  (length out <= length (withSep rooted out) <= S (length out))%nat.
Proof. unfold withSep. destruct (_ || _); simpl; lia. Qed.

(** [Clean] never writes more than it has read. *)
Lemma cleanLoop_length (rooted : bool) (fuel : nat) (s : string)
      (out : list ascii) (dd : nat) :
  (String.length s <= fuel)%nat ->
  (atEnd s = true ->
   length (cleanLoop fuel rooted s out dd) <= length out + String.length s)%nat /\
  (length (cleanLoop fuel rooted s out dd)
   <= length (withSep rooted out) + String.length s)%nat.
Proof.
  intros H.
  pattern s, out, dd, (cleanLoop fuel rooted s out dd).
  apply cleanLoop_ind; [..|exact H]; clear.
  - intros out dd. pose proof (withSep_length rooted out). simpl. lia.
  - intros s1 out dd R [_ IH]. pose proof (withSep_length rooted out).
    simpl. lia.
  - intros s1 out dd R E [IH _]. specialize (IH E).
    pose proof (withSep_length rooted out). simpl. split; [discriminate | lia].
  - intros s2 out dd R E Hdd [IH _]. specialize (IH E).
    assert (length (backtrack dd out) < length out)%nat
      by (apply backtrack_length; destruct out; [simpl in Hdd; lia | discriminate]).
    pose proof (withSep_length rooted out). simpl. split; [discriminate | lia].
  - intros s2 out dd R E Hdd -> out2 [IH _]. specialize (IH E).
    subst out2. unfold withSep. simpl in *.
    split; [discriminate|].
    destruct out; simpl in *; lia.
  - intros s2 out dd R E Hdd -> [IH _]. specialize (IH E).
    pose proof (withSep_length true out). simpl. split; [discriminate | lia].
  - intros c s1 out dd rest out2 R Hc _ _ E [IH _].
    apply copyElem_spec in E as (E & Hl & _ & _). specialize (IH E).
    split; [simpl; destruct (Ascii.eqb_spec c slash); [contradiction | discriminate]|].
    lia.
Qed.

Lemma Clean_length (p : string) :
  p <> "" -> (String.length (Clean p) <= String.length p)%nat.
Proof.
  destruct p as [|c p]; [contradiction|]. intros _. unfold Clean.
  destruct (Ascii.eqb c slash).
  - destruct (cleanLoop_length true (String.length (String c p)) (tail (String c p))
                [slash] 1) as [_ H]; [simpl; lia|].
    destruct (cleanLoop _ _ _ _ _) eqn:E; [simpl; lia|].
    rewrite length_ofRev. exact H.
  - destruct (cleanLoop_length false (String.length (String c p)) (String c p)
                [] 0) as [_ H]; [simpl; lia|].
    destruct (cleanLoop _ _ _ _ _) eqn:E; [simpl; lia|].
    rewrite length_ofRev. exact H.
Qed.

(** A path that does not start with a separator is cleaned into one that
    does not either. *)
Lemma cleanLoop_relative (fuel : nat) (s : string) (out : list ascii) (dd : nat) :
  (String.length s <= fuel)%nat ->
  List.last out dot <> slash ->
  List.last (cleanLoop fuel false s out dd) dot <> slash.
Proof.
  intros H.
  pattern s, out, dd, (cleanLoop fuel false s out dd).
  apply cleanLoop_ind; [..|exact H]; clear; auto.
  - intros s2 out dd R _ _ IH Hout. apply IH.
    destruct (backtrack_last dd out) as [-> | ->]; [discriminate | exact Hout].
  - intros s2 out dd R _ _ _ out2 IH Hout. apply IH. subst out2.
    destruct out as [|d out]; [discriminate|]. exact Hout.
  - intros c s1 out dd rest out2 R Hc _ _ E IH Hout. apply IH.
    unfold withSep in E. destruct out as [|d out]; cbn [andb orb negb length Nat.eqb] in E.
    + apply copyElem_first in E as [_ E]; [|exact Hc]. now rewrite E.
    + apply copyElem_spec in E as (_ & _ & _ & E). rewrite E by discriminate.
      exact Hout.
Qed.

Lemma headIs_ofRev (c : ascii) (out : list ascii) :
  out <> [] -> headIs c (ofRev out) = Ascii.eqb (List.last out dot) c.
Proof.
  intros H. unfold ofRev.
  destruct (exists_last H) as (l & d & ->).
  rewrite rev_app_distr, last_last. reflexivity.
Qed.

Lemma Clean_relative (p : string) :
  headIs slash p = false -> headIs slash (Clean p) = false.
Proof.
  destruct p as [|c p]; [reflexivity|]. cbn [headIs]. intros Hc.
  unfold Clean. rewrite Hc.
  pose proof (cleanLoop_relative (String.length (String c p)) (String c p) [] 0
                ltac:(lia) ltac:(discriminate)) as H.
  set (R := cleanLoop _ _ _ _ _) in *.
  destruct R; [reflexivity|].
  rewrite headIs_ofRev by discriminate.
  now apply Ascii.eqb_neq.
Qed.

(** A separator at the very end is read and dropped. *)
Lemma atEnd_app_slash (s : string) : atEnd (s ++ "/") = atEnd s.
Proof. destruct s; reflexivity. Qed.

Lemma dotdot_app_slash (c : ascii) (s : string) :
  Ascii.eqb c dot && headIs dot (s ++ "/") && atEnd (tail (s ++ "/"))
  = Ascii.eqb c dot && headIs dot s && atEnd (tail s).
Proof.
  destruct s as [|d s]; [now rewrite !andb_false_r|].
  rewrite app_cons. cbn [headIs tail]. now rewrite atEnd_app_slash.
Qed.

Lemma copyElem_app_slash (s : string) (out : list ascii) :
  forall rest out2, copyElem s out = (rest, out2) ->
    copyElem (s ++ "/") out = (rest ++ "/", out2).
Proof.
  revert out. induction s as [|c s IH]; intros out rest out2 H.
  - inversion H; subst. reflexivity.
  - rewrite app_cons. simpl in *. destruct (Ascii.eqb c slash).
    + inversion H; subst. reflexivity.
    + now apply IH.
Qed.

Lemma cleanLoop_app_slash (rooted : bool) (fuel : nat) (s : string)
      (out : list ascii) (dd : nat) :
  (String.length s <= fuel)%nat ->
  forall fuel', (String.length s < fuel')%nat ->
    cleanLoop fuel' rooted (s ++ "/") out dd = cleanLoop fuel rooted s out dd.
Proof.
  intros H.
  pattern s, out, dd, (cleanLoop fuel rooted s out dd).
  apply cleanLoop_ind; [..|exact H]; clear.
  - intros out dd [|f] Hf; [simpl in Hf; lia|].
    rewrite app_nil. cbn [cleanLoop]. rewrite Ascii.eqb_refl. now destruct f.
  - intros s1 out dd R IH [|f] Hf; simpl in Hf; [lia|].
    rewrite app_cons. cbn [cleanLoop]. rewrite Ascii.eqb_refl. apply IH. lia.
  - intros s1 out dd R E IH [|f] Hf; simpl in Hf; [lia|].
    rewrite app_cons. cbn [cleanLoop]. change (Ascii.eqb dot slash) with false.
    cbv iota. rewrite Ascii.eqb_refl, atEnd_app_slash, E. cbn [andb].
    apply IH. lia.
  - intros s2 out dd R E Hdd IH [|f] Hf; simpl in Hf; [lia|].
    rewrite !app_cons. cbn [cleanLoop]. change (Ascii.eqb dot slash) with false.
    cbv iota. cbn [atEnd headIs tail]. change (Ascii.eqb dot slash) with false.
    rewrite Ascii.eqb_refl, atEnd_app_slash, E. cbn [andb].
    destruct (Nat.ltb_spec dd (length out)); [|lia]. apply IH. lia.
  - intros s2 out dd R E Hdd -> out2 IH [|f] Hf; simpl in Hf; [lia|].
    rewrite !app_cons. cbn [cleanLoop]. change (Ascii.eqb dot slash) with false.
    cbv iota. cbn [atEnd headIs tail]. change (Ascii.eqb dot slash) with false.
    rewrite Ascii.eqb_refl, atEnd_app_slash, E. cbn [andb negb].
    destruct (Nat.ltb_spec dd (length out)); [lia|]. apply IH. lia.
  - intros s2 out dd R E Hdd -> IH [|f] Hf; simpl in Hf; [lia|].
    rewrite !app_cons. cbn [cleanLoop]. change (Ascii.eqb dot slash) with false.
    cbv iota. cbn [atEnd headIs tail]. change (Ascii.eqb dot slash) with false.
    rewrite Ascii.eqb_refl, atEnd_app_slash, E. cbn [andb negb].
    destruct (Nat.ltb_spec dd (length out)); [lia|]. apply IH. lia.
  - intros c s1 out dd rest out2 R Hc E1 E2 E3 IH [|f] Hf; simpl in Hf; [lia|].
    rewrite app_cons. cbn [cleanLoop].
    destruct (Ascii.eqb_spec c slash); [contradiction|].
    rewrite atEnd_app_slash, E1, dotdot_app_slash, E2.
    rewrite <- app_cons. rewrite (copyElem_app_slash _ _ _ _ E3).
    apply IH. apply copyElem_first in E3 as [E3 _]; [lia | assumption].
Qed.

Lemma Clean_app_slash (x : string) : x <> "" -> Clean (x ++ "/") = Clean x.
Proof.
  destruct x as [|c x]; [contradiction|]. intros _.
  rewrite app_cons. unfold Clean. cbn [tail].
  destruct (Ascii.eqb c slash).
  - rewrite (cleanLoop_app_slash true (String.length (String c x)) x [slash] 1);
      [reflexivity | simpl; lia | simpl; rewrite length_append; simpl; lia].
  - rewrite <- app_cons.
    rewrite (cleanLoop_app_slash false (String.length (String c x)) (String c x) [] 0);
      [reflexivity | simpl; lia | simpl; rewrite length_append; simpl; lia].
Qed.

Lemma splitDir_none (p : string) : hasSlash p = false -> splitDir p = "".
Proof. destruct p; [reflexivity|]. intros H. cbn [splitDir]. now rewrite H. Qed.

(** The directory part of a path with a separator ends in its last
    separator. *)
Lemma splitDir_slash (p : string) :
  hasSlash p = true ->
  exists x, splitDir p = x ++ "/" /\ (String.length x < String.length p)%nat
            /\ (headIs slash p = false -> x <> "" /\ headIs slash x = false).
Proof.
  induction p as [|c p IH]; [discriminate|]. intros H.
  cbn [splitDir]. rewrite H. cbn [hasSlash] in H.
  destruct (hasSlash p) eqn:Hp.
  - destruct (IH eq_refl) as (x & -> & Hx & _).
    exists (String c x). repeat split; [simpl; lia | discriminate | assumption].
  - rewrite orb_false_r in H. exists "".
    rewrite (splitDir_none p Hp).
    apply Ascii.eqb_eq in H as ->. repeat split; simpl; try lia; discriminate.
Qed.

(** The parent of a relative path is ["."] or a shorter relative path: the
    recursion of [check] on the parents of a relative path ends. *)
Lemma Dir_relative (p : string) :
  headIs slash p = false ->
  headIs slash (Dir p) = false /\
  (Dir p = "." \/ (String.length (Dir p) < String.length p)%nat).
Proof.
  intros Hp. unfold Dir. destruct (hasSlash p) eqn:Hs.
  - destruct (splitDir_slash p Hs) as (x & -> & Hx & Hrel).
    destruct (Hrel Hp) as [Hne Hx0].
    rewrite Clean_app_slash by exact Hne.
    split; [now apply Clean_relative|].
    right. pose proof (Clean_length x Hne). lia.
  - rewrite splitDir_none by exact Hs. split; [reflexivity | left; reflexivity].
Qed.

End PathFacts.

(** ** The paths that [path.Clean] leaves as they are *)

Module CleanFacts.
Import Str Path Elements PathFacts.

Local Abbreviation chars := list_ascii_of_string.

Lemma cleanLoop_cleans (rooted : bool) (fuel : nat) (s : string)
      (out : list ascii) (dd : nat) :
  (String.length s <= fuel)%nat ->
  cleans rooted s out dd (cleanLoop fuel rooted s out dd).
Proof.
  apply cleanLoop_ind; intros.
  - apply cleans_end.
  - now apply cleans_slash.
  - now apply cleans_dot.
  - now apply cleans_back.
  - now apply cleans_up.
  - now apply cleans_drop.
  - eapply cleans_elem; eauto.
Qed.

Lemma cleans_length (rooted : bool) (s : string) (out : list ascii) (dd : nat)
      (R : list ascii) :
  cleans rooted s out dd R ->
  (atEnd s = true -> length R <= length out + String.length s)%nat /\
  (length R <= length (withSep rooted out) + String.length s)%nat.
Proof.
  induction 1 as [out dd | s1 out dd R H IH | s1 out dd R E H IH
                  | s2 out dd R E Hdd H IH | s2 out dd R E Hdd Hr H IH
                  | s2 out dd R E Hdd Hr H IH
                  | c s1 out dd rest out2 R Hc E1 E2 E3 H IH];
    pose proof (withSep_length rooted out) as Hw.
  - simpl. lia.
  - destruct IH as [_ IH]. simpl. lia.
  - destruct IH as [IH _]. specialize (IH E). simpl. split; [discriminate | lia].
  - destruct IH as [IH _]. specialize (IH E).
    assert (length (backtrack dd out) < length out)%nat
      by (apply backtrack_length; destruct out; [simpl in Hdd; lia | discriminate]).
    simpl. split; [discriminate | lia].
  - destruct IH as [IH _]. specialize (IH E). subst rooted.
    unfold withSep in *. simpl in *. split; [discriminate|].
    destruct out; simpl in *; lia.
  - destruct IH as [IH _]. specialize (IH E). simpl. split; [discriminate | lia].
  - destruct IH as [IH _].
    apply copyElem_spec in E3 as (E & Hl & _ & _). specialize (IH E).
    split; [simpl; destruct (Ascii.eqb_spec c slash); [contradiction | discriminate]|].
    lia.
Qed.

(** *** Elements *)

Lemma segments_slash (s : string) : segments (String slash s) = "" :: segments s.
Proof. reflexivity. Qed.

Lemma segments_cons (c : ascii) (s : string) :
  c <> slash ->
  exists x l, segments s = x :: l /\ segments (String c s) = String c x :: l.
Proof.
  intros Hc. cbn [segments]. destruct (Ascii.eqb_spec c slash); [contradiction|].
  destruct (segments s) as [|x l] eqn:E; [|eauto].
  destruct s as [|d s]; [discriminate|]. cbn [segments] in E.
  destruct (Ascii.eqb d slash); [discriminate|]. destruct (segments s); discriminate.
Qed.

Lemma segments_atEnd (s : string) :
  atEnd s = true ->
  segments s = "" :: (if String.eqb s "" then [] else segments (tail s)).
Proof.
  destruct s as [|c s]; [reflexivity|]. cbn [atEnd]. intros Hc.
  apply Ascii.eqb_eq in Hc as ->. reflexivity.
Qed.

Lemma app_empty (s : string) : s ++ "" = s.
Proof. induction s as [|c s IH]; [reflexivity|]. now rewrite app_cons, IH. Qed.

Lemma chars_app (s t : string) : chars (s ++ t) = (chars s ++ chars t)%list.
Proof. induction s as [|c s IH]; [reflexivity|]. rewrite app_cons. cbn. now rewrite IH. Qed.

(** What [copyElem] copies is the first element of the path. *)
Lemma copyElem_element (s : string) :
  forall out rest out2, copyElem s out = (rest, out2) ->
    exists elem,
      s = elem ++ rest /\ out2 = (rev (chars elem) ++ out)%list /\
      atEnd rest = true /\
      segments s = elem :: (if String.eqb rest "" then [] else segments (tail rest)).
Proof.
  induction s as [|c s IH]; intros out rest out2 H; cbn [copyElem] in H.
  - inversion H; subst. exists "". repeat split.
  - destruct (Ascii.eqb_spec c slash) as [->|Hc].
    + inversion H; subst. exists "". repeat split.
    + destruct (IH _ _ _ H) as (elem & Hs & Ho & He & Hseg).
      exists (String c elem). rewrite app_cons, <- Hs. split; [reflexivity|].
      split; [subst out2; cbn; now rewrite <- app_assoc|]. split; [exact He|].
      destruct (segments_cons c s Hc) as (x & l & Hx & ->).
      rewrite Hseg in Hx. now inversion Hx.
Qed.

Lemma tidy_normal (ok : bool) (c : ascii) (elem : string) (l : list string) :
  String c elem <> "." -> String c elem <> ".." ->
  tidy ok (String c elem :: l) = tidy false l.
Proof.
  intros H1 H2. cbn [tidy].
  destruct (String.eqb_spec (String c elem) ".."); [contradiction|].
  destruct (String.eqb_spec (String c elem) "."); [contradiction|].
  reflexivity.
Qed.

(** The element copied by the last case of the loop is neither [.] nor
    [..]. *)
Lemma copied_normal (c : ascii) (s1 rest elem : string) :
  c <> slash ->
  Ascii.eqb c dot && atEnd s1 = false ->
  Ascii.eqb c dot && headIs dot s1 && atEnd (tail s1) = false ->
  String c s1 = elem ++ rest -> atEnd rest = true ->
  exists elem1, elem = String c elem1 /\ elem <> "." /\ elem <> "..".
Proof.
  intros Hc E1 E2 Hs He.
  destruct elem as [|d elem1].
  { rewrite app_nil in Hs. subst rest. cbn in He.
    apply Ascii.eqb_eq in He. contradiction. }
  rewrite app_cons in Hs. inversion Hs; subst d. exists elem1.
  split; [reflexivity|]. split.
  - intros Heq. inversion Heq; subst. rewrite app_nil in E1.
    rewrite He in E1. discriminate.
  - intros Heq. inversion Heq; subst. rewrite app_cons, app_nil in E2.
    cbn in E2. rewrite He in E2. discriminate.
Qed.

Lemma withSep_after (rooted : bool) (elem : string) (out : list ascii) :
  elem <> "" ->
  withSep rooted (rev (chars elem) ++ withSep rooted out)
  = slash :: (rev (chars elem) ++ withSep rooted out)%list.
Proof.
  intros He. destruct elem as [|c elem]; [contradiction|].
  unfold withSep at 1. rewrite length_app, length_rev. cbn [chars length].
  pose proof (withSep_length rooted out) as Hw.
  assert (length (withSep true out) >= 1)%nat as H1.
  { unfold withSep. destruct out as [|a [|b out]]; cbn; lia. }
  destruct rooted; cbn [andb orb negb].
  - destruct (Nat.eqb_spec (S (length (chars elem)) + length (withSep true out)) 1);
      [lia | reflexivity].
  - reflexivity.
Qed.

Lemma withSep_up (out : list ascii) :
  withSep false out = (if (0 <? length out)%nat then slash :: out else out).
Proof. unfold withSep. now destruct out. Qed.

(** A path of the clean shape is copied as it is. *)
Lemma cleans_tidy (rooted : bool) (s : string) (out : list ascii) (dd : nat)
      (R : list ascii) :
  cleans rooted s out dd R ->
  forall ok, (ok = true -> rooted = false /\ (length out <= dd)%nat) ->
    (tidy ok (segments s) = true -> R = (rev (chars s) ++ withSep rooted out)%list) /\
    (atEnd s = true -> withSep rooted out = slash :: out ->
     (s = "" \/ tidy ok (segments (tail s)) = true) ->
     R = (rev (chars s) ++ out)%list).
Proof.
  induction 1 as [out dd | s1 out dd R H IH | s1 out dd R E H IH
                  | s2 out dd R E Hdd H IH | s2 out dd R E Hdd Hr H IH
                  | s2 out dd R E Hdd Hr H IH
                  | c s1 out dd rest out2 R Hc E1 E2 E3 H IH];
    intros ok Hok.
  - split; [discriminate | reflexivity].
  - split; [discriminate|].
    intros _ Hsep [Hs|Ht]; [discriminate|]. cbn [tail] in Ht.
    destruct (IH ok Hok) as [IH1 _]. rewrite (IH1 Ht), Hsep.
    cbn [chars rev]. now rewrite <- app_assoc.
  - split; [|discriminate].
    intros Ht. exfalso.
    destruct (segments_cons dot s1 ltac:(discriminate)) as (x & l & Hx & Hseg).
    rewrite (segments_atEnd s1 E) in Hx. inversion Hx; subst x l.
    rewrite Hseg in Ht. cbn in Ht. discriminate.
  - split; [|discriminate].
    intros Ht. exfalso.
    destruct (segments_cons dot (String dot s2) ltac:(discriminate)) as (x & l & Hx & Hseg).
    destruct (segments_cons dot s2 ltac:(discriminate)) as (x' & l' & Hx' & Hseg').
    rewrite (segments_atEnd s2 E) in Hx'. inversion Hx'; subst x' l'.
    rewrite Hseg' in Hx. inversion Hx; subst x l.
    rewrite Hseg in Ht. cbn [tidy] in Ht. change (String.eqb ".." "..") with true in Ht.
    cbv iota in Ht. apply andb_true_iff in Ht as [Hk _].
    destruct (Hok Hk). lia.
  - split; [|discriminate].
    intros Ht.
    destruct (segments_cons dot (String dot s2) ltac:(discriminate)) as (x & l & Hx & Hseg).
    destruct (segments_cons dot s2 ltac:(discriminate)) as (x' & l' & Hx' & Hseg').
    rewrite (segments_atEnd s2 E) in Hx'. inversion Hx'; subst x' l'.
    rewrite Hseg' in Hx. inversion Hx; subst x l.
    rewrite Hseg in Ht. cbn [tidy] in Ht. change (String.eqb ".." "..") with true in Ht.
    cbv iota in Ht. apply andb_true_iff in Ht as [Hk Ht]. subst ok.
    destruct (IH true) as [_ IH2]; [split; [exact Hr | lia]|].
    rewrite IH2; [| exact E | subst rooted; reflexivity |].
    + subst rooted. rewrite withSep_up. cbn [chars rev]. now rewrite <- !app_assoc.
    + destruct (String.eqb_spec s2 ""); [now left | now right].
  - split; [|discriminate].
    intros Ht. exfalso.
    destruct (segments_cons dot (String dot s2) ltac:(discriminate)) as (x & l & Hx & Hseg).
    destruct (segments_cons dot s2 ltac:(discriminate)) as (x' & l' & Hx' & Hseg').
    rewrite (segments_atEnd s2 E) in Hx'. inversion Hx'; subst x' l'.
    rewrite Hseg' in Hx. inversion Hx; subst x l.
    rewrite Hseg in Ht. cbn [tidy] in Ht. change (String.eqb ".." "..") with true in Ht.
    cbv iota in Ht. apply andb_true_iff in Ht as [Hk _].
    destruct (Hok Hk). congruence.
  - split; [|cbn [atEnd]; destruct (Ascii.eqb_spec c slash); [contradiction | discriminate]].
    intros Ht.
    destruct (copyElem_element _ _ _ _ E3) as (elem & Hs & Ho & He & Hseg).
    destruct (copied_normal c s1 rest elem Hc E1 E2 Hs He) as (elem1 & -> & Hn1 & Hn2).
    rewrite Hseg, (tidy_normal ok c elem1 _ Hn1 Hn2) in Ht.
    destruct (IH false ltac:(discriminate)) as [_ IH2].
    rewrite IH2; [| exact He | subst out2; apply withSep_after; discriminate |].
    + rewrite Hs, chars_app, rev_app_distr, Ho. now rewrite <- app_assoc.
    + destruct (String.eqb_spec rest ""); [now left | now right].
Qed.

(** A path that is not of the clean shape is cleaned into a shorter one. *)
Lemma cleans_untidy (rooted : bool) (s : string) (out : list ascii) (dd : nat)
      (R : list ascii) :
  cleans rooted s out dd R ->
  forall ok, (dd <= length out)%nat ->
    (ok = true -> rooted = false /\ (length out <= dd)%nat) ->
    (ok = false -> rooted = true \/ (dd < length out)%nat) ->
    ((s = "" -> withSep rooted out = slash :: out) ->
     tidy ok (segments s) = false ->
     (length R < length (withSep rooted out) + String.length s)%nat) /\
    (atEnd s = true -> s <> "" -> withSep rooted out = slash :: out ->
     tidy ok (segments (tail s)) = false ->
     (length R < length out + String.length s)%nat).
Proof.
  induction 1 as [out dd | s1 out dd R H IH | s1 out dd R E H IH
                  | s2 out dd R E Hdd H IH | s2 out dd R E Hdd Hr H IH
                  | s2 out dd R E Hdd Hr H IH
                  | c s1 out dd rest out2 R Hc E1 E2 E3 H IH];
    intros ok Hdd' Hok Hno;
    pose proof (withSep_length rooted out) as Hw.
  - split; [|congruence].
    intros Hsep _. rewrite (Hsep eq_refl). simpl. lia.
  - split.
    + intros _ _. destruct (cleans_length _ _ _ _ _ H) as [_ Hl]. simpl. lia.
    + intros _ _ Hsep Ht. cbn [tail] in Ht.
      destruct (IH ok Hdd' Hok Hno) as [IH1 _].
      specialize (IH1 (fun _ => Hsep) Ht). rewrite Hsep in IH1. simpl in *. lia.
  - split; [|discriminate].
    intros _ _. destruct (cleans_length _ _ _ _ _ H) as [Hl _]. specialize (Hl E).
    simpl. lia.
  - split; [|discriminate].
    intros _ _. destruct (cleans_length _ _ _ _ _ H) as [Hl _]. specialize (Hl E).
    assert (length (backtrack dd out) < length out)%nat
      by (apply backtrack_length; destruct out; [simpl in Hdd; lia | discriminate]).
    simpl. lia.
  - split; [|discriminate].
    intros _ Ht.
    destruct (segments_cons dot (String dot s2) ltac:(discriminate)) as (x & l & Hx & Hseg).
    destruct (segments_cons dot s2 ltac:(discriminate)) as (x' & l' & Hx' & Hseg').
    rewrite (segments_atEnd s2 E) in Hx'. inversion Hx'; subst x' l'.
    rewrite Hseg' in Hx. inversion Hx; subst x l.
    rewrite Hseg in Ht. cbn [tidy] in Ht. change (String.eqb ".." "..") with true in Ht.
    cbv iota in Ht.
    destruct ok; [|destruct (Hno eq_refl); [congruence | lia]].
    cbn [andb] in Ht.
    destruct (String.eqb_spec s2 "") as [->|Hne]; [discriminate|].
    destruct (IH true) as [_ IH2]; [lia | split; [exact Hr | lia] | discriminate |].
    specialize (IH2 E Hne). subst rooted.
    specialize (IH2 eq_refl Ht). rewrite withSep_up. simpl in *.
    destruct (0 <? length out)%nat; simpl in *; lia.
  - split; [|discriminate].
    intros _ _. destruct (cleans_length _ _ _ _ _ H) as [Hl _]. specialize (Hl E).
    simpl. lia.
  - split; [|cbn [atEnd]; destruct (Ascii.eqb_spec c slash); [contradiction | discriminate]].
    intros _ Ht.
    destruct (copyElem_element _ _ _ _ E3) as (elem & Hs & Ho & He & Hseg).
    destruct (copied_normal c s1 rest elem Hc E1 E2 Hs He) as (elem1 & -> & Hn1 & Hn2).
    rewrite Hseg, (tidy_normal ok c elem1 _ Hn1 Hn2) in Ht.
    destruct (String.eqb_spec rest "") as [->|Hne]; [discriminate|].
    assert (length out2 = length (chars (String c elem1)) + length (withSep rooted out))%nat
      as Hlen by (subst out2; now rewrite length_app, length_rev).
    cbn [chars length] in Hlen.
    destruct (IH false) as [_ IH2]; [lia | discriminate | intros _; right; lia|].
    specialize (IH2 He Hne).
    assert (withSep rooted out2 = slash :: out2) as Hsep
        by (subst out2; apply withSep_after; discriminate).
    specialize (IH2 Hsep Ht).
    apply copyElem_spec in E3 as (_ & Hl & _ & _). lia.
Qed.

Lemma ofRev_chars (p : string) : ofRev (rev (chars p)) = p.
Proof. unfold ofRev. now rewrite rev_involutive, string_of_list_ascii_of_string. Qed.

Lemma length_chars (p : string) : length (chars p) = String.length p.
Proof. induction p as [|c p IH]; [reflexivity|]. cbn. now rewrite IH. Qed.

(** [path.Clean] leaves a path as it is exactly when the path has the
    clean shape. *)
Lemma Clean_fixed (p : string) : Clean p = p <-> isClean p = true.
Proof.
  destruct p as [|c p]; [split; discriminate|].
  unfold Clean, isClean. cbn [tail].
  destruct (Ascii.eqb_spec c slash) as [->|Hc].
  - (* rooted *)
    pose proof (cleanLoop_cleans true (String.length (String slash p)) p [slash] 1
                  ltac:(simpl; lia)) as H.
    set (R := cleanLoop _ _ _ _ _) in *.
    destruct (String.eqb_spec p "") as [->|Hne]; [split; reflexivity|].
    clearbody R. cbn [orb]. split.
    + intros Heq. destruct (tidy false (segments p)) eqn:Ht; [reflexivity|]. exfalso.
      destruct (cleans_untidy _ _ _ _ _ H false) as [Hu _];
        [simpl; lia | discriminate | now left|].
      specialize (Hu ltac:(congruence) Ht). cbn in Hu.
      destruct R as [|a R]; [discriminate|].
      apply (f_equal String.length) in Heq. rewrite length_ofRev in Heq.
      simpl in *. lia.
    + intros Ht. destruct (cleans_tidy _ _ _ _ _ H false ltac:(discriminate)) as [Hc _].
      rewrite (Hc Ht). cbn [withSep length Nat.eqb andb orb negb].
      destruct (rev (chars p) ++ [slash])%list eqn:E;
        [apply (f_equal (@length ascii)) in E; rewrite length_app in E; simpl in E; lia|].
      rewrite <- E. change [slash] with (rev (chars "/")).
      rewrite <- rev_app_distr. change (chars "/" ++ chars p)%list with (chars (String slash p)).
      apply ofRev_chars.
  - (* not rooted *)
    pose proof (cleanLoop_cleans false (String.length (String c p)) (String c p) [] 0
                  ltac:(simpl; lia)) as H.
    set (R := cleanLoop _ _ _ _ _) in *.
    destruct (String.eqb_spec (String c p) ".") as [Heq|Hne].
    { inversion Heq; subst. split; reflexivity. }
    clearbody R. cbn [orb]. split.
    + intros Heq. destruct (tidy true (segments (String c p))) eqn:Ht; [reflexivity|]. exfalso.
      destruct (cleans_untidy _ _ _ _ _ H true) as [Hu _];
        [simpl; lia | split; [reflexivity | simpl; lia] | discriminate|].
      specialize (Hu ltac:(discriminate) Ht). cbn in Hu.
      destruct R as [|a R]; [congruence|].
      apply (f_equal String.length) in Heq. rewrite length_ofRev in Heq.
      simpl in *. lia.
    + intros Ht.
      destruct (cleans_tidy _ _ _ _ _ H true ltac:(split; [reflexivity | simpl; lia]))
        as [Hcp _].
      rewrite (Hcp Ht). cbn [withSep length Nat.eqb andb orb negb].
      rewrite app_nil_r.
      destruct (rev (chars (String c p))) eqn:E;
        [apply (f_equal (@length ascii)) in E; rewrite length_rev in E; simpl in E; lia|].
      rewrite <- E. apply ofRev_chars.
Qed.

(** *** Consequences for the names the specification lists *)

Lemma tidy_no_dot (ok : bool) (l : list string) :
  tidy ok l = true -> ~ In "" l /\ ~ In "." l.
Proof.
  revert ok. induction l as [|x l IH]; intros ok Ht; [split; intros []|].
  cbn [tidy] in Ht. destruct (String.eqb_spec x "..") as [->|Hx].
  - apply andb_true_iff in Ht as [_ Ht]. destruct (IH _ Ht) as [H1 H2].
    split; intros [H|H]; try discriminate; auto.
  - apply andb_true_iff in Ht as [Ht Ht2]. apply andb_true_iff in Ht as [Ha Hb].
    destruct (IH _ Ht2) as [H1 H2].
    destruct (String.eqb_spec x ""); [discriminate|].
    destruct (String.eqb_spec x "."); [discriminate|].
    split; intros [H|H]; try congruence; auto.
Qed.

Lemma tidy_dotdot (l : list string) : tidy false l = true -> ~ In ".." l.
Proof.
  induction l as [|x l IH]; intros Ht; [intros []|].
  cbn [tidy] in Ht. destruct (String.eqb_spec x "..") as [->|Hx]; [discriminate|].
  apply andb_true_iff in Ht as [_ Ht]. intros [H|H]; [congruence | now apply IH].
Qed.

Lemma doubleSlash_empty (s : string) :
  doubleSlash s = true -> In "" (tl (segments s)).
Proof.
  induction s as [|c s IH]; [discriminate|]. cbn [doubleSlash]. intros H.
  apply orb_true_iff in H as [H|H].
  - apply andb_true_iff in H as [Hc Hs]. apply Ascii.eqb_eq in Hc as ->.
    destruct s as [|d s]; [discriminate|]. cbn in Hs. apply Ascii.eqb_eq in Hs as ->.
    cbn. now left.
  - specialize (IH H). destruct (Ascii.eqb_spec c slash) as [->|Hc].
    + rewrite segments_slash. cbn [tl]. destruct (segments s); [destruct IH | now right].
    + destruct (segments_cons c s Hc) as (x & l & Hx & ->). rewrite Hx in IH. exact IH.
Qed.

Lemma hasSegment_In (x p : string) : hasSegment x p = true <-> In x (segments p).
Proof.
  unfold hasSegment. rewrite existsb_exists. split.
  - intros (y & Hy & He). apply String.eqb_eq in He as ->. exact Hy.
  - intros H. exists x. split; [exact H | apply String.eqb_refl].
Qed.

Lemma suffixSlash_empty (s : string) :
  HasSuffixSlash s = true -> In "" (tl (segments s)).
Proof.
  induction s as [|c s IH]; [discriminate|]. intros H.
  destruct s as [|d s].
  - cbn in H. apply Ascii.eqb_eq in H as ->. cbn. now left.
  - change (HasSuffixSlash (String d s) = true) in H. specialize (IH H).
    destruct (Ascii.eqb_spec c slash) as [->|Hc].
    + rewrite segments_slash. cbn [tl].
      destruct (segments (String d s)); [destruct IH | now right].
    + destruct (segments_cons c (String d s) Hc) as (x & l & Hx & ->).
      rewrite Hx in IH. exact IH.
Qed.

(** A path of the clean shape is not empty, has no empty element after its
    first byte (no redundant separator, and no separator at its end unless
    it is ["/"]), no [.] element unless it is ["."], and no [..] element
    when it is rooted. *)
Lemma isClean_shape (p : string) :
  isClean p = true ->
  p <> "" /\
  doubleSlash p = false /\
  (hasSegment "." p = true -> p = ".") /\
  (HasSuffixSlash p = true -> p = "/") /\
  (headIs slash p = true -> hasSegment ".." p = false).
Proof.
  intros H. split; [intros ->; discriminate|].
  destruct p as [|c p]; [discriminate|]. unfold isClean in H.
  destruct (Ascii.eqb_spec c slash) as [->|Hc].
  - destruct (String.eqb_spec p "") as [Hp|Hne];
      [subst p; repeat split; try discriminate; reflexivity|].
    cbn [orb] in H. destruct (tidy_no_dot _ _ H) as [H1 H2].
    pose proof (tidy_dotdot _ H) as H3.
    split; [|split; [|split]].
    + destruct (doubleSlash (String slash p)) eqn:E; [|reflexivity].
      apply doubleSlash_empty in E. rewrite segments_slash in E. cbn [tl] in E. contradiction.
    + intros Hd. apply hasSegment_In in Hd. rewrite segments_slash in Hd.
      destruct Hd as [Hd|Hd]; [discriminate | contradiction].
    + intros Hs. apply suffixSlash_empty in Hs. rewrite segments_slash in Hs.
      cbn [tl] in Hs. contradiction.
    + intros _. destruct (hasSegment ".." (String slash p)) eqn:E; [|reflexivity].
      apply hasSegment_In in E. rewrite segments_slash in E.
      destruct E as [E|E]; [discriminate | contradiction].
  - destruct (String.eqb_spec (String c p) ".") as [Heq|Hne].
    { inversion Heq; subst. repeat split; try discriminate; reflexivity. }
    cbn [orb] in H. destruct (tidy_no_dot _ _ H) as [H1 H2].
    split; [|split; [|split]].
    + destruct (doubleSlash (String c p)) eqn:E; [|reflexivity].
      apply doubleSlash_empty in E. exfalso. apply H1.
      destruct (segments (String c p)); [destruct E | now right].
    + intros Hd. apply hasSegment_In in Hd. contradiction.
    + intros Hs. apply suffixSlash_empty in Hs. exfalso. apply H1.
      destruct (segments (String c p)); [destruct Hs | now right].
    + cbn [headIs]. destruct (Ascii.eqb_spec c slash); [contradiction | discriminate].
Qed.

End CleanFacts.

(** ** The loop of [strToFold] *)

Section FoldFacts.

Variable SimpleFold : Z -> Z.

Local Abbreviation foldOrbit := (foldOrbit SimpleFold).

Lemma foldOrbit_value (depth : nat) (r : Z) :
  exists x, fst (foldOrbit depth r) = SimpleFold x.
Proof.
  revert r. induction depth as [|d IH]; intros r; cbn [Main.foldOrbit].
  - exists r. reflexivity.
  - destruct (foldOrbit d r) as [r1 out] eqn:E. destruct out.
    + destruct (IH r) as [x Hx]. rewrite E in Hx. exists x. exact Hx.
    + apply IH.
Qed.

(** As long as the loop stays, the rune grows: by one at least at each of
    the [2^depth] iterations. *)
Lemma foldOrbit_stays (depth : nat) (r : Z) :
  snd (foldOrbit depth r) = false ->
  (r + 2 ^ Z.of_nat depth <= fst (foldOrbit depth r))%Z.
Proof.
  revert r. induction depth as [|d IH]; intros r; cbn [Main.foldOrbit].
  - cbn [fst snd]. intros H. apply Z.leb_gt in H. change (2 ^ Z.of_nat 0)%Z with 1%Z. lia.
  - pose proof (IH r) as H1.
    destruct (foldOrbit d r) as [r1 out]. destruct out; [discriminate|].
    intros H. specialize (H1 eq_refl). specialize (IH r1 H). cbn [fst] in H1.
    rewrite Nat2Z.inj_succ, Z.pow_succ_r by lia. lia.
Qed.

(** With a [SimpleFold] whose values are [int32], the loop has left after
    [2^32] iterations: [foldOrbit 32] gives the rune with which the loop of
    [strToFold] ends. *)
Lemma foldOrbit_leaves (r : Z) :
  (forall x, - 2 ^ 31 <= SimpleFold x < 2 ^ 31)%Z ->
  (- 2 ^ 31 <= r < 2 ^ 31)%Z ->
  snd (foldOrbit 32 r) = true.
Proof.
  intros Hrange Hr. destruct (snd (foldOrbit 32 r)) eqn:E; [reflexivity|].
  apply foldOrbit_stays in E. destruct (foldOrbit_value 32 r) as [x Hx].
  rewrite Hx in E. specialize (Hrange x).
  change (Z.of_nat 32) with 32%Z in E.
  change (2 ^ 32)%Z with 4294967296%Z in E.
  change (2 ^ 31)%Z with 2147483648%Z in *. lia.
Qed.

End FoldFacts.

Section CheckFacts.

Variable SimpleFold : Z -> Z.

Local Abbreviation strToFold := (strToFold SimpleFold).
Local Abbreviation check := (check SimpleFold).
Local Abbreviation registered := (registered SimpleFold).
Local Abbreviation ancestorsRegistered := (ancestorsRegistered SimpleFold).

(** What [check] does once the entry itself raised no error. *)
Local Notation "'parents' fuel cc p" :=
  (if String.eqb (Path.Dir p) "." then Some (cc, None)
   else check fuel cc (Path.Dir p) true)
  (at level 10, fuel at level 9, cc at level 9, p at level 9, only parsing).

Lemma check_unfold (fuel : nat) (cc : gmap string pathInfo.t) (p : string) (isDir : bool) :
  check (S fuel) cc p isDir =
  match cc !! strToFold p with
  | Some other =>
      if negb (String.eqb p (pathInfo.path other)) then
        Some (cc, Some (ErrCollision (pathInfo.path other) p))
      else if negb (Bool.eqb isDir (pathInfo.isDir other)) then
        Some (cc, Some (ErrFileAndDir p))
      else if negb isDir then Some (cc, Some (ErrMultiple p))
      else parents fuel cc p
  | None => parents fuel (<[strToFold p := pathInfo.mk p isDir]> cc) p
  end.
Proof.
  cbn [Main.check].
  destruct (cc !! strToFold p); destruct (String.eqb (Path.Dir p) "."); reflexivity.
Qed.

(** The recursion on the parents of a relative path returns. *)
Lemma check_returns (fuel : nat) :
  forall (cc : gmap string pathInfo.t) (p : string) (isDir : bool),
    Str.headIs Str.slash p = false -> (String.length p <= fuel)%nat ->
    exists cc' err, check (S fuel) cc p isDir = Some (cc', err).
Proof.
  induction fuel as [|fuel IH]; intros cc p isDir Hrel Hlen.
  - rewrite check_unfold.
    destruct (PathFacts.Dir_relative p Hrel) as [_ [-> | Hd]]; [|lia].
    cbn [String.eqb]. rewrite !Ascii.eqb_refl.
    destruct (cc !! strToFold p); [|eauto].
    repeat destruct (negb _); eauto.
  - rewrite check_unfold.
    destruct (PathFacts.Dir_relative p Hrel) as [Hr [-> | Hd]].
    + change (String.eqb "." ".") with true.
      destruct (cc !! strToFold p); [|eauto].
      repeat destruct (negb _); eauto.
    + destruct (String.eqb (Path.Dir p) ".").
      * destruct (cc !! strToFold p); [|eauto].
        repeat destruct (negb _); eauto.
      * destruct (cc !! strToFold p); [|apply IH; [exact Hr | lia]].
        repeat destruct (negb _); eauto.
        apply IH; [exact Hr | lia].
Qed.

(** No call removes or changes an entry of the registry. *)
Lemma check_grows (fuel : nat) :
  forall (cc cc' : gmap string pathInfo.t) (p : string) (isDir : bool) (err : option error),
    check fuel cc p isDir = Some (cc', err) -> cc ⊆ cc'.
Proof.
  induction fuel as [|fuel IH]; intros cc cc' p isDir err H; [discriminate|].
  rewrite check_unfold in H.
  destruct (cc !! strToFold p) as [other|] eqn:Hcc.
  - destruct (negb (String.eqb p (pathInfo.path other))); [now inversion H|].
    destruct (negb (Bool.eqb isDir (pathInfo.isDir other))); [now inversion H|].
    destruct (negb isDir); [now inversion H|].
    destruct (String.eqb (Path.Dir p) "."); [now inversion H|].
    eapply IH; eauto.
  - assert (cc ⊆ <[strToFold p := pathInfo.mk p isDir]> cc) as Hsub
        by (apply insert_subseteq; exact Hcc).
    destruct (String.eqb (Path.Dir p) "."); [now inversion H; subst|].
    etrans; [exact Hsub | eapply IH; eauto].
Qed.

Lemma registered_mono (cc cc' : gmap string pathInfo.t) (p : string) (isDir : bool) :
  cc ⊆ cc' -> registered cc p isDir -> registered cc' p isDir.
Proof. unfold Main.registered. intros Hsub H. eapply lookup_weaken; eauto. Qed.

Lemma ancestor_trans (a q p : string) :
  ancestor a q -> ancestor q p -> ancestor a p.
Proof.
  intros Ha Hq. induction Hq as [p Hp | q p Hp Hq IH].
  - now apply ancestor_step.
  - apply ancestor_step; auto.
Qed.

(** A call that returns no error leaves [p] registered with all its
    ancestors, and registers nothing else. *)
Lemma check_ok (fuel : nat) :
  forall (cc cc' : gmap string pathInfo.t) (p : string) (isDir : bool),
    check fuel cc p isDir = Some (cc', None) ->
    registered cc' p isDir /\
    (forall a, ancestor a p -> registered cc' a true) /\
    (forall q d, registered cc' q d -> registered cc q d \/ q = p \/ ancestor q p).
Proof.
  induction fuel as [|fuel IH]; intros cc cc' p isDir H; [discriminate|].
  rewrite check_unfold in H.
  assert (forall cc1, registered cc1 p isDir ->
            (forall q d, registered cc1 q d -> registered cc q d \/ q = p) ->
            parents fuel cc1 p = Some (cc', None) ->
            registered cc' p isDir /\
            (forall a, ancestor a p -> registered cc' a true) /\
            (forall q d, registered cc' q d -> registered cc q d \/ q = p \/ ancestor q p))
    as Hpar.
  { intros cc1 Hreg Hnew Hp.
    destruct (String.eqb_spec (Path.Dir p) ".") as [Hd|Hd].
    - inversion Hp; subst cc1. split; [exact Hreg|]. split.
      + intros a Ha. inversion Ha; subst; contradiction.
      + intros q d Hq. destruct (Hnew q d Hq); auto.
    - pose proof (check_grows _ _ _ _ _ _ Hp) as Hsub1.
      apply IH in Hp as (Hp1 & Hp2 & Hp3). split; [|split].
      + eapply registered_mono; [exact Hsub1 | exact Hreg].
      + intros a Ha. inversion Ha; subst; auto.
      + intros q d Hq. destruct (Hp3 q d Hq) as [Hq1 | [-> | Hq1]].
        * destruct (Hnew q d Hq1); auto.
        * right. right. now apply ancestor_parent.
        * right. right. now apply ancestor_step. }
  destruct (cc !! strToFold p) as [[p' d']|] eqn:Hcc; cbn [pathInfo.path pathInfo.isDir] in H.
  - destruct (String.eqb_spec p p') as [<-|]; cbn [negb] in H; [|discriminate].
    destruct isDir, d'; cbn [Bool.eqb negb] in H; try discriminate.
    apply (Hpar cc); [exact Hcc | auto | exact H].
  - apply (Hpar (<[strToFold p := pathInfo.mk p isDir]> cc));
      [apply lookup_insert_eq | | exact H].
    intros q d Hq. unfold Main.registered in Hq |- *.
    rewrite lookup_insert in Hq. case_decide as Hk; [|left; exact Hq].
    right. now inversion Hq.
Qed.

(** The invariant survives every call that returns no error. *)
Lemma check_ok_invariant (fuel : nat) (cc cc' : gmap string pathInfo.t)
      (p : string) (isDir : bool) :
  ancestorsRegistered cc ->
  check fuel cc p isDir = Some (cc', None) ->
  ancestorsRegistered cc'.
Proof.
  intros Hinv H. pose proof (check_grows _ _ _ _ _ _ H) as Hsub.
  apply check_ok in H as (H1 & H2 & H3).
  intros q d a Hq Ha.
  destruct (H3 q d Hq) as [Hq1 | [-> | Hq1]].
  - eapply registered_mono; [exact Hsub|]. eapply Hinv; eauto.
  - now apply H2.
  - apply H2. eapply ancestor_trans; eauto.
Qed.

End CheckFacts.

Section ValidationFacts.

Variable SimpleFold : Z -> Z.
Variable CheckFilePath : string -> option error.

Local Abbreviation check := (check SimpleFold).
Local Abbreviation checkName := (checkName CheckFilePath).
Local Abbreviation checkFile := (checkFile SimpleFold CheckFilePath).
Local Abbreviation checkFiles := (checkFiles SimpleFold CheckFilePath).
Local Abbreviation relativeOnly := (relativeOnly CheckFilePath).

Lemma int64_small (x : Z) :
  (- 9223372036854775808 <= x < 9223372036854775808)%Z -> int64 x = x.
Proof.
  intros H. unfold int64. change (2 ^ 63)%Z with 9223372036854775808%Z.
  change (2 ^ 64)%Z with 18446744073709551616%Z. rewrite Z.mod_small; lia.
Qed.

Lemma int64_uint64 (x : Z) :
  uint64 x -> (0 <= int64 x)%Z -> int64 x = x.
Proof.
  unfold uint64, int64. change (2 ^ 63)%Z with 9223372036854775808%Z.
  change (2 ^ 64)%Z with 18446744073709551616%Z. intros H H0.
  destruct (Z_lt_le_dec x 9223372036854775808) as [Hx|Hx].
  - rewrite Z.mod_small; lia.
  - replace (x + 9223372036854775808)%Z
      with ((x - 9223372036854775808) + 1 * 18446744073709551616)%Z in H0 by lia.
    rewrite Z.mod_add in H0 by lia. rewrite Z.mod_small in H0; lia.
Qed.

(** An iteration of the loop ends in one of three ways: the entry is
    recorded as invalid, it is a directory that passed the checks, or it is
    a file that passed them and goes through the size accounting. *)
Lemma checkFile_cases (st st' : checkState) (zf : zip.File) :
  checkFile st zf = Some st' ->
  (exists cc err, st' = addError st cc zf err) \/
  (entryIsDir zf = true /\ cf st' = cf st /\ size st' = size st) \/
  (entryIsDir zf = false /\ exists cc, st' = addSize st cc zf).
Proof.
  unfold Main.checkFile.
  destruct (checkName (entryName zf)) as [err|].
  - intros H; inversion H; subst. left; eauto.
  - destruct (check _ _ _ _) as [[cc [err|]]|]; [| |discriminate].
    + intros H; inversion H; subst. left; eauto.
    + destruct (entryIsDir zf) eqn:Hd; intros H; inversion H; subst.
      * right; left. auto.
      * right; right. eauto.
Qed.

(** With a [CheckFilePath] that rejects rooted paths, every iteration
    returns. *)
Lemma checkFile_returns (st : checkState) (zf : zip.File) :
  relativeOnly -> exists st', checkFile st zf = Some st'.
Proof.
  intros Hrel. unfold Main.checkFile.
  destruct (checkName (entryName zf)) as [err|] eqn:Hn; [eauto|].
  unfold Main.checkName in Hn.
  destruct (negb _); [discriminate|]. apply Hrel in Hn.
  destruct (check_returns SimpleFold (String.length (entryName zf)) (collisions st)
              (entryName zf) (entryIsDir zf) Hn ltac:(lia)) as (cc & err & ->).
  destruct err; [eauto|]. destruct (entryIsDir zf); eauto.
Qed.

Lemma checkFiles_returns (z : list zip.File) :
  relativeOnly -> forall st, exists st', checkFiles st z = Some st'.
Proof.
  intros Hrel. induction z as [|zf z IH]; intros st; cbn [Main.checkFiles]; [eauto|].
  destruct (checkFile_returns st zf Hrel) as [st1 ->]. apply IH.
Qed.

Lemma checkFiles_app (z1 z2 : list zip.File) (st : checkState) :
  checkFiles st (z1 ++ z2)%list =
  match checkFiles st z1 with
  | Some st1 => checkFiles st1 z2
  | None => None
  end.
Proof.
  revert st. induction z1 as [|zf z1 IH]; intros st; cbn [Main.checkFiles app]; [reflexivity|].
  destruct (checkFile st zf); [apply IH | reflexivity].
Qed.

(** *** Size accounting *)

Lemma MaxZipFile_val : MaxZipFile = 524288000%Z.
Proof. reflexivity. Qed.

(** The test [sz >= 0 && MaxZipFile-size >= sz] is the test that the total
    stays within the budget: nothing wraps around. *)
Lemma fits_spec (st : checkState) (x : Z) :
  sizeOk st ->
  ((0 <=? int64 x)%Z && (int64 x <=? int64 (MaxZipFile - size st))%Z = true
   <-> (0 <= int64 x /\ size st + int64 x <= MaxZipFile)%Z).
Proof.
  unfold sizeOk. rewrite MaxZipFile_val. intros H.
  rewrite (int64_small (524288000 - size st)) by lia.
  rewrite andb_true_iff, Z.leb_le, Z.leb_le. lia.
Qed.

Lemma addSize_spec (st : checkState) (cc : gmap string pathInfo.t) (zf : zip.File) :
  sizeOk st ->
  let sz := int64 (zip.UncompressedSize64 zf) in
  let st' := addSize st cc zf in
  CheckedFiles.Valid (cf st') = (CheckedFiles.Valid (cf st) ++ [zip.Name zf])%list /\
  CheckedFiles.Invalid (cf st') = CheckedFiles.Invalid (cf st) /\
  sizeOk st' /\
  ((0 <= sz /\ size st + sz <= MaxZipFile)%Z ->
     size st' = (size st + sz)%Z /\
     CheckedFiles.SizeError (cf st') = CheckedFiles.SizeError (cf st)) /\
  (~ (0 <= sz /\ size st + sz <= MaxZipFile)%Z ->
     size st' = size st /\
     CheckedFiles.SizeError (cf st') =
       match CheckedFiles.SizeError (cf st) with
       | None => Some ErrTotalTooLarge
       | Some e => Some e
       end).
Proof.
  intros Hok sz st'. subst st'. unfold addSize. cbn.
  pose proof (fits_spec st (zip.UncompressedSize64 zf) Hok) as Hf. fold sz in Hf.
  fold sz. unfold sizeOk in *. cbn. rewrite MaxZipFile_val in *.
  destruct ((0 <=? sz)%Z && (sz <=? int64 (524288000 - size st))%Z) eqn:E.
  - destruct Hf as [Hf _]. specialize (Hf eq_refl).
    rewrite int64_small by lia. repeat split; try lia; intros; try reflexivity; lia.
  - assert (~ (0 <= sz /\ size st + sz <= 524288000)%Z) as Hn
        by (intros Hc; apply Hf in Hc; discriminate).
    repeat split; try lia; intros; try reflexivity; tauto.
Qed.

Lemma addError_spec (st : checkState) (cc : gmap string pathInfo.t)
      (zf : zip.File) (err : error) :
  let st' := addError st cc zf err in
  CheckedFiles.Valid (cf st') = CheckedFiles.Valid (cf st) /\
  CheckedFiles.Invalid (cf st')
    = (CheckedFiles.Invalid (cf st) ++ [mkFileError (zip.Name zf) err])%list /\
  CheckedFiles.SizeError (cf st') = CheckedFiles.SizeError (cf st) /\
  size st' = size st.
Proof. cbn. auto. Qed.

(** What one iteration does to the report and to the running total. *)
Lemma checkFile_effect (st st' : checkState) (zf : zip.File) :
  checkFile st zf = Some st' -> sizeOk st ->
  sizeOk st' /\
  (CheckedFiles.SizeError (cf st') = CheckedFiles.SizeError (cf st) \/
   CheckedFiles.SizeError (cf st) = None /\
   CheckedFiles.SizeError (cf st') = Some ErrTotalTooLarge) /\
  ((CheckedFiles.Valid (cf st') = CheckedFiles.Valid (cf st) /\
    invalidPaths (cf st') = (invalidPaths (cf st) ++ [zip.Name zf])%list /\
    size st' = size st) \/
   (entryIsDir zf = true /\
    CheckedFiles.Valid (cf st') = CheckedFiles.Valid (cf st) /\
    invalidPaths (cf st') = invalidPaths (cf st) /\
    size st' = size st) \/
   (entryIsDir zf = false /\
    CheckedFiles.Valid (cf st') = (CheckedFiles.Valid (cf st) ++ [zip.Name zf])%list /\
    invalidPaths (cf st') = invalidPaths (cf st) /\
    (CheckedFiles.SizeError (cf st') = None ->
     (0 <= int64 (zip.UncompressedSize64 zf))%Z /\
     size st' = (size st + int64 (zip.UncompressedSize64 zf))%Z))).
Proof.
  intros H Hok. apply checkFile_cases in H as [(cc & err & ->) | [(Hd & Hc & Hs) | (Hd & cc & ->)]].
  - split; [exact Hok|]. split; [left; reflexivity|]. left.
    unfold invalidPaths. cbn. rewrite map_app. auto.
  - split; [unfold sizeOk in *; congruence|]. split; [left; congruence|].
    right; left. unfold invalidPaths. rewrite Hc. auto.
  - destruct (addSize_spec st cc zf Hok) as (HV & HI & Hok' & Hfit & Hnofit).
    split; [exact Hok'|].
    destruct (Z_le_dec 0 (int64 (zip.UncompressedSize64 zf))) as [H0|H0];
      [destruct (Z_le_dec (size st + int64 (zip.UncompressedSize64 zf)) MaxZipFile) as [H1|H1]|].
    + destruct (Hfit (conj H0 H1)) as [Hs He]. split; [left; exact He|].
      right; right. unfold invalidPaths. rewrite HI. auto.
    + destruct Hnofit as [Hs He]; [lia|]. split.
      * destruct (CheckedFiles.SizeError (cf st)); [left; exact He | right; auto].
      * right; right. unfold invalidPaths. rewrite HI.
        split; [exact Hd|]. split; [exact HV|]. split; [reflexivity|].
        intros Hn. rewrite Hn in He. now destruct (CheckedFiles.SizeError (cf st)).
    + destruct Hnofit as [Hs He]; [lia|]. split.
      * destruct (CheckedFiles.SizeError (cf st)); [left; exact He | right; auto].
      * right; right. unfold invalidPaths. rewrite HI.
        split; [exact Hd|]. split; [exact HV|]. split; [reflexivity|].
        intros Hn. rewrite Hn in He. now destruct (CheckedFiles.SizeError (cf st)).
Qed.

(** The loop keeps the total within the budget, sets no other size error
    than the one of line 189, and only appends to the two sequences. *)
Lemma checkFiles_effect (z : list zip.File) :
  forall st st', checkFiles st z = Some st' -> sizeOk st ->
    sizeOk st' /\
    (CheckedFiles.SizeError (cf st') = CheckedFiles.SizeError (cf st) \/
     CheckedFiles.SizeError (cf st) = None /\
     CheckedFiles.SizeError (cf st') = Some ErrTotalTooLarge) /\
    exists V I,
      CheckedFiles.Valid (cf st') = (CheckedFiles.Valid (cf st) ++ V)%list /\
      invalidPaths (cf st') = (invalidPaths (cf st) ++ I)%list /\
      (forall p, count_occ string_dec V p + count_occ string_dec I p
                 <= count_occ string_dec (map zip.Name z) p)%nat.
Proof.
  induction z as [|zf z IH]; intros st st' H Hok; cbn [Main.checkFiles] in H.
  - inversion H; subst. split; [exact Hok|]. split; [left; reflexivity|].
    exists [], []. rewrite !app_nil_r. repeat split. intros p; simpl; lia.
  - destruct (checkFile st zf) as [st1|] eqn:H1; [|discriminate].
    destruct (checkFile_effect _ _ _ H1 Hok) as (Hok1 & He1 & Hstep).
    destruct (IH _ _ H Hok1) as (Hok' & He & V & I & HV & HI & Hcount).
    split; [exact Hok'|]. split.
    { destruct He as [He | [He He']]; destruct He1 as [He1 | [He1 He1']].
      - left; congruence.
      - right; split; congruence.
      - right; split; congruence.
      - congruence. }
    destruct Hstep as [(Ha & Hb & _) | [(_ & Ha & Hb & _) | (_ & Ha & Hb & _)]].
    + exists V, (zip.Name zf :: I). rewrite HV, HI, Ha, Hb, <- app_assoc.
      repeat split. intros p. specialize (Hcount p). cbn [map count_occ].
      destruct (string_dec (zip.Name zf) p); lia.
    + exists V, I. rewrite HV, HI, Ha, Hb. repeat split.
      intros p. specialize (Hcount p). cbn [map count_occ].
      destruct (string_dec (zip.Name zf) p); lia.
    + exists (zip.Name zf :: V), I. rewrite HV, HI, Ha, Hb, <- app_assoc.
      repeat split. intros p. specialize (Hcount p). cbn [map count_occ].
      destruct (string_dec (zip.Name zf) p); lia.
Qed.

(** When nothing was recorded, neither an invalid entry nor a size error,
    the running total is the sum of the declared sizes of the files. *)
Lemma checkFiles_total (z : list zip.File) :
  forall st st', checkFiles st z = Some st' -> sizeOk st ->
    Forall (fun zf => uint64 (zip.UncompressedSize64 zf)) z ->
    CheckedFiles.Invalid (cf st') = [] ->
    CheckedFiles.SizeError (cf st') = None ->
    size st' = (size st + declaredTotal z)%Z.
Proof.
  induction z as [|zf z IH]; intros st st' H Hok Hu Hinv Herr; cbn [Main.checkFiles] in H.
  - inversion H; subst. cbn. lia.
  - destruct (checkFile st zf) as [st1|] eqn:H1; [|discriminate].
    inversion Hu as [|? ? Hu1 Hu2]; subst.
    destruct (checkFile_effect _ _ _ H1 Hok) as (Hok1 & He1 & Hstep).
    destruct (checkFiles_effect _ _ _ H Hok1) as (_ & He & V & I & _ & HI & _).
    assert (invalidPaths (cf st1) = []) as Hinv1.
    { unfold invalidPaths in HI. rewrite Hinv in HI. cbn in HI.
      symmetry in HI. apply app_eq_nil in HI as [HI _]. exact HI. }
    assert (CheckedFiles.SizeError (cf st1) = None) as Herr1.
    { destruct He as [He | [He _]]; congruence. }
    rewrite (IH _ _ H Hok1 Hu2 Hinv Herr). cbn [declaredTotal].
    destruct Hstep as [(_ & Hb & _) | [(Hd & _ & _ & Hs) | (Hd & _ & _ & Hs)]].
    + rewrite Hinv1 in Hb. symmetry in Hb. apply app_eq_nil in Hb as [_ Hb]. discriminate.
    + rewrite Hd, Hs. lia.
    + rewrite Hd. destruct (Hs Herr1) as [H0 ->].
      rewrite (int64_uint64 _ Hu1 H0). lia.
Qed.

(** *** The registry along a pass *)

Lemma checkFile_registry (st st' : checkState) (zf : zip.File) :
  checkFile st zf = Some st' ->
  collisions st ⊆ collisions st' /\
  (length (CheckedFiles.Invalid (cf st)) <= length (CheckedFiles.Invalid (cf st')))%nat /\
  (length (CheckedFiles.Invalid (cf st')) = length (CheckedFiles.Invalid (cf st)) ->
   ancestorsRegistered SimpleFold (collisions st) ->
   ancestorsRegistered SimpleFold (collisions st')).
Proof.
  unfold Main.checkFile.
  destruct (checkName (entryName zf)) as [err|].
  - intros H; inversion H; subst. cbn. rewrite length_app. cbn.
    split; [reflexivity|]. split; lia.
  - destruct (check _ _ _ _) as [[cc [err|]]|] eqn:Hc; [| |discriminate].
    + intros H; inversion H; subst. cbn. rewrite length_app. cbn.
      split; [eapply check_grows; eauto|]. split; lia.
    + assert (collisions st ⊆ cc) as Hsub by (eapply check_grows; eauto).
      assert (ancestorsRegistered SimpleFold (collisions st) ->
              ancestorsRegistered SimpleFold cc) as Hinv
          by (intros Hi; eapply check_ok_invariant; eauto).
      destruct (entryIsDir zf); intros H; inversion H; subst; cbn; auto.
Qed.

Lemma checkFiles_registry (z : list zip.File) :
  forall st st', checkFiles st z = Some st' ->
    collisions st ⊆ collisions st' /\
    (length (CheckedFiles.Invalid (cf st)) <= length (CheckedFiles.Invalid (cf st')))%nat /\
    (length (CheckedFiles.Invalid (cf st')) = length (CheckedFiles.Invalid (cf st)) ->
     ancestorsRegistered SimpleFold (collisions st) ->
     ancestorsRegistered SimpleFold (collisions st')).
Proof.
  induction z as [|zf z IH]; intros st st' H; cbn [Main.checkFiles] in H.
  - inversion H; subst. split; [reflexivity|]. split; [lia | auto].
  - destruct (checkFile st zf) as [st1|] eqn:H1; [|discriminate].
    apply checkFile_registry in H1 as (Ha & Hb & Hc).
    apply IH in H as (Ha' & Hb' & Hc').
    split; [etrans; eauto|]. split; [lia|].
    intros Hlen Hinv. apply Hc'; [lia|]. apply Hc; [lia | exact Hinv].
Qed.

(** *** [checkZip] *)

(** What [checkZip] does on an archive that is not too large and that the
    decoder reads: the three calls, and the error of the report. *)
Lemma checkZip_run (f : os.File) (zipSize : Z) (z : list zip.File)
      (st : checkState) (h : list Event) :
  os.Stat f = Ok zipSize -> (zipSize <= MaxZipFile)%Z ->
  os.NewReader f = Ok z ->
  checkFiles checkStart z = Some st ->
  checkZip SimpleFold CheckFilePath f h
  = ((h ++ [EvStat; EvNewReader; EvChecked (CheckedFiles.Err (cf st))])%list,
     match CheckedFiles.Err (cf st) with
     | Some e => Fail e
     | None => Ok z
     end).
Proof.
  intros Hs Hle Hr Hc. unfold checkZip, bind, emit, lift, orFail, ret, fail.
  rewrite Hs. destruct (Z.ltb_spec MaxZipFile zipSize) as [Hlt|_]; [lia|].
  rewrite Hr, Hc. rewrite <- !app_assoc. cbn [app].
  destruct (CheckedFiles.Err (cf st)); reflexivity.
Qed.

(** A zip that is too large is refused before it is decoded. *)
Lemma checkZip_too_large (f : os.File) (zipSize : Z) (h : list Event) :
  os.Stat f = Ok zipSize -> (MaxZipFile < zipSize)%Z ->
  checkZip SimpleFold CheckFilePath f h
  = ((h ++ [EvStat])%list, Fail (ErrZipTooLarge zipSize)).
Proof.
  intros Hs Hlt. unfold checkZip, bind, emit, lift, orFail, ret, fail.
  rewrite Hs. destruct (Z.ltb_spec MaxZipFile zipSize) as [_|Hle]; [|lia].
  reflexivity.
Qed.

End ValidationFacts.

(** ** The claims on the report and on the registry *)

Section PassClaims.

Variable SimpleFold : Z -> Z.
Variable CheckFilePath : string -> option error.

Local Abbreviation check := (check SimpleFold).
Local Abbreviation checkName := (checkName CheckFilePath).
Local Abbreviation checkFile := (checkFile SimpleFold CheckFilePath).
Local Abbreviation checkFiles := (checkFiles SimpleFold CheckFilePath).
Local Abbreviation relativeOnly := (relativeOnly CheckFilePath).
Local Abbreviation ancestorsRegistered := (ancestorsRegistered SimpleFold).

(** C2. [Err] returns the size error whenever one was recorded, whatever
    [Invalid] holds; without a size error it returns the [FileErrorList] of
    the whole of [Invalid] when [Invalid] is not empty, and no error when it
    is empty.  The report itself is not changed, and the error [checkZip]
    returns after the loop over the entries is the one [Err] gives for the
    report of the loop. *)
Theorem Err_precedence :
  (forall c : CheckedFiles.t,
     (forall e, CheckedFiles.SizeError c = Some e -> CheckedFiles.Err c = Some e) /\
     (CheckedFiles.SizeError c = None -> CheckedFiles.Invalid c <> [] ->
      CheckedFiles.Err c = Some (FileErrorList (CheckedFiles.Invalid c))) /\
     (CheckedFiles.SizeError c = None -> CheckedFiles.Invalid c = [] ->
      CheckedFiles.Err c = None)) /\
  (forall f zipSize z st h,
     os.Stat f = Ok zipSize -> (zipSize <= MaxZipFile)%Z ->
     os.NewReader f = Ok z ->
     checkFiles checkStart z = Some st ->
     snd (checkZip SimpleFold CheckFilePath f h)
     = match CheckedFiles.Err (cf st) with
       | Some e => Fail e
       | None => Ok z
       end).
Proof.
  split.
  - intros c. unfold CheckedFiles.Err. split; [|split].
    + intros e ->. reflexivity.
    + intros -> Hne. destruct (CheckedFiles.Invalid c); [contradiction | reflexivity].
    + intros -> ->. reflexivity.
  - intros f zipSize z st h Hs Hle Hr Hst.
    now rewrite (checkZip_run SimpleFold CheckFilePath f zipSize z st h Hs Hle Hr Hst).
Qed.

(** C8 (amended).  No call of [check] removes or changes an entry of the
    registry, whether it returns an error or not, and so the registry only
    grows along a validation pass.  A call that returns no error keeps the
    invariant that every ancestor directory of a registered path is
    registered as a directory; the invariant holds at the end of a pass
    that recorded no invalid entry. *)
Theorem registry_grows :
  (forall fuel cc cc' p isDir err,
     check fuel cc p isDir = Some (cc', err) ->
     cc ⊆ cc' /\
     (err = None -> ancestorsRegistered cc -> ancestorsRegistered cc')) /\
  (forall z st st',
     checkFiles st z = Some st' ->
     collisions st ⊆ collisions st' /\
     (CheckedFiles.Invalid (cf st') = CheckedFiles.Invalid (cf st) ->
      ancestorsRegistered (collisions st) ->
      ancestorsRegistered (collisions st'))).
Proof.
  split.
  - intros fuel cc cc' p isDir err H. split; [eapply check_grows; eauto|].
    intros -> Hinv. eapply check_ok_invariant; eauto.
  - intros z st st' H.
    apply (checkFiles_registry SimpleFold CheckFilePath) in H as (Ha & _ & Hc).
    split; [exact Ha|]. intros Heq. apply Hc. now rewrite Heq.
Qed.

(** C6. A file entry that passed the checks of its name is added to the
    running total exactly when its declared size, as an [int64], is not
    negative and the total with it stays within [MaxZipFile]; otherwise the
    size error is recorded unless one is recorded already.  Either way the
    entry goes to [Valid] and [Invalid] is left alone.  An archive without
    invalid entry whose declared sizes add up to more than [MaxZipFile], be
    it by one byte, fails with the size error. *)
Theorem size_enforcement :
  (forall st zf cc,
     sizeOk st -> entryIsDir zf = false ->
     checkName (entryName zf) = None ->
     check (S (String.length (entryName zf))) (collisions st) (entryName zf) false
       = Some (cc, None) ->
     let sz := int64 (zip.UncompressedSize64 zf) in
     exists st',
       checkFile st zf = Some st' /\ sizeOk st' /\
       CheckedFiles.Valid (cf st') = (CheckedFiles.Valid (cf st) ++ [zip.Name zf])%list /\
       CheckedFiles.Invalid (cf st') = CheckedFiles.Invalid (cf st) /\
       ((0 <= sz /\ size st + sz <= MaxZipFile)%Z ->
        size st' = (size st + sz)%Z /\
        CheckedFiles.SizeError (cf st') = CheckedFiles.SizeError (cf st)) /\
       (~ (0 <= sz /\ size st + sz <= MaxZipFile)%Z ->
        size st' = size st /\
        CheckedFiles.SizeError (cf st') =
          match CheckedFiles.SizeError (cf st) with
          | None => Some ErrTotalTooLarge
          | Some e => Some e
          end)) /\
  (relativeOnly ->
   forall z, Forall (fun zf => uint64 (zip.UncompressedSize64 zf)) z ->
     exists st,
       checkFiles checkStart z = Some st /\
       (CheckedFiles.Invalid (cf st) = [] ->
        (MaxZipFile < declaredTotal z)%Z ->
        CheckedFiles.Err (cf st) = Some ErrTotalTooLarge /\
        forall f zipSize h,
          os.Stat f = Ok zipSize -> (zipSize <= MaxZipFile)%Z ->
          os.NewReader f = Ok z ->
          snd (checkZip SimpleFold CheckFilePath f h) = Fail ErrTotalTooLarge)).
Proof.
  split.
  - intros st zf cc Hok Hd Hn Hc sz.
    exists (addSize st cc zf). unfold Main.checkFile.
    rewrite Hn, Hd, Hc.
    destruct (addSize_spec st cc zf Hok) as (HV & HI & Hok' & Hfit & Hnofit).
    repeat split; auto; try apply Hfit; try apply Hnofit; auto.
    all: try (destruct Hok'; assumption).
  - intros Hrel z Hu.
    destruct (checkFiles_returns SimpleFold CheckFilePath z Hrel checkStart) as [st Hst].
    exists st. split; [exact Hst|]. intros Hinv Hbig.
    assert (sizeOk checkStart) as Hok0 by (unfold sizeOk; cbn; rewrite MaxZipFile_val; lia).
    destruct (checkFiles_effect SimpleFold CheckFilePath z _ _ Hst Hok0)
      as (Hok & He & _).
    assert (CheckedFiles.SizeError (cf st) = Some ErrTotalTooLarge) as Herr.
    { destruct He as [He | [_ He]]; [|exact He]. cbn in He.
      pose proof (checkFiles_total SimpleFold CheckFilePath z _ _ Hst Hok0 Hu Hinv He) as Hs.
      cbn in Hs. unfold sizeOk in Hok. lia. }
    assert (CheckedFiles.Err (cf st) = Some ErrTotalTooLarge) as HErr
        by (unfold CheckedFiles.Err; now rewrite Herr).
    split; [exact HErr|].
    intros f zipSize h Hs Hle Hr.
    rewrite (checkZip_run SimpleFold CheckFilePath f zipSize z st h Hs Hle Hr Hst).
    cbn [snd]. now rewrite HErr.
Qed.

(** C7 (amended).  Every entry is put in at most one of [Valid] and
    [Invalid]: a path that occurs in both is the name of at least two
    entries of the archive.  When the entries have pairwise distinct names
    no path occurs in both. *)
Theorem valid_invalid_disjoint :
  relativeOnly ->
  forall z,
    exists st,
      checkFiles checkStart z = Some st /\
      (forall p, In p (CheckedFiles.Valid (cf st)) -> In p (invalidPaths (cf st)) ->
                 (2 <= count_occ string_dec (map zip.Name z) p)%nat) /\
      (List.NoDup (map zip.Name z) ->
       forall p, ~ (In p (CheckedFiles.Valid (cf st)) /\ In p (invalidPaths (cf st)))).
Proof.
  intros Hrel z.
  destruct (checkFiles_returns SimpleFold CheckFilePath z Hrel checkStart) as [st Hst].
  exists st. split; [exact Hst|].
  assert (sizeOk checkStart) as Hok0 by (unfold sizeOk; cbn; rewrite MaxZipFile_val; lia).
  destruct (checkFiles_effect SimpleFold CheckFilePath z _ _ Hst Hok0)
    as (_ & _ & V & I & HV & HI & Hcount).
  cbn in HV, HI.
  assert (forall p, In p (CheckedFiles.Valid (cf st)) -> In p (invalidPaths (cf st)) ->
                    (2 <= count_occ string_dec (map zip.Name z) p)%nat) as Htwice.
  { intros p Hv Hi. rewrite HV in Hv. rewrite HI in Hi.
    apply (count_occ_In string_dec) in Hv, Hi. specialize (Hcount p). lia. }
  split; [exact Htwice|].
  intros Hnd p [Hv Hi]. specialize (Htwice p Hv Hi).
  pose proof (proj1 (NoDup_count_occ string_dec _) Hnd p). lia.
Qed.

End PassClaims.

Lemma Err_precedence_witness :
  CheckedFiles.Err
    {| CheckedFiles.Valid := ["big"]; CheckedFiles.Omitted := [];
       CheckedFiles.Invalid := [mkFileError "a/./b" (ErrNotClean "a/./b")];
       CheckedFiles.SizeError := Some ErrTotalTooLarge |} = Some ErrTotalTooLarge
  /\ CheckedFiles.Err
    {| CheckedFiles.Valid := []; CheckedFiles.Omitted := [];
       CheckedFiles.Invalid := [mkFileError "a/./b" (ErrNotClean "a/./b")];
       CheckedFiles.SizeError := None |}
     = Some (FileErrorList [mkFileError "a/./b" (ErrNotClean "a/./b")])
  /\ CheckedFiles.Err CheckedFiles.zero = None
  /\ snd (checkZip Sample.SimpleFold Sample.CheckFilePath
            (os.mkFile (Ok 100%Z)
               (Ok [Sample.file "a/./b" "x"; Sample.sized "big" (MaxZipFile + 1) ""])) [])
     = Fail ErrTotalTooLarge.
Proof.
  split; [|split; [|split]].
  - apply (proj1 (proj1 (Err_precedence Sample.SimpleFold Sample.CheckFilePath)
      {| CheckedFiles.Valid := ["big"]; CheckedFiles.Omitted := [];
         CheckedFiles.Invalid := [mkFileError "a/./b" (ErrNotClean "a/./b")];
         CheckedFiles.SizeError := Some ErrTotalTooLarge |})).
    reflexivity.
  - apply (proj1 (proj2 (proj1 (Err_precedence Sample.SimpleFold Sample.CheckFilePath)
      {| CheckedFiles.Valid := []; CheckedFiles.Omitted := [];
         CheckedFiles.Invalid := [mkFileError "a/./b" (ErrNotClean "a/./b")];
         CheckedFiles.SizeError := None |}))); [reflexivity | discriminate].
  - apply (proj2 (proj2 (proj1 (Err_precedence Sample.SimpleFold Sample.CheckFilePath)
                           CheckedFiles.zero))); reflexivity.
  - apply (proj2 (Err_precedence Sample.SimpleFold Sample.CheckFilePath)
             _ 100%Z
             [Sample.file "a/./b" "x"; Sample.sized "big" (MaxZipFile + 1) ""]
             {| cf := {| CheckedFiles.Valid := ["big"]; CheckedFiles.Omitted := [];
                         CheckedFiles.Invalid := [mkFileError "a/./b" (ErrNotClean "a/./b")];
                         CheckedFiles.SizeError := Some ErrTotalTooLarge |};
                collisions := <["big" := pathInfo.mk "big" false]> ∅;
                size := 0 |} []);
      [reflexivity | vm_compute; discriminate | reflexivity | vm_compute; reflexivity].
Defined.

Lemma registry_grows_witness :
  exists cc', check Sample.SimpleFold 4 ∅ "a/b" false = Some (cc', None) /\
              (∅ : gmap string pathInfo.t) ⊆ cc' /\
              ancestorsRegistered Sample.SimpleFold cc'.
Proof.
  eexists. split; [vm_compute; reflexivity|].
  match goal with |- _ ⊆ ?c /\ _ =>
    pose proof (proj1 (registry_grows Sample.SimpleFold Sample.CheckFilePath)
                  4%nat ∅ c "a/b" false None eq_refl) as [H1 H2]
  end.
  split; [exact H1|]. apply H2; [reflexivity|].
  intros p d q Hp. unfold registered in Hp. rewrite lookup_empty in Hp. discriminate.
Defined.

(** C8, as stated, fails after a call that returns an error: with ["a"]
    registered as a file, [check("a/b", false)] stores ["a/b"] and then fails
    on the parent ["a"]; ["a/b"] stays registered although its ancestor
    ["a"] is not registered as a directory. *)
Lemma registry_invariant_counterexample :
  exists cc1 cc2 err,
    check Sample.SimpleFold 2 ∅ "a" false = Some (cc1, None) /\
    ancestorsRegistered Sample.SimpleFold cc1 /\
    check Sample.SimpleFold 4 cc1 "a/b" false = Some (cc2, Some err) /\
    ~ ancestorsRegistered Sample.SimpleFold cc2.
Proof.
  eexists. eexists. eexists.
  split; [vm_compute; reflexivity|].
  split.
  { eapply (check_ok_invariant Sample.SimpleFold 2 ∅ _ "a" false).
    - intros p d q Hp. unfold registered in Hp. rewrite lookup_empty in Hp. discriminate.
    - vm_compute. reflexivity. }
  split; [vm_compute; reflexivity|].
  intros H.
  specialize (H "a/b" false "a" eq_refl (ancestor_parent "a/b" ltac:(discriminate))).
  vm_compute in H. discriminate.
Qed.

Lemma Sample_relativeOnly : relativeOnly Sample.CheckFilePath.
Proof.
  intros p H. unfold Sample.CheckFilePath in H.
  destruct (String.eqb p ""); [discriminate|].
  destruct (existsb (String.eqb "") (Elements.segments p)) eqn:E; [discriminate|].
  destruct p as [|c p]; [reflexivity|]. cbn [Str.headIs].
  cbn [Elements.segments] in E. destruct (Ascii.eqb c Str.slash); [|reflexivity].
  cbn in E. discriminate.
Qed.

Lemma size_enforcement_witness :
  let z := [Sample.sized "a" MaxZipFile ""; Sample.sized "b" 1 ""] in
  (exists st,
     checkFiles Sample.SimpleFold Sample.CheckFilePath checkStart z = Some st /\
     CheckedFiles.Valid (cf st) = ["a"; "b"] /\
     CheckedFiles.Err (cf st) = Some ErrTotalTooLarge) /\
  (exists st',
     checkFile Sample.SimpleFold Sample.CheckFilePath checkStart
       (Sample.sized "a" MaxZipFile "") = Some st' /\
     size st' = MaxZipFile /\ CheckedFiles.SizeError (cf st') = None) /\
  (exists st',
     checkFile Sample.SimpleFold Sample.CheckFilePath checkStart
       (Sample.sized "a" (MaxZipFile + 1) "") = Some st' /\
     size st' = 0%Z /\ CheckedFiles.SizeError (cf st') = Some ErrTotalTooLarge /\
     CheckedFiles.Valid (cf st') = ["a"]).
Proof.
  intros z. split; [|split].
  - destruct (proj2 (size_enforcement Sample.SimpleFold Sample.CheckFilePath)
                Sample_relativeOnly z) as (st & Hst & H).
    { unfold z.
      repeat (apply List.Forall_cons;
              [unfold uint64; split; [apply Z.leb_le | apply Z.ltb_lt]; reflexivity|]).
      apply List.Forall_nil. }
    exists st. split; [exact Hst|].
    vm_compute in Hst. injection Hst as <-.
    split; [reflexivity|].
    apply H; [reflexivity | vm_compute; reflexivity].
  - destruct (proj1 (size_enforcement Sample.SimpleFold Sample.CheckFilePath)
                checkStart (Sample.sized "a" MaxZipFile "")
                (<["a" := pathInfo.mk "a" false]> ∅))
      as (st' & Hst & _ & _ & _ & Hfit & _);
      [vm_compute; split; discriminate | reflexivity | reflexivity
      | vm_compute; reflexivity |].
    exists st'. split; [exact Hst|].
    destruct Hfit as [Hs He]; [vm_compute; split; discriminate|].
    split; [rewrite Hs; reflexivity | rewrite He; reflexivity].
  - destruct (proj1 (size_enforcement Sample.SimpleFold Sample.CheckFilePath)
                checkStart (Sample.sized "a" (MaxZipFile + 1) "")
                (<["a" := pathInfo.mk "a" false]> ∅))
      as (st' & Hst & _ & Hv & _ & _ & Hnofit);
      [vm_compute; split; discriminate | reflexivity | reflexivity
      | vm_compute; reflexivity |].
    exists st'. split; [exact Hst|].
    destruct Hnofit as [Hs He]; [vm_compute; intros [_ H]; apply H; reflexivity|].
    split; [rewrite Hs; reflexivity|]. split; [rewrite He; reflexivity|].
    rewrite Hv. reflexivity.
Defined.

Lemma valid_invalid_disjoint_witness :
  exists st,
    checkFiles Sample.SimpleFold Sample.CheckFilePath checkStart Sample.scenario = Some st /\
    forall p, ~ (In p (CheckedFiles.Valid (cf st)) /\ In p (invalidPaths (cf st))).
Proof.
  destruct (valid_invalid_disjoint Sample.SimpleFold Sample.CheckFilePath
              Sample_relativeOnly Sample.scenario) as (st & Hst & _ & H).
  exists st. split; [exact Hst|]. apply H.
  vm_compute. repeat constructor; simpl; intuition discriminate.
Defined.

(** C7, as stated, fails on an archive with two entries of the same name:
    the first one is valid, the second one is invalid, and the path is in
    both sequences. *)
Lemma valid_invalid_counterexample :
  exists st,
    checkFiles Sample.SimpleFold Sample.CheckFilePath checkStart
      [Sample.file "a" "x"; Sample.file "a" "y"] = Some st /\
    In "a" (CheckedFiles.Valid (cf st)) /\ In "a" (invalidPaths (cf st)).
Proof.
  eexists. split; [vm_compute; reflexivity|]. split; left; reflexivity.
Qed.

(** ** The calls of a run *)

Section Emits.

Context {A B : Type} (P : Event -> Prop).

Lemma emits_ret (a : A) : emits P (ret a).
Proof. intros h. exists []. rewrite app_nil_r. split; [reflexivity | constructor]. Qed.

Lemma emits_fail (e : error) : emits P (@fail A e).
Proof. intros h. exists []. rewrite app_nil_r. split; [reflexivity | constructor]. Qed.

Lemma emits_diverge : emits P (@diverge A).
Proof. intros h. exists []. rewrite app_nil_r. split; [reflexivity | constructor]. Qed.

Lemma emits_lift (r : result A) : emits P (lift r).
Proof. intros h. exists []. rewrite app_nil_r. split; [reflexivity | constructor]. Qed.

Lemma emits_bind (m : M A) (k : A -> M B) :
  emits P m -> (forall a, emits P (k a)) -> emits P (bind m k).
Proof.
  intros Hm Hk h. unfold bind. destruct (Hm h) as (evs & He & Hp).
  destruct (m h) as [h' [a| |]]; cbn [fst] in He; subst h'.
  - destruct (Hk a (h ++ evs)%list) as (evs' & He' & Hp').
    exists (evs ++ evs')%list. rewrite He', app_assoc.
    split; [reflexivity | now apply Forall_app].
  - exists evs. auto.
  - exists evs. auto.
Qed.

End Emits.

Lemma emits_emit (P : Event -> Prop) (e : Event) : P e -> emits P (emit e).
Proof. intros H h. exists [e]. split; [reflexivity | repeat constructor; exact H]. Qed.

Lemma emits_history (P : Event -> Prop) : emits P history.
Proof. intros h. exists []. rewrite app_nil_r. split; [reflexivity | constructor]. Qed.

Lemma emits_orFail (P : Event -> Prop) (o : option error) : emits P (orFail o).
Proof. destruct o; [apply emits_fail | apply emits_ret]. Qed.

Lemma emits_errOf (P : Event -> Prop) (m : M unit) : emits P m -> emits P (errOf m).
Proof.
  intros Hm h. unfold errOf. destruct (Hm h) as (evs & He & Hp).
  destruct (m h) as [h' [a| |]]; cbn [fst] in *; subst h'; exists evs; auto.
Qed.

Lemma emits_deferZipError (P : Event -> Prop) (verb path : string) (m : M unit) :
  emits P m -> emits P (deferZipError verb path m).
Proof.
  intros Hm h. unfold deferZipError. destruct (Hm h) as (evs & He & Hp).
  destruct (m h) as [h' [a| |]]; cbn [fst] in *; subst h'; exists evs; auto.
Qed.

Lemma emits_weaken {A} (P Q : Event -> Prop) (m : M A) :
  (forall e, P e -> Q e) -> emits P m -> emits Q m.
Proof.
  intros H Hm h. destruct (Hm h) as (evs & He & Hp). exists evs.
  split; [exact He|]. eapply Forall_impl; eauto.
Qed.

Section RunFacts.

Variable SimpleFold : Z -> Z.
Variable CheckFilePath : string -> option error.
Variable W : World.

Local Abbreviation checkFiles := (checkFiles SimpleFold CheckFilePath).
Local Abbreviation checkZip := (checkZip SimpleFold CheckFilePath).
Local Abbreviation mkdirAll := (mkdirAll W).
Local Abbreviation extract := (extract W).
Local Abbreviation extractAll := (extractAll W).
Local Abbreviation unzip := (unzip SimpleFold CheckFilePath W).
Local Abbreviation hashZip := (hashZip W).
Local Abbreviation run := (run SimpleFold CheckFilePath W).

(** The calls of [checkZip]: the test of the raw size, the decoding, the
    validation; it returns the entries only after a validation without
    error. *)
Lemma checkZip_shape (f : os.File) (h : list Event) :
  exists evs r,
    checkZip f h = ((h ++ evs)%list, r) /\
    ((exists z, r = Ok z /\ evs = [EvStat; EvNewReader; EvChecked None]) \/
     ((forall z, r <> Ok z) /\
      (evs = [EvStat] \/ evs = [EvStat; EvNewReader] \/
       exists e, evs = [EvStat; EvNewReader; EvChecked (Some e)]))).
Proof.
  unfold Main.checkZip, bind, emit, lift, orFail, ret, fail, diverge.
  destruct (os.Stat f) as [zipSize|e|].
  - destruct (MaxZipFile <? zipSize)%Z.
    + cbn. eexists _, _. split; [reflexivity|]. right. split; [discriminate | auto].
    + destruct (os.NewReader f) as [z|e|].
      * destruct (checkFiles checkStart z) as [st|].
        -- rewrite <- !app_assoc. cbn [app].
           destruct (CheckedFiles.Err (cf st)) as [e|];
             eexists _, _; (split; [reflexivity|]).
           ++ right. split; [discriminate | eauto].
           ++ left. eauto.
        -- rewrite <- !app_assoc. cbn [app].
           eexists _, _. split; [reflexivity|]. right. split; [discriminate | auto].
      * rewrite <- !app_assoc. cbn [app].
        eexists _, _. split; [reflexivity|]. right. split; [discriminate | auto].
      * rewrite <- !app_assoc. cbn [app].
        eexists _, _. split; [reflexivity|]. right. split; [discriminate | auto].
  - eexists _, _. split; [reflexivity|]. right. split; [discriminate | auto].
  - eexists _, _. split; [reflexivity|]. right. split; [discriminate | auto].
Qed.

Lemma emits_mkdirAll (dir : string) : emits extracting (mkdirAll dir).
Proof.
  unfold Main.mkdirAll. apply emits_bind; [apply emits_history|]. intros h.
  apply emits_bind; [now apply emits_emit|]. intros _. apply emits_orFail.
Qed.

Lemma emits_extract (dir name : string) (zf : zip.File) :
  emits extracting (extract dir name zf).
Proof.
  unfold Main.extract.
  apply emits_bind; [apply emits_mkdirAll|]. intros _.
  apply emits_bind.
  { unfold openFile. apply emits_bind; [apply emits_history|]. intros h.
    apply emits_bind; [now apply emits_emit|]. intros _. apply emits_orFail. }
  intros _. apply emits_bind; [now apply emits_emit|]. intros _.
  assert (forall dst, emits extracting (close W dst)) as Hclose.
  { intros dst. unfold close. apply emits_bind; [apply emits_history|]. intros h.
    apply emits_bind; [now apply emits_emit|]. intros _. apply emits_orFail. }
  destruct (zip.Open zf) as [r|e|].
  - destruct (limited _ r) as [[data rerr] n].
    apply emits_bind.
    { apply emits_errOf. unfold copy. destruct (String.eqb data ""); [apply emits_ret|].
      apply emits_bind; [apply emits_history|]. intros h.
      apply emits_bind; [now apply emits_emit|]. intros _. apply emits_orFail. }
    intros werr. destruct (match werr with Some e => Some e | None => rerr end).
    + apply emits_bind; [apply emits_errOf, Hclose|]. intros _. apply emits_fail.
    + apply emits_bind; [apply Hclose|]. intros _.
      destruct (n <=? 0)%Z; [apply emits_fail | apply emits_ret].
  - apply emits_bind; [apply emits_errOf, Hclose|]. intros _. apply emits_fail.
  - apply emits_diverge.
Qed.

Lemma emits_extractAll (dir prefix : string) (z : list zip.File) :
  forall prefixMatched, emits extracting (extractAll dir prefix z prefixMatched).
Proof.
  induction z as [|zf z IH]; intros pm; cbn [Main.extractAll]; [apply emits_ret|].
  destruct (_ || _); [apply IH|].
  destruct (negb (String.eqb prefix "")).
  - destruct (negb _); [apply IH|].
    apply emits_bind; [apply emits_extract | intros _; apply IH].
  - apply emits_bind; [apply emits_extract | intros _; apply IH].
Qed.

Lemma inOrder_app (l1 l2 : list Event) :
  inOrder l1 -> inOrder l2 ->
  (forall a b, In a l1 -> In b l2 -> (phase a <= phase b)%nat) ->
  inOrder (l1 ++ l2)%list.
Proof.
  unfold inOrder. intros H1 H2 H. induction H1 as [|a l1 H1 IH Ha]; [exact H2|].
  cbn [app]. constructor.
  - apply IH. intros x y Hx Hy. apply H; [now right | exact Hy].
  - apply Forall_app. split; [exact Ha|].
    apply List.Forall_forall. intros b Hb. apply H; [now left | exact Hb].
Qed.

Lemma inOrder_extracting (l : list Event) : Forall extracting l -> inOrder l.
Proof.
  unfold inOrder, extracting. induction 1 as [|a l Ha Hl IH]; constructor; [exact IH|].
  eapply List.Forall_impl; [|exact Hl]. cbn. intros b Hb. lia.
Qed.

Lemma validated_then_extracting (dir zipFile : string) (ext : list Event) :
  Forall extracting ext ->
  let evs := ([EvReadDir dir; EvOpen zipFile; EvStat; EvNewReader; EvChecked None]
                ++ ext)%list in
  inOrder evs /\ Forall (fun e => (2 <= phase e)%nat) evs.
Proof.
  intros Hp evs. split.
  - apply inOrder_app; [repeat constructor | now apply inOrder_extracting|].
    intros a b Ha Hb. rewrite List.Forall_forall in Hp. rewrite (Hp b Hb).
    cbn in Ha. intuition (subst; cbn; lia).
  - apply Forall_app. split; [repeat constructor|].
    eapply List.Forall_impl; [|exact Hp]. unfold extracting. intros; cbn in *; lia.
Qed.

(** The calls of [unzip] come in the order of the steps, and a call of the
    extraction is made only after a validation without error. *)
Lemma unzip_shape (dir zipFile prefix : string) (h : list Event) :
  exists evs r,
    unzip dir zipFile prefix h = ((h ++ evs)%list, r) /\
    inOrder evs /\
    Forall (fun e => (2 <= phase e)%nat) evs /\
    ((exists ext f z,
        evs = ([EvReadDir dir; EvOpen zipFile; EvStat; EvNewReader; EvChecked None]
                 ++ ext)%list /\
        Forall extracting ext /\
        OsOpen W zipFile = Ok f /\
        snd (checkZip f (h ++ [EvReadDir dir; EvOpen zipFile])%list) = Ok z) \/
     (Forall (fun e => (phase e < 7)%nat) evs /\ r <> Ok tt /\
      (In (EvChecked None) evs -> False))).
Proof.
  unfold Main.unzip, deferZipError.
  unfold bind at 1. unfold emit at 1.
  destruct (0 <? ReadDir W dir)%nat.
  { cbn. exists [EvReadDir dir], (Fail (zipError "unzip" zipFile (ErrTargetNotEmpty dir))).
    split; [reflexivity|]. split; [repeat constructor|].
    split; [repeat constructor|]. right.
    split; [repeat constructor|]. split; [discriminate|].
    cbn. intuition discriminate. }
  unfold bind at 1. unfold emit at 1. unfold bind at 1. unfold lift at 1.
  destruct (OsOpen W zipFile) as [f|e|] eqn:Hopen.
  2,3: rewrite <- app_assoc; cbn [app]; eexists _, _;
       (split; [reflexivity|]); (split; [repeat constructor|]);
       (split; [repeat constructor|]); right;
       (split; [repeat constructor|]); (split; [discriminate|]);
       cbn; intuition discriminate.
  unfold bind at 1.
  destruct (checkZip_shape f ((h ++ [EvReadDir dir]) ++ [EvOpen zipFile])%list)
    as (cz & r & Hcz & Hshape).
  rewrite Hcz. destruct Hshape as [(z & -> & ->) | (Hno & Hcases)].
  - destruct (emits_bind extracting _ (fun _ => extractAll dir prefix z false)
                (emits_mkdirAll dir)
                (fun _ => emits_extractAll dir prefix z false)
                (((h ++ [EvReadDir dir]) ++ [EvOpen zipFile])
                   ++ [EvStat; EvNewReader; EvChecked None])%list)
      as (ext & Hext & Hp).
    destruct (validated_then_extracting dir zipFile ext Hp) as [Ho Hge].
    assert (snd (checkZip f (h ++ [EvReadDir dir; EvOpen zipFile])%list) = Ok z) as Hz.
    { replace (h ++ [EvReadDir dir; EvOpen zipFile])%list
        with ((h ++ [EvReadDir dir]) ++ [EvOpen zipFile])%list
        by (now rewrite <- app_assoc).
      now rewrite Hcz. }
    exists ([EvReadDir dir; EvOpen zipFile; EvStat; EvNewReader; EvChecked None] ++ ext)%list.
    unfold bind at 1 in Hext.
    unfold bind at 1.
    destruct (Main.mkdirAll W dir _) as [h1 [[]|e|]] eqn:Hm.
    + unfold bind at 1.
      destruct (Main.extractAll W dir prefix z false h1) as [h2 r2] eqn:Hx.
      cbn [fst] in Hext. subst h2.
      rewrite <- !app_assoc. cbn [app].
      destruct r2 as [pm|e|]; [destruct (_ && _)|..];
        (eexists; split; [reflexivity|]); (split; [exact Ho|]);
        (split; [exact Hge|]); left; exists ext, f, z; auto.
    + cbn [fst] in Hext. subst h1. rewrite <- !app_assoc. cbn [app].
      eexists; split; [reflexivity|]. split; [exact Ho|].
      split; [exact Hge|]. left; exists ext, f, z; auto.
    + cbn [fst] in Hext. subst h1. rewrite <- !app_assoc. cbn [app].
      eexists; split; [reflexivity|]. split; [exact Ho|].
      split; [exact Hge|]. left; exists ext, f, z; auto.
  - exists ([EvReadDir dir; EvOpen zipFile] ++ cz)%list.
    exists (match r with Fail e => Fail (zipError "unzip" zipFile e) | Ok _ => Diverges | Diverges => Diverges end).
    split.
    { rewrite <- !app_assoc. cbn [app].
      destruct r as [z|e|]; [exfalso; eapply Hno; reflexivity | reflexivity..]. }
    destruct Hcases as [-> | [-> | [e ->]]]; cbn [app];
      (split; [repeat constructor|]); (split; [repeat constructor|]); right;
      (split; [repeat constructor|]);
      (split; [destruct r; discriminate|]); cbn; intuition discriminate.
Qed.

(** C10. When the validation inside [unzip] fails, [unzip] returns the
    error of [checkZip] (inside the [zipError] of its deferred function) and
    has made no call that changes the file system: the target directory is
    not created and nothing is written.  In any run of [unzip], a call that
    changes the file system comes after a [checkZip] that returned no
    error. *)
Theorem unzip_validation_failure (dir zipFile prefix : string) (h : list Event) :
  (forall f h1 e,
     ReadDir W dir = 0%nat -> OsOpen W zipFile = Ok f ->
     checkZip f (h ++ [EvReadDir dir; EvOpen zipFile])%list = (h1, Fail e) ->
     unzip dir zipFile prefix h = (h1, Fail (zipError "unzip" zipFile e)) /\
     Unwrap (zipError "unzip" zipFile e) = Some e /\
     exists evs, h1 = (h ++ evs)%list /\ Forall (fun x => writes x = false) evs) /\
  (exists evs r,
     unzip dir zipFile prefix h = ((h ++ evs)%list, r) /\
     forall x, In x evs -> writes x = true ->
       exists f z, OsOpen W zipFile = Ok f /\
                   snd (checkZip f (h ++ [EvReadDir dir; EvOpen zipFile])%list) = Ok z).
Proof.
  split.
  - intros f h1 e Hdir Hopen Hcz.
    destruct (checkZip_shape f (h ++ [EvReadDir dir; EvOpen zipFile])%list)
      as (cz & r & Hcz' & Hshape).
    rewrite Hcz in Hcz'. inversion Hcz'; subst h1 r. clear Hcz'.
    split; [|split; [reflexivity|]].
    + unfold Main.unzip, deferZipError, bind at 1, emit at 1.
      rewrite Hdir. cbn [Nat.ltb Nat.leb].
      unfold bind at 1, emit at 1, bind at 1, lift at 1. rewrite Hopen.
      unfold bind at 1. rewrite <- app_assoc. cbn [app]. rewrite Hcz. reflexivity.
    + exists ([EvReadDir dir; EvOpen zipFile] ++ cz)%list.
      split; [now rewrite app_assoc|].
      destruct Hshape as [(z & Hz & _) | (_ & [-> | [-> | [e' ->]]])];
        [discriminate | repeat constructor..].
  - destruct (unzip_shape dir zipFile prefix h) as (evs & r & Hrun & _ & _ & Hcases).
    exists evs, r. split; [exact Hrun|].
    intros x Hx Hw. destruct Hcases as [(ext & f & z & _ & _ & Hopen & Hz) | (Hlt & _ & _)].
    + eauto.
    + rewrite List.Forall_forall in Hlt. specialize (Hlt x Hx).
      destruct x; cbn in *; try discriminate; lia.
Qed.

Lemma hashZip_run (zipFile : string) (h : list Event) :
  hashZip zipFile h = ((h ++ [EvHashZip zipFile])%list, dirhash.HashZip W zipFile).
Proof. reflexivity. Qed.

(** C9 (amended).  The calls of an invocation come in the order of the
    steps: the fingerprint is computed first and, when an expected
    fingerprint is given, compared with it at once; only when the two are
    equal does [unzip] run, and it tests the target, opens the zip, tests
    its raw size, decodes it and validates it, in that order, before it
    extracts.  Extraction, and the printing of the fingerprint, come only
    after a validation without error. *)
Theorem run_order (args : list string) :
  exists tr r,
    run args [] = (tr, r) /\
    inOrder tr /\
    (forall e, In e tr -> (2 <= phase e)%nat -> length args <> 1%nat ->
       dirhash.HashZip W (nth 0 args "") = Ok (nth 1 args "") /\
       exists rest,
         tr = EvHashZip (nth 0 args "")
              :: EvCompareHash (nth 1 args "") (nth 1 args "") :: rest) /\
    (forall e, In e tr -> phase e = 7%nat ->
       exists l1 l2,
         tr = (l1 ++ [EvStat; EvNewReader; EvChecked None] ++ l2)%list /\ In e l2).
Proof.
  unfold Main.run.
  destruct (_ && _) eqn:Hn.
  { exists [], (Fail ErrUsage). split; [reflexivity|]. split; [constructor|].
    split; intros e []. }
  unfold bind at 1. rewrite hashZip_run. cbn [app].
  destruct (dirhash.HashZip W (nth 0 args "")) as [hash|e|] eqn:Hh.
  2,3: eexists _, _; (split; [reflexivity|]); (split; [repeat constructor|]);
       split; intros x [<-|[]]; cbn; intros; try lia; discriminate.
  destruct (length args =? 1)%nat eqn:H1.
  - (* the fingerprint alone *)
    apply Nat.eqb_eq in H1.
    unfold bind at 1, emit at 1. unfold bind at 1, lift at 1. cbn [app].
    destruct (OsOpen W (nth 0 args "")) as [f|e|].
    2,3: eexists _, _; (split; [reflexivity|]); (split; [repeat constructor|]);
         split; intros x [<-|[<-|[]]]; cbn; intros; try lia; discriminate.
    unfold bind at 1.
    destruct (checkZip_shape f [EvHashZip (nth 0 args ""); EvOpen (nth 0 args "")])
      as (cz & r & Hcz & Hshape).
    rewrite Hcz. destruct Hshape as [(z & -> & ->) | (Hno & Hcases)].
    + cbn. eexists _, _. split; [reflexivity|]. split; [repeat constructor|].
      split; [intros; lia|].
      intros x Hx Hp.
      exists [EvHashZip (nth 0 args ""); EvOpen (nth 0 args "")], [EvPrintln hash].
      split; [reflexivity|].
      cbn in Hx. destruct Hx as [<-|[<-|[<-|[<-|[<-|[<-|[]]]]]]]; try discriminate.
      now left.
    + exists ([EvHashZip (nth 0 args ""); EvOpen (nth 0 args "")] ++ cz)%list.
      exists (match r with Fail e => Fail e | _ => Diverges end).
      split; [destruct r as [z|e|]; [exfalso; eapply Hno; reflexivity | reflexivity..]|].
      destruct Hcases as [-> | [-> | [e ->]]]; cbn [app];
        (split; [repeat constructor|]); (split; [intros; lia|]);
        intros x Hx Hp; cbn in Hx;
        repeat (destruct Hx as [<-|Hx]; [discriminate|]); destruct Hx.
  - (* with an expected fingerprint *)
    apply Nat.eqb_neq in H1.
    unfold bind at 1, emit at 1. cbn [app].
    destruct (String.eqb_spec hash (nth 1 args "")) as [Heq|Hne]; cbn [negb].
    + subst hash.
      destruct (unzip_shape (nth 2 args "") (nth 0 args "")
                  (if (length args =? 4)%nat then nth 3 args "" else "")
                  [EvHashZip (nth 0 args ""); EvCompareHash (nth 1 args "") (nth 1 args "")])
        as (evs & r & Hrun & Ho & Hge & Hcases).
      rewrite Hrun. eexists _, _. split; [reflexivity|]. cbn [app].
      split.
      { change (EvHashZip (nth 0 args "") :: EvCompareHash (nth 1 args "") (nth 1 args "") :: evs)
          with ([EvHashZip (nth 0 args ""); EvCompareHash (nth 1 args "") (nth 1 args "")] ++ evs)%list.
        apply inOrder_app; [repeat constructor | exact Ho|].
        intros a b Ha Hb. rewrite List.Forall_forall in Hge. specialize (Hge b Hb).
        cbn in Ha. intuition (subst; cbn; lia). }
      split; [intros; split; [reflexivity | eauto]|].
      intros x Hx Hp. destruct Hx as [<-|[<-|Hx]]; try discriminate.
      destruct Hcases as [(ext & f & z & -> & Hext & _) | (Hlt & _)].
      * exists [EvHashZip (nth 0 args ""); EvCompareHash (nth 1 args "") (nth 1 args "");
                EvReadDir (nth 2 args ""); EvOpen (nth 0 args "")], ext.
        split; [reflexivity|].
        cbn in Hx. repeat (destruct Hx as [<-|Hx]; [discriminate|]). exact Hx.
      * rewrite List.Forall_forall in Hlt. specialize (Hlt x Hx). lia.
    + eexists _, _. split; [reflexivity|]. split; [repeat constructor|].
      split; intros x [<-|[<-|[]]]; cbn; intros; try lia; discriminate.
Qed.

End RunFacts.

(** C9, as stated, fails: with an expected fingerprint, the comparison is
    made before the zip is validated.  On the archive of the scenario and
    with its fingerprint, the comparison is the second call, and the test of
    the raw size, the decoding and the validation all come after it. *)
Lemma compare_before_validation :
  let hash := "h1:JekT5fRrO3oztIo1nAmJ99q/+/D4RuyASHq3wVC+4ps=" in
  exists l2,
    fst (run Sample.SimpleFold Sample.CheckFilePath (Sample.world 100 Sample.scenario)
             ["some.zip"; hash; "out"] [])
    = ([EvHashZip "some.zip"] ++ EvCompareHash hash hash :: l2)%list /\
    In EvStat l2 /\ In EvNewReader l2 /\ In (EvChecked None) l2.
Proof.
  intros hash. eexists. split; [vm_compute; reflexivity|].
  cbn. tauto.
Qed.

Lemma run_order_witness :
  let hash := "h1:JekT5fRrO3oztIo1nAmJ99q/+/D4RuyASHq3wVC+4ps=" in
  let args := ["some.zip"; hash; "out"; "a"] in
  let tr := fst (run Sample.SimpleFold Sample.CheckFilePath
                     (Sample.world 100 Sample.scenario) args []) in
  inOrder tr /\
  exists l1 l2,
    tr = (l1 ++ [EvStat; EvNewReader; EvChecked None] ++ l2)%list /\
    In (EvCopy "out/b.txt" "hi") l2.
Proof.
  intros hash args tr.
  destruct (run_order Sample.SimpleFold Sample.CheckFilePath
              (Sample.world 100 Sample.scenario) args) as (tr' & r & Hrun & Ho & _ & Hx).
  assert (tr' = tr) as -> by (unfold tr; now rewrite Hrun).
  split; [exact Ho|].
  apply Hx; [vm_compute; tauto | reflexivity].
Defined.

Lemma unzip_validation_failure_witness :
  let W := Sample.world 100 [Sample.file "a" "x"; Sample.file "A" "y"] in
  exists e,
    unzip Sample.SimpleFold Sample.CheckFilePath W "out" "some.zip" "" []
    = ([EvReadDir "out"; EvOpen "some.zip"; EvStat; EvNewReader; EvChecked (Some e)],
       Fail (zipError "unzip" "some.zip" e)) /\
    e = FileErrorList [mkFileError "A" (ErrCollision "a" "A")].
Proof.
  intros W. eexists. split; [|reflexivity].
  apply (proj1 (unzip_validation_failure Sample.SimpleFold Sample.CheckFilePath W
                  "out" "some.zip" "" [])
           (os.mkFile (Ok 100%Z) (Ok [Sample.file "a" "x"; Sample.file "A" "y"])));
    [reflexivity | reflexivity | vm_compute; reflexivity].
Defined.

(** ** Extraction of an entry *)

Lemma substring_all (s : string) : String.substring 0 (String.length s) s = s.
Proof. induction s as [|c s IH]; cbn; [reflexivity | now rewrite IH]. Qed.

Lemma substring_length (n : nat) (s : string) :
  (n <= String.length s)%nat -> String.length (String.substring 0 n s) = n.
Proof.
  revert n. induction s as [|c s IH]; intros [|n] H; cbn in *; try reflexivity; try lia.
  rewrite IH; lia.
Qed.

(** What goes through the [io.LimitedReader]: a prefix of the stream of at
    most [n] bytes, all of the stream when it is shorter than [n]. *)
Lemma limited_spec (n : Z) (r : zip.Reader) :
  (0 < n)%Z ->
  let len := Z.of_nat (String.length (zip.Bytes r)) in
  let '(data, rerr, n') := limited n r in
  data = String.substring 0 (Z.to_nat (Z.min len n)) (zip.Bytes r) /\
  Z.of_nat (String.length data) = Z.min len n /\
  n' = (n - Z.min len n)%Z /\
  rerr = if (len <? n)%Z then zip.End_ r else None.
Proof.
  intros Hn len. unfold limited.
  destruct (Z.leb_spec n 0) as [H0|_]; [lia|]. fold len.
  destruct (Z.ltb_spec len n) as [Hlt|Hge].
  - rewrite Z.min_l by lia. unfold len. rewrite Nat2Z.id, substring_all.
    repeat split; lia.
  - rewrite Z.min_r by lia. rewrite substring_length by lia.
    repeat split; lia.
Qed.

Section ExtractFacts.

Variable SimpleFold : Z -> Z.
Variable CheckFilePath : string -> option error.
Variable W : World.

Local Abbreviation checkFiles := (checkFiles SimpleFold CheckFilePath).
Local Abbreviation extract := (extract W).

(** After a validation without error every file entry declares a size
    within the budget. *)
Lemma validated_sizes (z : list zip.File) :
  forall st st', checkFiles st z = Some st' -> sizeOk st ->
    CheckedFiles.SizeError (cf st') = None ->
    forall zf, In zf z -> entryIsDir zf = false ->
      invalidPaths (cf st') = invalidPaths (cf st) ->
      uint64 (zip.UncompressedSize64 zf) ->
      (0 <= zip.UncompressedSize64 zf <= MaxZipFile)%Z.
Proof.
  induction z as [|zf0 z IH]; intros st st' H Hok Herr zf Hin Hd Hinv Hu; [destruct Hin|].
  cbn [Main.checkFiles] in H.
  destruct (Main.checkFile SimpleFold CheckFilePath st zf0) as [st1|] eqn:H1; [|discriminate].
  destruct (checkFile_effect SimpleFold CheckFilePath _ _ _ H1 Hok) as (Hok1 & He1 & Hstep).
  destruct (checkFiles_effect SimpleFold CheckFilePath _ _ _ H Hok1)
    as (_ & He & V & I & _ & HI & _).
  assert (CheckedFiles.SizeError (cf st1) = None) as Herr1
      by (destruct He as [He | [He _]]; congruence).
  assert (invalidPaths (cf st1) = invalidPaths (cf st) /\ I = []) as [Hinv1 HI0].
  { destruct Hstep as [(_ & Hb & _) | [(_ & _ & Hb & _) | (_ & _ & Hb & _)]].
    - rewrite Hb, <- app_assoc in HI. rewrite Hinv in HI.
      apply (f_equal (@length string)) in HI. rewrite !length_app in HI. cbn in HI. lia.
    - rewrite Hb in HI. rewrite Hinv in HI. split; [exact Hb|].
      apply (f_equal (@length string)) in HI. rewrite !length_app in HI.
      destruct I; [reflexivity | cbn in HI; lia].
    - rewrite Hb in HI. rewrite Hinv in HI. split; [exact Hb|].
      apply (f_equal (@length string)) in HI. rewrite !length_app in HI.
      destruct I; [reflexivity | cbn in HI; lia]. }
  destruct Hin as [->|Hin].
  - destruct Hstep as [(_ & Hb & _) | [(Hd' & _) | (_ & _ & _ & Hs)]].
    + rewrite Hinv1 in Hb. apply (f_equal (@length string)) in Hb.
      rewrite length_app in Hb. cbn in Hb. lia.
    + congruence.
    + destruct (Hs Herr1) as [H0 Hsz].
      pose proof (int64_uint64 _ Hu H0) as Hi. unfold sizeOk in *.
      lia.
  - eapply (IH st1 st'); eauto. rewrite HI, HI0, app_nil_r. reflexivity.
Qed.

(** An entry written without failure of the file system: the calls, and
    the result, which is decided by what went through the limited reader. *)
Lemma extract_run (dir name : string) (zf : zip.File) (r : zip.Reader) (h : list Event) :
  noFailure W -> zip.Open zf = Ok r ->
  let dst := Join dir name in
  let '(data, rerr, n') :=
    limited (int64 (int64 (zip.UncompressedSize64 zf) + 1)) r in
  extract dir name zf h
  = ((h ++ [EvMkdirAll (Path.Dir dst); EvOpenFile dst; EvZipOpen (zip.Name zf)]
        ++ (if String.eqb data "" then [] else [EvCopy dst data])
        ++ [EvClose dst])%list,
     match rerr with
     | Some e => Fail e
     | None =>
         if (n' <=? 0)%Z
         then Fail (ErrDeclaredSize (zip.Name zf) (zip.UncompressedSize64 zf))
         else Ok tt
     end).
Proof.
  intros Hnf Hopen dst.
  destruct (limited _ r) as [[data rerr] n'] eqn:Hl.
  unfold Main.extract. fold dst. rewrite Hopen, Hl.
  unfold mkdirAll, openFile, copy, close, bind, history, emit, orFail, errOf, ret, fail.
  destruct (Hnf h (Path.Dir dst)) as (-> & _).
  destruct (Hnf (h ++ [EvMkdirAll (Path.Dir dst)])%list dst) as (_ & -> & _).
  destruct (String.eqb data "").
  - destruct rerr as [e|].
    + destruct (Hnf (((h ++ [EvMkdirAll (Path.Dir dst)]) ++ [EvOpenFile dst]) ++
                     [EvZipOpen (zip.Name zf)])%list dst) as (_ & _ & _ & ->).
      rewrite <- !app_assoc. reflexivity.
    + destruct (Hnf (((h ++ [EvMkdirAll (Path.Dir dst)]) ++ [EvOpenFile dst]) ++
                     [EvZipOpen (zip.Name zf)])%list dst) as (_ & _ & _ & ->).
      rewrite <- !app_assoc. destruct (n' <=? 0)%Z; reflexivity.
  - destruct (Hnf (((h ++ [EvMkdirAll (Path.Dir dst)]) ++ [EvOpenFile dst]) ++
                   [EvZipOpen (zip.Name zf)])%list dst) as (_ & _ & -> & _).
    destruct rerr as [e|].
    + destruct (Hnf ((((h ++ [EvMkdirAll (Path.Dir dst)]) ++ [EvOpenFile dst]) ++
                      [EvZipOpen (zip.Name zf)]) ++ [EvCopy dst data])%list dst)
        as (_ & _ & _ & ->).
      rewrite <- !app_assoc. reflexivity.
    + destruct (Hnf ((((h ++ [EvMkdirAll (Path.Dir dst)]) ++ [EvOpenFile dst]) ++
                      [EvZipOpen (zip.Name zf)]) ++ [EvCopy dst data])%list dst)
        as (_ & _ & _ & ->).
      rewrite <- !app_assoc. destruct (n' <=? 0)%Z; reflexivity.
Qed.


End ExtractFacts.

Lemma Sample_noFailure (zipSize : Z) (z : list zip.File) : noFailure (Sample.world zipSize z).
Proof. intros h p. repeat split. Qed.



(** ** The fingerprint *)

Section SortByPath.

Context {A : Type}.

Local Abbreviation byPath := (fun x y : string * A => String.leb (fst x) (fst y) = true).

Lemma leb_trans (a b c : string) :
  String.leb a b = true -> String.leb b c = true -> String.leb a c = true.
Proof.
  intros H1 H2. apply Is_true_true. apply Is_true_true in H1, H2.
  exact (@transitivity _ String.le _ a b c H1 H2).
Qed.

Lemma insert_perm (x : string * A) (l : list (string * A)) :
  Permutation (x :: l) (dirhash.insert x l).
Proof.
  induction l as [|y l IH]; cbn [dirhash.insert]; [reflexivity|].
  destruct (String.leb (fst x) (fst y)); [reflexivity|].
  rewrite perm_swap. now apply perm_skip.
Qed.

Lemma sortByPath_perm (l : list (string * A)) : Permutation l (dirhash.sortByPath l).
Proof.
  induction l as [|x l IH]; cbn [dirhash.sortByPath]; [reflexivity|].
  rewrite <- insert_perm. now apply perm_skip.
Qed.

Lemma insert_sorted (x : string * A) (l : list (string * A)) :
  StronglySorted byPath l -> StronglySorted byPath (dirhash.insert x l).
Proof.
  induction 1 as [|y l Hl IH Hy]; cbn [dirhash.insert]; [repeat constructor|].
  destruct (String.leb (fst x) (fst y)) eqn:E.
  - constructor; [now constructor|]. constructor; [exact E|].
    eapply List.Forall_impl; [|exact Hy]. cbn. intros z Hz. eapply leb_trans; eauto.
  - constructor; [exact IH|].
    assert (String.leb (fst y) (fst x) = true) as Hyx
        by (destruct (String.leb_total (fst x) (fst y)); congruence).
    rewrite List.Forall_forall in *. intros z Hz.
    apply (Permutation_in _ (Permutation_sym (insert_perm x l))) in Hz.
    destruct Hz as [<-|Hz]; auto.
Qed.

Lemma sortByPath_sorted (l : list (string * A)) :
  StronglySorted byPath (dirhash.sortByPath l).
Proof.
  induction l as [|x l IH]; cbn [dirhash.sortByPath]; [constructor|].
  now apply insert_sorted.
Qed.

(** Two sorted arrangements of the same entries are equal when no two
    different entries have the same path. *)
Lemma sorted_unique (l1 l2 : list (string * A)) :
  Permutation l1 l2 ->
  StronglySorted byPath l1 -> StronglySorted byPath l2 ->
  (forall x y, In x l1 -> In y l1 -> fst x = fst y -> x = y) ->
  l1 = l2.
Proof.
  revert l2. induction l1 as [|a l1 IH]; intros l2 Hp H1 H2 Hinj.
  - now apply Permutation_nil in Hp.
  - destruct l2 as [|b l2]; [apply Permutation_sym, Permutation_nil in Hp; discriminate|].
    inversion H1 as [|? ? H1' Ha]; subst. inversion H2 as [|? ? H2' Hb]; subst.
    assert (a = b) as <-.
    { assert (In b (a :: l1)) as Hbin
          by (eapply Permutation_in; [apply Permutation_sym; exact Hp | now left]).
      assert (In a (b :: l2)) as Hain
          by (eapply Permutation_in; [exact Hp | now left]).
      destruct Hbin as [->|Hbin]; [reflexivity|].
      destruct Hain as [->|Hain]; [reflexivity|].
      rewrite List.Forall_forall in Ha, Hb.
      apply Hinj; [now left | now right|].
      apply String.leb_antisym; [now apply Ha | now apply Hb]. }
    f_equal. apply IH; auto.
    + eapply Permutation_cons_inv; eauto.
    + intros x y Hx Hy. apply Hinj; now right.
Qed.

Lemma sortByPath_unique (l1 l2 : list (string * A)) :
  Permutation l1 l2 ->
  (forall x y, In x l1 -> In y l1 -> fst x = fst y -> x = y) ->
  dirhash.sortByPath l1 = dirhash.sortByPath l2.
Proof.
  intros Hp Hinj. apply sorted_unique.
  - rewrite <- (sortByPath_perm l1), <- (sortByPath_perm l2). exact Hp.
  - apply sortByPath_sorted.
  - apply sortByPath_sorted.
  - intros x y Hx Hy. apply Hinj; eapply Permutation_in;
      try (apply Permutation_sym, sortByPath_perm); assumption.
Qed.

End SortByPath.

Lemma summary_ok (l : list (string * string)) :
  dirhash.summary (map (fun e => (fst e, Ok (snd e))) l)
  = Ok (String.concat "" (map (fun e => dirhash.line (fst e) (snd e)) l)).
Proof.
  induction l as [|[p c] l IH]; [reflexivity|].
  cbn [map dirhash.summary fst snd]. rewrite IH.
  destruct l as [|e l]; [|reflexivity].
  cbn. f_equal. clear. induction (dirhash.line p c) as [|a s IH]; [reflexivity|].
  now rewrite PathFacts.app_cons, IH.
Qed.

Lemma insert_map {A B : Type} (f : A -> B) (x : string * A) (l : list (string * A)) :
  dirhash.insert (fst x, f (snd x)) (map (fun e => (fst e, f (snd e))) l)
  = map (fun e => (fst e, f (snd e))) (dirhash.insert x l).
Proof.
  induction l as [|y l IH]; [reflexivity|].
  cbn [map dirhash.insert fst]. destruct (String.leb (fst x) (fst y)); [reflexivity|].
  cbn [map]. now rewrite IH.
Qed.

Lemma sortByPath_map {A B : Type} (f : A -> B) (l : list (string * A)) :
  dirhash.sortByPath (map (fun e => (fst e, f (snd e))) l)
  = map (fun e => (fst e, f (snd e))) (dirhash.sortByPath l).
Proof.
  induction l as [|x l IH]; [reflexivity|].
  cbn [map dirhash.sortByPath]. now rewrite IH, insert_map.
Qed.

(** C1 (amended).  The fingerprint is ["h1:"] followed by the base64 text of
    the SHA-256 of the digest lines of the file entries, sorted by path.  It
    depends on the (path, content) pairs of the file entries alone, not on
    the compression method or the other fields of the entries, and it does
    not depend on their order provided that no path comes with two different
    contents. *)
Theorem fingerprint_order_independent :
  (forall (z : list zip.File) (l : list (string * string)),
     dirhash.files z = map (fun e => (fst e, Ok (snd e))) l ->
     exists sorted,
       Permutation l sorted /\
       StronglySorted (fun x y => String.leb (fst x) (fst y) = true) sorted /\
       dirhash.Hash1 (dirhash.files z)
       = Ok ("h1:" ++ Base64.EncodeToString
                        (Sha256.Sum256
                           (String.concat ""
                              (map (fun e => dirhash.line (fst e) (snd e)) sorted))))) /\
  (forall z1 z2 : list zip.File,
     Permutation (dirhash.files z1) (dirhash.files z2) ->
     (forall x y, In x (dirhash.files z1) -> In y (dirhash.files z1) ->
                  fst x = fst y -> x = y) ->
     dirhash.Hash1 (dirhash.files z1) = dirhash.Hash1 (dirhash.files z2) /\
     forall W1 W2 zip1 zip2 f1 f2,
       OsOpen W1 zip1 = Ok f1 -> os.NewReader f1 = Ok z1 ->
       OsOpen W2 zip2 = Ok f2 -> os.NewReader f2 = Ok z2 ->
       dirhash.HashZip W1 zip1 = dirhash.HashZip W2 zip2).
Proof.
  split.
  - intros z l ->. exists (dirhash.sortByPath l).
    split; [apply sortByPath_perm|]. split; [apply sortByPath_sorted|].
    unfold dirhash.Hash1.
    rewrite (sortByPath_map (fun c => Ok c) l), summary_ok. reflexivity.
  - intros z1 z2 Hp Hinj.
    assert (dirhash.Hash1 (dirhash.files z1) = dirhash.Hash1 (dirhash.files z2)) as H.
    { unfold dirhash.Hash1. now rewrite (sortByPath_unique _ _ Hp Hinj). }
    split; [exact H|].
    intros W1 W2 zip1 zip2 f1 f2 H1 H1' H2 H2'. unfold dirhash.HashZip.
    now rewrite H1, H1', H2, H2'.
Qed.

Lemma fingerprint_order_independent_witness :
  let z1 := [Sample.file "b" "y"; Sample.directory "a/"; Sample.file "a/b.txt" "hi"] in
  let z2 := [ {| zip.Name := "a/b.txt"; zip.Method := 0; zip.UncompressedSize64 := 2;
                 zip.Open := Ok (zip.mkReader "hi" None) |};
              Sample.file "b" "y" ] in
  dirhash.Hash1 (dirhash.files z1) = dirhash.Hash1 (dirhash.files z2) /\
  exists sorted,
    Permutation [("b", "y"); ("a/b.txt", "hi")] sorted /\
    dirhash.Hash1 (dirhash.files z1)
    = Ok ("h1:" ++ Base64.EncodeToString
                     (Sha256.Sum256
                        (String.concat ""
                           (map (fun e => dirhash.line (fst e) (snd e)) sorted)))).
Proof.
  intros z1 z2. split.
  - apply (proj2 fingerprint_order_independent z1 z2).
    + vm_compute. apply perm_swap.
    + intros x y Hx Hy. vm_compute in Hx, Hy.
      destruct Hx as [<-|[<-|[]]]; destruct Hy as [<-|[<-|[]]];
        intros H; try reflexivity; discriminate.
  - destruct (proj1 fingerprint_order_independent z1 [("b", "y"); ("a/b.txt", "hi")] eq_refl)
      as (sorted & Hp & _ & Hh).
    exists sorted. split; [exact Hp | exact Hh].
Defined.

(** C1, as stated, fails on archives in which a path comes with two
    contents: the two orders of the same two entries give two
    fingerprints. *)
Lemma fingerprint_order_counterexample :
  let z1 := [Sample.file "a" "x"; Sample.file "a" "y"] in
  let z2 := [Sample.file "a" "y"; Sample.file "a" "x"] in
  Permutation z1 z2 /\
  dirhash.HashZip (Sample.world 100 z1) "some.zip"
  <> dirhash.HashZip (Sample.world 100 z2) "some.zip".
Proof.
  intros z1 z2. split; [apply perm_swap|]. vm_compute. discriminate.
Qed.

Example scenario_fingerprint :
  dirhash.HashZip (Sample.world 100 Sample.scenario) "some.zip"
  = Ok "h1:JekT5fRrO3oztIo1nAmJ99q/+/D4RuyASHq3wVC+4ps=".
Proof. vm_compute. reflexivity. Qed.

Example sha256_abc :
  Hex.EncodeToString (Sha256.Sum256 "abc")
  = "ba7816bf8f01cfea414140de5dae2223b00361a396177a9cb410ff61f20015ad".
Proof. vm_compute. reflexivity. Qed.

Example sha256_two_blocks :
  Hex.EncodeToString
    (Sha256.Sum256 "abcdbcdecdefdefgefghfghighijhijkijkljklmklmnlmnomnopnopq")
  = "248d6a61d20638b8e5c026930c3e6039a33ce45964ff2167f6ecedd419db06c1".
Proof. vm_compute. reflexivity. Qed.

(** ** Rooted paths *)

Module RootedFacts.
Import Str Path PathFacts.

(** The backtracking of a [..] element never goes below the mark. *)
Lemma backtrack_mark (dd : nat) (out : list ascii) :
  (dd < length out)%nat -> (dd <= length (backtrack dd out))%nat.
Proof.
  induction out as [|c rest IH]; cbn [backtrack length]; [lia|]. intros H.
  destruct (Nat.ltb_spec dd (length rest)) as [Hlt|Hge]; cbn [andb]; [|lia].
  destruct (negb (Ascii.eqb c slash)); [apply IH; exact Hlt | lia].
Qed.

(** The buffer of a rooted path keeps the separator it starts with. *)
Lemma cleanLoop_rooted (fuel : nat) (s : string) (out : list ascii) (dd : nat) :
  (String.length s <= fuel)%nat ->
  out <> [] -> List.last out dot = slash -> (1 <= dd)%nat ->
  cleanLoop fuel true s out dd <> [] /\
  List.last (cleanLoop fuel true s out dd) dot = slash.
Proof.
  intros Hfuel. pattern s, out, dd, (cleanLoop fuel true s out dd).
  apply cleanLoop_ind; [..|exact Hfuel]; clear.
  - auto.
  - auto.
  - auto.
  - intros s2 out dd R _ Hdd IH Hne Hlast H1.
    pose proof (backtrack_mark dd out Hdd) as Hm.
    assert (backtrack dd out <> []) as Hb
        by (intros Hb; rewrite Hb in Hm; cbn in Hm; lia).
    apply IH; [exact Hb | | exact H1].
    destruct (backtrack_last dd out) as [Hx|Hx]; [contradiction | congruence].
  - intros; discriminate.
  - auto.
  - intros c s1 out dd rest out2 R Hc _ _ E IH Hne Hlast H1.
    assert (withSep true out <> [] /\ List.last (withSep true out) dot = slash) as [Hw1 Hw2].
    { unfold withSep. destruct (_ || _); [|auto].
      split; [discriminate|]. destruct out; [contradiction | exact Hlast]. }
    pose proof (copyElem_spec _ _ _ _ E) as (_ & Hlen & Hle & Hl).
    apply IH; [| rewrite (Hl Hw1); exact Hw2 | exact H1].
    intros ->. destruct (withSep true out); [contradiction | cbn in Hlen, Hle; lia].
Qed.

Lemma Clean_rooted (p : string) :
  headIs slash p = true -> headIs slash (Clean p) = true.
Proof.
  destruct p as [|c p]; [discriminate|]. cbn [headIs]. intros Hc.
  unfold Clean. rewrite Hc. cbn [tail].
  destruct (cleanLoop_rooted (String.length (String c p)) p [slash] 1)
    as [Hne Hlast]; [cbn; lia | discriminate | reflexivity | lia |].
  destruct (cleanLoop _ true p [slash] 1) as [|x l] eqn:E; [contradiction|].
  rewrite headIs_ofRev by discriminate. rewrite Hlast. reflexivity.
Qed.

Lemma splitDir_rooted (p : string) :
  headIs slash p = true -> headIs slash (splitDir p) = true.
Proof.
  destruct p as [|c p]; [discriminate|]. cbn [headIs splitDir hasSlash].
  intros H. rewrite H. cbn [orb headIs]. exact H.
Qed.

(** [path.Dir] of a rooted path is rooted: it is never ["."]. *)
Lemma Dir_rooted (p : string) :
  headIs slash p = true -> headIs slash (Dir p) = true /\ Dir p <> ".".
Proof.
  intros H. assert (headIs slash (Dir p) = true) as Hd
      by (apply Clean_rooted, splitDir_rooted, H).
  split; [exact Hd|]. intros E. rewrite E in Hd. discriminate.
Qed.

End RootedFacts.

(** ** More on [check] *)

Section CheckAgain.

Variable SimpleFold : Z -> Z.

Local Abbreviation strToFold := (strToFold SimpleFold).
Local Abbreviation check := (check SimpleFold).
Local Abbreviation registered := (registered SimpleFold).

(** A directory that is registered with all its ancestors passes [check]
    again, and the registry stays as it is. *)
Lemma check_known_dir (fuel : nat) :
  forall (cc : gmap string pathInfo.t) (p : string),
    Str.headIs Str.slash p = false -> (String.length p <= fuel)%nat ->
    registered cc p true ->
    (forall a, ancestor a p -> registered cc a true) ->
    check (S fuel) cc p true = Some (cc, None).
Proof.
  induction fuel as [|fuel IH]; intros cc p Hrel Hlen Hreg Hanc;
    rewrite check_unfold; unfold Main.registered in Hreg; rewrite Hreg;
    cbn [pathInfo.path pathInfo.isDir]; rewrite String.eqb_refl; cbn [negb Bool.eqb];
    destruct (PathFacts.Dir_relative p Hrel) as [Hr Hd];
    destruct (String.eqb_spec (Path.Dir p) ".") as [E|E]; try reflexivity.
  - destruct Hd; [contradiction | lia].
  - destruct Hd as [Hd|Hd]; [contradiction|].
    apply IH; [exact Hr | lia | |].
    + apply Hanc. now apply ancestor_parent.
    + intros a Ha. apply Hanc. now apply ancestor_step.
Qed.

(** X1. After a call of [check] on a relative path that returned no error,
    the same call repeated finds the path registered and leaves the
    registry as it is: for a directory it returns no error again (the
    recursion on the parents calls [check] on the same directory many
    times), for a file it reports multiple entries, and the call for the
    other kind reports an entry that is both a file and a directory. *)
Theorem check_repeated (fuel fuel' : nat) (cc cc' : gmap string pathInfo.t)
        (p : string) (isDir : bool) :
  Str.headIs Str.slash p = false -> (String.length p <= fuel')%nat ->
  check fuel cc p isDir = Some (cc', None) ->
  check (S fuel') cc' p isDir
    = Some (cc', if isDir then None else Some (ErrMultiple p)) /\
  check (S fuel') cc' p (negb isDir) = Some (cc', Some (ErrFileAndDir p)).
Proof.
  intros Hrel Hlen H. apply check_ok in H as (Hreg & Hanc & _).
  split.
  - destruct isDir.
    + apply check_known_dir; assumption.
    + rewrite check_unfold. unfold Main.registered in Hreg. rewrite Hreg.
      cbn [pathInfo.path pathInfo.isDir]. rewrite String.eqb_refl. reflexivity.
  - rewrite check_unfold. unfold Main.registered in Hreg. rewrite Hreg.
    cbn [pathInfo.path pathInfo.isDir]. rewrite String.eqb_refl.
    destruct isDir; reflexivity.
Qed.

(** X2. On a path that starts with a separator the recursion of [check] on
    the parents never reaches ["."]: the call returns no answer without
    error, whatever the depth allowed; it either reports an error or does
    not return.  On ["/"] as a directory, in a registry that has no entry
    for it, it does not return. *)
Theorem check_rooted_no_answer (fuel : nat) (cc : gmap string pathInfo.t)
        (p : string) (isDir : bool) :
  Str.headIs Str.slash p = true ->
  (check fuel cc p isDir = None \/
   exists cc' e, check fuel cc p isDir = Some (cc', Some e)) /\
  (cc !! "/" = None -> check fuel cc "/" true = None).
Proof.
  intros Hroot. split.
  - revert cc p isDir Hroot.
    induction fuel as [|fuel IH]; intros cc p isDir Hroot; [now left|].
    rewrite check_unfold.
    destruct (RootedFacts.Dir_rooted p Hroot) as [Hd Hne].
    destruct (String.eqb_spec (Path.Dir p) ".") as [E|_]; [contradiction|].
    destruct (cc !! strToFold p) as [other|].
    + destruct (negb (String.eqb p (pathInfo.path other))); [right; eauto|].
      destruct (negb (Bool.eqb isDir (pathInfo.isDir other))); [right; eauto|].
      destruct (negb isDir); [right; eauto|].
      apply IH; exact Hd.
    + apply IH; exact Hd.
  - clear p isDir Hroot.
    assert (forall n (c : gmap string pathInfo.t),
              c !! "/" = Some (pathInfo.mk "/" true) ->
              check n c "/" true = None) as Hloop.
    { induction n as [|n IHn]; intros c Hc; [reflexivity|].
      rewrite check_unfold. change (strToFold "/") with "/". rewrite Hc.
      change (Path.Dir "/") with "/". cbn. apply IHn. exact Hc. }
    intros Hcc. destruct fuel as [|fuel]; [reflexivity|].
    rewrite check_unfold. change (strToFold "/") with "/". rewrite Hcc.
    change (Path.Dir "/") with "/". cbn [String.eqb Ascii.eqb Bool.eqb].
    apply Hloop. apply lookup_insert_eq.
Qed.

End CheckAgain.

Lemma check_repeated_witness :
  let cc : gmap string pathInfo.t :=
    <["a" := pathInfo.mk "a" true]> (<["a/b" := pathInfo.mk "a/B" false]> ∅) in
  (check Sample.SimpleFold 4 cc "a/B" false = Some (cc, Some (ErrMultiple "a/B")) /\
   check Sample.SimpleFold 4 cc "a/B" true = Some (cc, Some (ErrFileAndDir "a/B"))) /\
  (check Sample.SimpleFold 2 cc "a" true = Some (cc, None) /\
   check Sample.SimpleFold 2 cc "a" false = Some (cc, Some (ErrFileAndDir "a"))).
Proof.
  intros cc. split.
  - apply (check_repeated Sample.SimpleFold 4 3 ∅ cc "a/B" false);
      [reflexivity | simpl; lia | vm_compute; reflexivity].
  - apply (check_repeated Sample.SimpleFold 2 1
             (<["a/b" := pathInfo.mk "a/B" false]> ∅) cc "a" true);
      [reflexivity | simpl; lia | vm_compute; reflexivity].
Defined.

Lemma check_rooted_no_answer_witness :
  (check Sample.SimpleFold 9 ∅ "/a" false = None \/
   exists cc' e, check Sample.SimpleFold 9 ∅ "/a" false = Some (cc', Some e)) /\
  check Sample.SimpleFold 9 ∅ "/" true = None.
Proof.
  split.
  - apply (check_rooted_no_answer Sample.SimpleFold 9 ∅ "/a" false). reflexivity.
  - apply (check_rooted_no_answer Sample.SimpleFold 9 ∅ "/a" false);
      [reflexivity | apply lookup_empty].
Defined.

(** ** More on the validation pass *)

Section PassFacts.

Variable SimpleFold : Z -> Z.
Variable CheckFilePath : string -> option error.

Local Abbreviation strToFold := (strToFold SimpleFold).
Local Abbreviation check := (check SimpleFold).
Local Abbreviation registered := (registered SimpleFold).
Local Abbreviation checkName := (checkName CheckFilePath).
Local Abbreviation checkFile := (checkFile SimpleFold CheckFilePath).
Local Abbreviation checkFiles := (checkFiles SimpleFold CheckFilePath).

(** A declared size of [2^63] bytes or more is negative as an [int64]. *)
Lemma int64_large (x : Z) :
  uint64 x -> (9223372036854775808 <= x)%Z -> (int64 x < 0)%Z.
Proof.
  unfold uint64, int64. change (2 ^ 63)%Z with 9223372036854775808%Z.
  change (2 ^ 64)%Z with 18446744073709551616%Z. intros H Hx.
  replace (x + 9223372036854775808)%Z
    with ((x - 9223372036854775808) + 1 * 18446744073709551616)%Z by lia.
  rewrite Z.mod_add by lia. rewrite Z.mod_small; lia.
Qed.

(** The names in [Valid] are registered as files, under folded forms that
    differ from one another: an invariant of the loop. *)
Lemma checkFile_validRegistered (st st' : checkState) (zf : zip.File) :
  checkFile st zf = Some st' ->
  (forall p, In p (CheckedFiles.Valid (cf st)) -> registered (collisions st) p false) /\
  List.NoDup (map strToFold (CheckedFiles.Valid (cf st))) ->
  (forall p, In p (CheckedFiles.Valid (cf st')) -> registered (collisions st') p false) /\
  List.NoDup (map strToFold (CheckedFiles.Valid (cf st'))).
Proof.
  unfold Main.checkFile. intros H [Hreg Hnd].
  destruct (checkName (entryName zf)) as [err|].
  { inversion H; subst. cbn. auto. }
  destruct (check _ _ _ _) as [[cc [err|]]|] eqn:Hc; [| |discriminate].
  { inversion H; subst. cbn. split; [|exact Hnd].
    intros p Hp. eapply registered_mono; [eapply check_grows; exact Hc | auto]. }
  pose proof (check_grows _ _ _ _ _ _ _ Hc) as Hsub.
  destruct (entryIsDir zf) eqn:Hd; inversion H; subst; cbn.
  { split; [|exact Hnd]. intros p Hp. eapply registered_mono; eauto. }
  assert (entryName zf = zip.Name zf) as Hname
      by (unfold entryName; now rewrite Hd).
  rewrite Hname in Hc. split.
  - intros p Hp. apply in_app_or in Hp as [Hp|[<-|[]]].
    + eapply registered_mono; eauto.
    + now apply check_ok in Hc.
  - rewrite map_app. cbn [map].
    apply List.NoDup_app; [exact Hnd | repeat constructor; intros [] |].
    intros k Hk [<-|[]]. apply in_map_iff in Hk as (q & Hq & Hin).
    specialize (Hreg q Hin). unfold Main.registered in Hreg.
    rewrite check_unfold in Hc. rewrite <- Hq, Hreg in Hc.
    cbn [pathInfo.path pathInfo.isDir] in Hc.
    destruct (negb (String.eqb (zip.Name zf) q)); discriminate.
Qed.

Lemma checkFiles_validRegistered (z : list zip.File) :
  forall st st', checkFiles st z = Some st' ->
    (forall p, In p (CheckedFiles.Valid (cf st)) -> registered (collisions st) p false) /\
    List.NoDup (map strToFold (CheckedFiles.Valid (cf st))) ->
    (forall p, In p (CheckedFiles.Valid (cf st')) -> registered (collisions st') p false) /\
    List.NoDup (map strToFold (CheckedFiles.Valid (cf st'))).
Proof.
  induction z as [|zf z IH]; intros st st' H Hinv; cbn [Main.checkFiles] in H.
  - now inversion H; subst.
  - destruct (checkFile st zf) as [st1|] eqn:H1; [|discriminate].
    eapply IH; [exact H|]. eapply checkFile_validRegistered; eauto.
Qed.

(** X3. At the end of a validation pass the names in [Valid] are pairwise
    distinct, also after case folding: no two of them have the same folded
    form.  Each of them is registered as a file. *)
Theorem valid_names_distinct (z : list zip.File) (st : checkState) :
  checkFiles checkStart z = Some st ->
  List.NoDup (map strToFold (CheckedFiles.Valid (cf st))) /\
  List.NoDup (CheckedFiles.Valid (cf st)) /\
  (forall p, In p (CheckedFiles.Valid (cf st)) -> registered (collisions st) p false).
Proof.
  intros H. apply checkFiles_validRegistered in H as [Hreg Hnd].
  - split; [exact Hnd|]. split; [|exact Hreg].
    eapply List.NoDup_map_inv; exact Hnd.
  - split; [intros p []|]. cbn. constructor.
Qed.

(** What the loop appends to the two sequences, in the order of the
    archive. *)
Lemma checkFiles_sequences (z : list zip.File) :
  forall st st', checkFiles st z = Some st' ->
    CheckedFiles.Omitted (cf st') = CheckedFiles.Omitted (cf st) /\
    exists V I,
      CheckedFiles.Valid (cf st') = (CheckedFiles.Valid (cf st) ++ V)%list /\
      invalidPaths (cf st') = (invalidPaths (cf st) ++ I)%list /\
      sublist V (map zip.Name z) /\ sublist I (map zip.Name z) /\
      Forall (fun p => Str.HasSuffixSlash p = false) V /\
      (forall zf, In zf z -> entryIsDir zf = false ->
                  In (zip.Name zf) V \/ In (zip.Name zf) I).
Proof.
  induction z as [|zf z IH]; intros st st' H; cbn [Main.checkFiles] in H.
  - inversion H; subst. split; [reflexivity|]. exists [], [].
    rewrite !app_nil_r. split; [reflexivity|]. split; [reflexivity|].
    split; [constructor|]. split; [constructor|]. split; [constructor|].
    intros ? [].
  - destruct (checkFile st zf) as [st1|] eqn:H1; [|discriminate].
    destruct (IH _ _ H) as (HO & V & I & HV & HI & HsV & HsI & HfV & Hall).
    apply checkFile_cases in H1 as [(cc & err & ->) | [(Hd & Hc & Hs) | (Hd & cc & ->)]].
    + split; [exact HO|]. exists V, (zip.Name zf :: I).
      rewrite HV, HI. unfold invalidPaths. cbn. rewrite map_app, <- app_assoc.
      split; [reflexivity|]. split; [reflexivity|].
      split; [now apply sublist_cons|]. split; [now apply sublist_skip|].
      split; [exact HfV|].
      intros zf' [<-|Hin] Hd'; [right; now left|].
      destruct (Hall zf' Hin Hd'); [now left | right; now right].
    + split; [now rewrite HO, Hc|]. exists V, I.
      rewrite HV, HI. unfold invalidPaths. rewrite Hc.
      split; [reflexivity|]. split; [reflexivity|].
      split; [now apply sublist_cons|]. split; [now apply sublist_cons|].
      split; [exact HfV|].
      intros zf' [<-|Hin] Hd'; [congruence | auto].
    + split; [exact HO|]. exists (zip.Name zf :: V), I.
      rewrite HV, HI. unfold invalidPaths. cbn. rewrite <- app_assoc.
      split; [reflexivity|]. split; [reflexivity|].
      split; [now apply sublist_skip|]. split; [now apply sublist_cons|].
      split; [constructor; [exact Hd | exact HfV]|].
      intros zf' [<-|Hin] Hd'; [left; now left|].
      destruct (Hall zf' Hin Hd'); [left; now right | now right].
Qed.

(** X4. The report of a validation pass follows the archive: [Valid] and
    the paths of [Invalid] are subsequences of the names of the entries, in
    the order of the archive and with the names as the archive has them;
    [Valid] holds no name of a directory entry, every file entry is in
    [Valid] or in [Invalid], and nothing is put in [Omitted]. *)
Theorem report_follows_archive (z : list zip.File) (st : checkState) :
  checkFiles checkStart z = Some st ->
  sublist (CheckedFiles.Valid (cf st)) (map zip.Name z) /\
  sublist (invalidPaths (cf st)) (map zip.Name z) /\
  Forall (fun p => Str.HasSuffixSlash p = false) (CheckedFiles.Valid (cf st)) /\
  (forall zf, In zf z -> entryIsDir zf = false ->
     In (zip.Name zf) (CheckedFiles.Valid (cf st)) \/
     In (zip.Name zf) (invalidPaths (cf st))) /\
  CheckedFiles.Omitted (cf st) = [].
Proof.
  intros H. apply checkFiles_sequences in H as (HO & V & I & HV & HI & H).
  cbn in HV, HI, HO. rewrite HV, HI. repeat split; try apply H; exact HO.
Qed.

(** X5. The size accounting cannot be wrapped around: for a file entry that
    passed the checks, whatever size below [2^64] it declares, the running
    total grows by that size when the sum stays within [MaxZipFile], and
    otherwise the total is left as it is and the size error is set. *)
Theorem size_no_wraparound (st : checkState) (zf : zip.File)
        (cc : gmap string pathInfo.t) :
  sizeOk st -> uint64 (zip.UncompressedSize64 zf) ->
  entryIsDir zf = false -> checkName (entryName zf) = None ->
  check (S (String.length (entryName zf))) (collisions st) (entryName zf) false
    = Some (cc, None) ->
  let N := zip.UncompressedSize64 zf in
  exists st',
    checkFile st zf = Some st' /\
    ((size st + N <= MaxZipFile)%Z ->
     size st' = (size st + N)%Z /\
     CheckedFiles.SizeError (cf st') = CheckedFiles.SizeError (cf st)) /\
    ((MaxZipFile < size st + N)%Z ->
     size st' = size st /\
     CheckedFiles.SizeError (cf st')
     = Some (match CheckedFiles.SizeError (cf st) with
             | None => ErrTotalTooLarge
             | Some e => e
             end)).
Proof.
  intros Hok Hu Hd Hn Hc N.
  exists (addSize st cc zf). unfold Main.checkFile. rewrite Hn, Hd, Hc.
  split; [reflexivity|].
  destruct (addSize_spec st cc zf Hok) as (_ & _ & _ & Hfit & Hnofit).
  fold N in Hfit, Hnofit, Hu.
  assert (0 <= size st <= 524288000)%Z as Hs by (apply Hok).
  pose proof MaxZipFile_val as HM.
  destruct (Z_lt_le_dec N 9223372036854775808) as [Hsmall|Hbig].
  - assert (int64 N = N) as Hi by (apply int64_small; unfold uint64 in Hu; lia).
    rewrite Hi in Hfit, Hnofit. split.
    + intros Hle. apply Hfit. unfold uint64 in Hu. lia.
    + intros Hgt. destruct Hnofit as [-> ->]; [lia|].
      split; [reflexivity|]. now destruct (CheckedFiles.SizeError (cf st)).
  - pose proof (int64_large N Hu Hbig) as Hneg. split.
    + intros Hle. lia.
    + intros Hgt. destruct Hnofit as [-> ->]; [lia|].
      split; [reflexivity|]. now destruct (CheckedFiles.SizeError (cf st)).
Qed.

(** An entry that the loop did not record as invalid is registered, a
    directory entry as a directory and a file entry as a file. *)
Lemma checkFiles_registers (z : list zip.File) :
  forall st st', checkFiles st z = Some st' ->
    length (CheckedFiles.Invalid (cf st')) = length (CheckedFiles.Invalid (cf st)) ->
    forall zf, In zf z -> registered (collisions st') (entryName zf) (entryIsDir zf).
Proof.
  induction z as [|zf0 z IH]; intros st st' H Hlen zf Hin; [destruct Hin|].
  cbn [Main.checkFiles] in H.
  destruct (checkFile st zf0) as [st1|] eqn:H1; [|discriminate].
  pose proof (checkFile_registry SimpleFold CheckFilePath _ _ _ H1) as (_ & Ha & _).
  pose proof (checkFiles_registry SimpleFold CheckFilePath _ _ _ H) as (Hsub & Hb & _).
  destruct Hin as [->|Hin]; [|eapply (IH st1 st'); eauto; lia].
  eapply registered_mono; [exact Hsub|].
  unfold Main.checkFile in H1.
  destruct (checkName (entryName zf)) as [err|].
  { inversion H1; subst st1. cbn in Hb. rewrite length_app in Hb. cbn in Hb. lia. }
  destruct (check _ _ _ _) as [[cc [err|]]|] eqn:Hc; [| |discriminate].
  { inversion H1; subst st1. cbn in Hb. rewrite length_app in Hb. cbn in Hb. lia. }
  apply check_ok in Hc as (Hreg & _).
  destruct (entryIsDir zf); inversion H1; subst st1; exact Hreg.
Qed.

(** X19. In an archive that passed the validation with no invalid entry,
    no file is used as a directory: the name of a file entry is not a
    parent directory, at any depth, of the name of an entry. *)
Theorem no_file_as_directory (z : list zip.File) (st : checkState)
        (zf zf' : zip.File) :
  checkFiles checkStart z = Some st -> CheckedFiles.Invalid (cf st) = [] ->
  In zf z -> In zf' z -> entryIsDir zf = false ->
  ancestor (zip.Name zf) (entryName zf') -> False.
Proof.
  intros Hst Hinv Hin Hin' Hd Hanc.
  assert (length (CheckedFiles.Invalid (cf st))
          = length (CheckedFiles.Invalid (cf checkStart))) as Hlen
      by (now rewrite Hinv).
  pose proof (checkFiles_registers z _ _ Hst Hlen zf Hin) as Hfile.
  pose proof (checkFiles_registers z _ _ Hst Hlen zf' Hin') as Hreg.
  pose proof (checkFiles_registry SimpleFold CheckFilePath _ _ _ Hst) as (_ & _ & Hkeep).
  assert (ancestorsRegistered SimpleFold (collisions st)) as Hall.
  { apply Hkeep; [exact Hlen|]. intros p d q Hp.
    unfold Main.registered in Hp. cbn in Hp. rewrite lookup_empty in Hp. discriminate. }
  specialize (Hall _ _ _ Hreg Hanc).
  unfold entryName in Hfile. rewrite Hd in Hfile.
  unfold Main.registered in Hall, Hfile. rewrite Hall in Hfile. discriminate.
Qed.

End PassFacts.

Lemma valid_names_distinct_witness :
  exists st,
    checkFiles Sample.SimpleFold Sample.CheckFilePath checkStart
      [Sample.file "a" "x"; Sample.file "A" "y"; Sample.directory "d/";
       Sample.file "d/b" ""] = Some st /\
    CheckedFiles.Valid (cf st) = ["a"; "d/b"] /\
    List.NoDup (map (strToFold Sample.SimpleFold) (CheckedFiles.Valid (cf st))).
Proof.
  eexists. split; [vm_compute; reflexivity|]. split; [reflexivity|].
  apply (valid_names_distinct Sample.SimpleFold Sample.CheckFilePath
           [Sample.file "a" "x"; Sample.file "A" "y"; Sample.directory "d/";
            Sample.file "d/b" ""]).
  vm_compute. reflexivity.
Defined.

Lemma report_follows_archive_witness :
  exists st,
    checkFiles Sample.SimpleFold Sample.CheckFilePath checkStart
      [Sample.file "a" "x"; Sample.file "A" "y"; Sample.directory "d/";
       Sample.directory "e/./"; Sample.file "d/b" ""] = Some st /\
    CheckedFiles.Valid (cf st) = ["a"; "d/b"] /\
    invalidPaths (cf st) = ["A"; "e/./"] /\
    sublist (CheckedFiles.Valid (cf st)) ["a"; "A"; "d/"; "e/./"; "d/b"].
Proof.
  eexists. split; [vm_compute; reflexivity|]. split; [reflexivity|].
  split; [reflexivity|].
  apply (report_follows_archive Sample.SimpleFold Sample.CheckFilePath
           [Sample.file "a" "x"; Sample.file "A" "y"; Sample.directory "d/";
            Sample.directory "e/./"; Sample.file "d/b" ""]).
  vm_compute. reflexivity.
Defined.

Lemma size_no_wraparound_witness :
  exists st',
    checkFile Sample.SimpleFold Sample.CheckFilePath checkStart
      (Sample.sized "a" (2 ^ 64 - 1) "") = Some st' /\
    size st' = 0%Z /\
    CheckedFiles.SizeError (cf st') = Some ErrTotalTooLarge.
Proof.
  destruct (size_no_wraparound Sample.SimpleFold Sample.CheckFilePath checkStart
              (Sample.sized "a" (2 ^ 64 - 1) "")
              (<["a" := pathInfo.mk "a" false]> ∅))
    as (st' & Hst & _ & Hbig);
    [vm_compute; split; discriminate
    | unfold uint64; split; [apply Z.leb_le | apply Z.ltb_lt]; reflexivity
    | reflexivity | reflexivity | vm_compute; reflexivity |].
  exists st'. split; [exact Hst|]. apply Hbig. vm_compute. reflexivity.
Defined.

Lemma no_file_as_directory_witness :
  (exists st,
     checkFiles Sample.SimpleFold Sample.CheckFilePath checkStart
       [Sample.file "a" "x"; Sample.file "a/b" "y"] = Some st /\
     invalidPaths (cf st) = ["a/b"]) /\
  (ancestor "a/b.txt" "a" -> False).
Proof.
  split; [eexists; split; [vm_compute; reflexivity | reflexivity]|].
  apply (no_file_as_directory Sample.SimpleFold Sample.CheckFilePath Sample.scenario
           (match checkFiles Sample.SimpleFold Sample.CheckFilePath checkStart
                    Sample.scenario with
            | Some s => s | None => checkStart end)
           (Sample.file "a/b.txt" "hi") (Sample.directory "a/"));
    [vm_compute; reflexivity | vm_compute; reflexivity | now left | right; now left
    | reflexivity].
Defined.

(** ** Bytes and runes *)

Module RuneFacts.
Import Str Utf8.
Open Scope Z_scope.

Lemma byteVal_range (c : ascii) : 0 <= byteVal c < 256.
Proof.
  unfold byteVal. pose proof (N_ascii_bounded c) as H. lia.
Qed.

Lemma byteVal_byteOf (z : Z) : byteVal (byteOf z) = z mod 256.
Proof.
  unfold byteVal, byteOf.
  pose proof (Z.mod_pos_bound z 256 ltac:(lia)) as H.
  rewrite N_ascii_embedding by lia. apply Z2N.id. lia.
Qed.

(** A byte with its high bit set is not ASCII. *)
Lemma high_bit (c x : Z) : Z.testbit c 7 = true -> 128 <= (Z.lor c x) mod 256.
Proof.
  intros Hc.
  assert (Z.testbit (Z.lor c x) 7 = true) as Hb
      by (rewrite Z.lor_spec, Hc; reflexivity).
  apply Z.testbit_true in Hb; [|lia].
  change (2 ^ 7) with 128 in Hb.
  change 256 with (128 * 2). rewrite Z.rem_mul_r by lia.
  pose proof (Z.mod_pos_bound (Z.lor c x) 128 ltac:(lia)). lia.
Qed.

Lemma lor_below (n a b : Z) :
  0 <= n -> 0 <= a < 2 ^ n -> 0 <= b < 2 ^ n -> 0 <= Z.lor a b < 2 ^ n.
Proof.
  intros Hn Ha Hb. split; [apply Z.lor_nonneg; lia|].
  destruct (Z.eq_dec (Z.lor a b) 0) as [->|Hne]; [lia|].
  assert (0 < Z.lor a b) as Hpos by (pose proof (proj2 (Z.lor_nonneg a b)); lia).
  apply Z.log2_lt_pow2; [exact Hpos|].
  rewrite Z.log2_lor by lia.
  destruct (Z.eq_dec a 0) as [->|Ha0]; destruct (Z.eq_dec b 0) as [->|Hb0].
  - rewrite Z.lor_0_l in Hne. contradiction.
  - rewrite Z.max_r by (cbn; apply Z.log2_nonneg). apply Z.log2_lt_pow2; lia.
  - rewrite Z.max_l by (cbn; apply Z.log2_nonneg). apply Z.log2_lt_pow2; lia.
  - apply Z.max_lub_lt; apply Z.log2_lt_pow2; lia.
Qed.

Lemma low6_range (b : Z) : 0 <= low6 b < 64.
Proof.
  unfold low6. change 0x3F with (Z.ones 6). rewrite Z.land_ones by lia.
  apply Z.mod_pos_bound. lia.
Qed.

Lemma land_ones_range (b n : Z) : 0 <= n -> 0 <= Z.land b (Z.ones n) < 2 ^ n.
Proof.
  intros Hn. rewrite Z.land_ones by lia. apply Z.mod_pos_bound.
  apply Z.pow_pos_nonneg; lia.
Qed.

(** The runes that [range] gives are not negative and below [2^21]. *)
Lemma DecodeRune_range (s : string) : 0 <= fst (DecodeRune s) < 2 ^ 21.
Proof.
  assert (0 <= RuneError < 2 ^ 21) as HE by (unfold RuneError; lia).
  destruct s as [|c0 s1]; [exact HE|]. cbn [DecodeRune].
  pose proof (byteVal_range c0) as H0.
  destruct (byteVal c0 <? RuneSelf); [cbn [fst]; lia|].
  destruct (inRange 0xC2 0xDF (byteVal c0)).
  { destruct s1 as [|c1 s2]; [exact HE|].
    destruct (inRange 128 191 (byteVal c1)); [|exact HE]. cbn [fst].
    pose proof (land_ones_range (byteVal c0) 5 ltac:(lia)) as Ha.
    change (Z.ones 5) with 0x1F in Ha.
    pose proof (low6_range (byteVal c1)) as Hb.
    apply lor_below; [lia | rewrite Z.shiftl_mul_pow2 by lia; lia | lia]. }
  destruct (inRange 0xE0 0xEF (byteVal c0)).
  { destruct s1 as [|c1 [|c2 s3]]; try exact HE.
    destruct (_ && _); [|exact HE]. cbn [fst].
    pose proof (land_ones_range (byteVal c0) 4 ltac:(lia)) as Ha.
    change (Z.ones 4) with 0x0F in Ha.
    pose proof (low6_range (byteVal c1)) as Hb.
    pose proof (low6_range (byteVal c2)) as Hc.
    apply lor_below; [lia | | lia].
    apply lor_below; [lia | |]; rewrite Z.shiftl_mul_pow2 by lia; lia. }
  destruct (inRange 0xF0 0xF4 (byteVal c0)); [|exact HE].
  destruct s1 as [|c1 [|c2 [|c3 s4]]]; try exact HE.
  destruct (_ && _); [|exact HE]. cbn [fst].
  pose proof (land_ones_range (byteVal c0) 3 ltac:(lia)) as Ha.
  change (Z.ones 3) with 0x07 in Ha.
  pose proof (low6_range (byteVal c1)) as Hb.
  pose proof (low6_range (byteVal c2)) as Hc.
  pose proof (low6_range (byteVal c3)) as Hd.
  apply lor_below; [lia | | lia].
  apply lor_below; [lia | | rewrite Z.shiftl_mul_pow2 by lia; lia].
  apply lor_below; [lia | |]; rewrite Z.shiftl_mul_pow2 by lia; lia.
Qed.

Lemma allBytes_app (f : ascii -> bool) (s t : string) :
  Elements.allBytes f (s ++ t) = Elements.allBytes f s && Elements.allBytes f t.
Proof.
  induction s as [|c s IH]; [now rewrite PathFacts.app_nil|].
  rewrite PathFacts.app_cons. cbn [Elements.allBytes]. rewrite IH.
  now rewrite andb_assoc.
Qed.

Lemma high_byte (c x : Z) :
  Z.testbit c 7 = true -> upperCase (byteOf (Z.lor c x)) = false.
Proof.
  intros Hc. unfold upperCase. rewrite byteVal_byteOf.
  pose proof (high_bit c x Hc). apply andb_false_iff. right. apply Z.leb_gt. lia.
Qed.

(** [WriteRune] writes an upper-case letter only for the rune of that
    letter. *)
Lemma EncodeRune_upper (r : Z) :
  int32 r -> ~ (65 <= r <= 90) ->
  Elements.allBytes (fun c => negb (upperCase c)) (EncodeRune r) = true.
Proof.
  unfold int32. change (2 ^ 31) with 2147483648. intros Hr Hup.
  unfold EncodeRune. change (2 ^ 32) with 4294967296.
  assert (Elements.allBytes (fun c => negb (upperCase c)) (enc3 RuneError) = true)
    as HE by reflexivity.
  destruct (Z.leb_spec (r mod 4294967296) 0x7F) as [H1|H1].
  { cbn [Elements.allBytes]. rewrite andb_true_r. unfold upperCase.
    rewrite byteVal_byteOf.
    assert (r mod 4294967296 = r) as ->.
    { destruct (Z_lt_le_dec r 0) as [Hneg|Hpos].
      - exfalso. replace r with ((r + 4294967296) + (-1) * 4294967296) in H1 by lia.
        rewrite Z.mod_add in H1 by lia. rewrite Z.mod_small in H1; lia.
      - apply Z.mod_small. lia. }
    assert (0 <= r <= 127) as Hr7.
    { destruct (Z_lt_le_dec r 0) as [Hneg|Hpos].
      - exfalso. replace r with ((r + 4294967296) + (-1) * 4294967296) in H1 by lia.
        rewrite Z.mod_add in H1 by lia. rewrite Z.mod_small in H1; lia.
      - rewrite Z.mod_small in H1; lia. }
    rewrite Z.mod_small by lia.
    apply negb_true_iff, andb_false_iff.
    destruct (Z_lt_le_dec r 65); [left; apply Z.leb_gt; lia|].
    right. apply Z.leb_gt. lia. }
  destruct (_ <=? 0x7FF).
  { cbn [Elements.allBytes]. rewrite !high_byte by reflexivity. reflexivity. }
  destruct (_ || _); [exact HE|].
  destruct (_ <=? 0xFFFF).
  { unfold enc3. cbn [Elements.allBytes]. rewrite !high_byte by reflexivity. reflexivity. }
  cbn [Elements.allBytes]. rewrite !high_byte by reflexivity. reflexivity.
Qed.

End RuneFacts.

(** ** More on [strToFold] *)

Section FoldResult.

Variable SimpleFold : Z -> Z.

Local Abbreviation foldOrbit := (foldOrbit SimpleFold).
Local Abbreviation foldRune := (foldRune SimpleFold).
Local Abbreviation foldRunes := (foldRunes SimpleFold).
Local Abbreviation strToFold := (strToFold SimpleFold).

(** [unicode.SimpleFold] gives a rune for a rune. *)
Hypothesis SimpleFold_rune : forall x, int32 x -> int32 (SimpleFold x).

Lemma foldOrbit_rune (depth : nat) :
  forall r, int32 r -> int32 (fst (foldOrbit depth r)).
Proof.
  induction depth as [|d IH]; intros r Hr; cbn [Main.foldOrbit].
  - cbn [fst]. now apply SimpleFold_rune.
  - pose proof (IH r Hr) as H1. destruct (foldOrbit d r) as [r1 out].
    destruct out; [exact H1|]. apply IH. exact H1.
Qed.

(** Once the loop has left, more iterations change nothing. *)
Lemma foldOrbit_left (depth : nat) (r : Z) :
  snd (foldOrbit depth r) = true ->
  forall more, foldOrbit (more + depth) r = foldOrbit depth r.
Proof.
  intros H more. induction more as [|m IH]; [reflexivity|].
  cbn [Nat.add Main.foldOrbit]. rewrite IH.
  destruct (foldOrbit depth r) as [r1 out]. cbn [snd] in H. now subst out.
Qed.

(** The rune with which the loop leaves is a value of [SimpleFold] that is
    not above its argument, and the argument is not below the rune the loop
    started from. *)
Lemma foldOrbit_exit (depth : nat) :
  forall r, snd (foldOrbit depth r) = true ->
    exists r0, (r <= r0)%Z /\ fst (foldOrbit depth r) = SimpleFold r0 /\
               (SimpleFold r0 <= r0)%Z.
Proof.
  induction depth as [|d IH]; intros r; cbn [Main.foldOrbit].
  - cbn [fst snd]. intros H. apply Z.leb_le in H. exists r. lia.
  - pose proof (IH r) as H1. pose proof (foldOrbit_stays SimpleFold d r) as Hs.
    destruct (foldOrbit d r) as [r1 out]. destruct out; [exact H1|].
    intros H. destruct (IH r1 H) as (r0 & Hle & Hv & Hd).
    exists r0. cbn [fst snd] in Hs. specialize (Hs eq_refl).
    pose proof (Z.pow_pos_nonneg 2 (Z.of_nat d) ltac:(lia) ltac:(lia)). lia.
Qed.

(** X6. The loop of [strToFold] that looks for the smallest rune of a
    folding orbit ends, whatever the table of [unicode.SimpleFold]: from a
    rune it has left after at most [2^32] iterations, more iterations give
    the same rune, and it leaves with a value of [SimpleFold] that is not
    above its argument. *)
Theorem fold_loop_ends (r : Z) (more : nat) :
  int32 r ->
  snd (foldOrbit 32 r) = true /\
  foldOrbit (more + 32) r = foldOrbit 32 r /\
  exists r0, (r <= r0)%Z /\ fst (foldOrbit 32 r) = SimpleFold r0 /\
             (SimpleFold r0 <= r0)%Z.
Proof.
  intros Hr.
  assert (snd (foldOrbit 32 r) = true) as Hleft.
  { destruct (snd (foldOrbit 32 r)) eqn:E; [reflexivity|].
    apply foldOrbit_stays in E. pose proof (foldOrbit_rune 32 r Hr) as Hv.
    unfold int32 in *. change (Z.of_nat 32) with 32%Z in E.
    change (2 ^ 32)%Z with 4294967296%Z in E.
    change (2 ^ 31)%Z with 2147483648%Z in *. lia. }
  split; [exact Hleft|]. split; [now apply foldOrbit_left|].
  now apply foldOrbit_exit.
Qed.

Lemma foldRune_lower (r : Z) :
  int32 r -> int32 (foldRune r) /\ ~ (65 <= foldRune r <= 90)%Z.
Proof.
  intros Hr. unfold Main.foldRune.
  pose proof (foldOrbit_rune 32 r Hr) as Hv. unfold int32 in *.
  change (2 ^ 31)%Z with 2147483648%Z in *.
  destruct (Z.leb_spec 65 (fst (foldOrbit 32 r)));
    destruct (Z.leb_spec (fst (foldOrbit 32 r)) 90); cbn [andb]; lia.
Qed.

Lemma needsFold_upper (s : string) :
  needsFold s = false -> Elements.allBytes (fun c => negb (upperCase c)) s = true.
Proof.
  induction s as [|c s IH]; [reflexivity|]. cbn [needsFold Elements.allBytes].
  intros H. apply orb_false_iff in H as [H Hs]. apply orb_false_iff in H as [_ H].
  rewrite (IH Hs), andb_true_r. unfold upperCase. now rewrite H.
Qed.

Lemma foldRunes_upper (fuel : nat) :
  forall s, Elements.allBytes (fun c => negb (upperCase c)) (foldRunes fuel s) = true.
Proof.
  induction fuel as [|fuel IH]; intros s; [reflexivity|].
  destruct s as [|c s]; [reflexivity|]. cbn [Main.foldRunes].
  pose proof (RuneFacts.DecodeRune_range (String c s)) as Hd.
  destruct (Utf8.DecodeRune (String c s)) as [r rest]. cbn [fst] in Hd.
  rewrite RuneFacts.allBytes_app, IH, andb_true_r.
  assert (int32 r) as Hr
      by (unfold int32; change (2 ^ 31)%Z with 2147483648%Z;
          change (2 ^ 21)%Z with 2097152%Z in Hd; lia).
  destruct (foldRune_lower r Hr) as [H1 H2].
  now apply RuneFacts.EncodeRune_upper.
Qed.

(** X7. The folded form of a string holds no upper-case ASCII letter, on
    the fast path as on the slow one: the keys of the registry never hold a
    byte between ['A'] and ['Z']. *)
Theorem strToFold_no_upper (s : string) :
  Elements.allBytes (fun c => negb (upperCase c)) (strToFold s) = true.
Proof.
  unfold Main.strToFold. destruct (needsFold s) eqn:E.
  - apply foldRunes_upper.
  - now apply needsFold_upper.
Qed.

End FoldResult.

Lemma Sample_SimpleFold_rune (x : Z) : int32 x -> int32 (Sample.SimpleFold x).
Proof.
  unfold int32, Sample.SimpleFold. change (2 ^ 31)%Z with 2147483648%Z. intros H.
  destruct (Z.leb_spec 65 x); destruct (Z.leb_spec x 90); cbn [andb]; try lia;
    destruct (Z.leb_spec 97 x); destruct (Z.leb_spec x 122); cbn [andb]; lia.
Qed.

Lemma fold_loop_ends_witness :
  foldOrbit Sample.SimpleFold 40 107 = (75%Z, true) /\
  snd (foldOrbit Sample.SimpleFold 32 107) = true.
Proof.
  destruct (fold_loop_ends Sample.SimpleFold Sample_SimpleFold_rune 107 8)
    as (H1 & H2 & _).
  - unfold int32. split; [apply Z.leb_le | apply Z.ltb_lt]; reflexivity.
  - split; [|exact H1]. change (40%nat) with (8 + 32)%nat. rewrite H2.
    vm_compute. reflexivity.
Defined.

Lemma strToFold_no_upper_witness :
  Elements.allBytes (fun c => negb (upperCase c))
    (strToFold Sample.SimpleFold "Ab/README.md") = true /\
  strToFold Sample.SimpleFold "Ab/README.md" = "ab/readme.md".
Proof.
  split.
  - apply (strToFold_no_upper Sample.SimpleFold Sample_SimpleFold_rune).
  - vm_compute. reflexivity.
Defined.

(** ** The loop of the extraction *)

Section LoopFacts.

Variable SimpleFold : Z -> Z.
Variable CheckFilePath : string -> option error.
Variable W : World.

Local Abbreviation checkFiles := (checkFiles SimpleFold CheckFilePath).
Local Abbreviation checkZip := (checkZip SimpleFold CheckFilePath).
Local Abbreviation extract := (extract W).
Local Abbreviation extractAll := (extractAll W).
Local Abbreviation unzip := (unzip SimpleFold CheckFilePath W).
Local Abbreviation run := (run SimpleFold CheckFilePath W).

(** One iteration of the loop: an entry is skipped, or written under its
    target; with a prefix, an entry that is written sets [prefixMatched]. *)
Lemma extractAll_cons (dir prefix : string) (zf : zip.File) (z : list zip.File)
      (pm : bool) :
  extractAll dir prefix (zf :: z) pm =
  match target prefix zf with
  | None => extractAll dir prefix z pm
  | Some name =>
      do _ <- extract dir name zf;
      extractAll dir prefix z (pm || negb (String.eqb prefix ""))
  end.
Proof.
  unfold target. cbn [Main.extractAll]. destruct (_ || _); [reflexivity|].
  destruct (negb (String.eqb prefix "")).
  - destruct (negb (Str.HasPrefix _ _)); [reflexivity|]. now rewrite orb_true_r.
  - now rewrite orb_false_r.
Qed.

(** The loop over two archives in a row: the second one is read only when
    the first one was extracted without error. *)
Lemma extractAll_app (dir prefix : string) (z1 z2 : list zip.File) :
  forall pm h,
    extractAll dir prefix (z1 ++ z2)%list pm h =
    match extractAll dir prefix z1 pm h with
    | (h1, Ok pm1) => extractAll dir prefix z2 pm1 h1
    | (h1, Fail e) => (h1, Fail e)
    | (h1, Diverges) => (h1, Diverges)
    end.
Proof.
  induction z1 as [|zf z1 IH]; intros pm h; [reflexivity|].
  cbn [app]. rewrite !extractAll_cons. destruct (target prefix zf) as [name|].
  - unfold bind. destruct (extract dir name zf h) as [h1 [[]|e|]]; [apply IH|reflexivity..].
  - apply IH.
Qed.

(** An entry whose stream ends, without error, within the declared size:
    the whole of the stream is written. *)
Lemma extract_fitting (dir name : string) (zf : zip.File) (r : zip.Reader)
      (h : list Event) :
  noFailure W -> zip.Open zf = Ok r -> zip.End_ r = None ->
  (0 <= zip.UncompressedSize64 zf <= MaxZipFile)%Z ->
  (Z.of_nat (String.length (zip.Bytes r)) <= zip.UncompressedSize64 zf)%Z ->
  extract dir name zf h
  = ((h ++ [EvMkdirAll (Path.Dir (Join dir name)); EvOpenFile (Join dir name);
            EvZipOpen (zip.Name zf)]
        ++ (if String.eqb (zip.Bytes r) "" then []
            else [EvCopy (Join dir name) (zip.Bytes r)])
        ++ [EvClose (Join dir name)])%list, Ok tt).
Proof.
  intros Hnf Hopen Hend HN Hlen. rewrite MaxZipFile_val in HN.
  pose proof (extract_run W dir name zf r h Hnf Hopen) as Hrun. cbv zeta in Hrun.
  rewrite (int64_small (zip.UncompressedSize64 zf)) in Hrun by lia.
  rewrite (int64_small (zip.UncompressedSize64 zf + 1)) in Hrun by lia.
  unfold limited in Hrun.
  destruct (Z.leb_spec (zip.UncompressedSize64 zf + 1) 0) as [|_]; [lia|].
  destruct (Z.ltb_spec (Z.of_nat (String.length (zip.Bytes r)))
                       (zip.UncompressedSize64 zf + 1)) as [_|]; [|lia].
  rewrite Hrun, Hend.
  destruct (Z.leb_spec (zip.UncompressedSize64 zf + 1
                        - Z.of_nat (String.length (zip.Bytes r))) 0); [lia|].
  reflexivity.
Qed.

(** An entry whose stream ends with an error within the declared size:
    what the stream has delivered is written and the file is closed before
    the error is returned. *)
Lemma extract_cut (dir name : string) (zf : zip.File) (r : zip.Reader)
      (e : error) (h : list Event) :
  noFailure W -> zip.Open zf = Ok r -> zip.End_ r = Some e ->
  (0 <= zip.UncompressedSize64 zf <= MaxZipFile)%Z ->
  (Z.of_nat (String.length (zip.Bytes r)) <= zip.UncompressedSize64 zf)%Z ->
  extract dir name zf h = ((h ++ written dir name zf (zip.Bytes r))%list, Fail e).
Proof.
  intros Hnf Hopen Hend HN Hlen. rewrite MaxZipFile_val in HN.
  pose proof (extract_run W dir name zf r h Hnf Hopen) as Hrun. cbv zeta in Hrun.
  rewrite (int64_small (zip.UncompressedSize64 zf)) in Hrun by lia.
  rewrite (int64_small (zip.UncompressedSize64 zf + 1)) in Hrun by lia.
  unfold limited in Hrun.
  destruct (Z.leb_spec (zip.UncompressedSize64 zf + 1) 0) as [|_]; [lia|].
  destruct (Z.ltb_spec (Z.of_nat (String.length (zip.Bytes r)))
                       (zip.UncompressedSize64 zf + 1)) as [_|]; [|lia].
  rewrite Hrun, Hend. reflexivity.
Qed.

Lemma extract_written (dir name : string) (zf : zip.File) (r : zip.Reader)
      (h : list Event) :
  noFailure W -> zip.Open zf = Ok r -> zip.End_ r = None ->
  (0 <= zip.UncompressedSize64 zf <= MaxZipFile)%Z ->
  (Z.of_nat (String.length (zip.Bytes r)) <= zip.UncompressedSize64 zf)%Z ->
  extract dir name zf h = ((h ++ written dir name zf (zip.Bytes r))%list, Ok tt).
Proof. apply extract_fitting. Qed.

(** The loop over entries that fit: every entry that is not skipped is
    written whole, in the order of the archive. *)
Lemma extractAll_fitting (dir prefix : string) (z : list zip.File) :
  noFailure W -> fitting prefix z ->
  (forall zf name, In zf z -> target prefix zf = Some name ->
     (0 <= zip.UncompressedSize64 zf <= MaxZipFile)%Z) ->
  forall pm h,
    extractAll dir prefix z pm h
    = ((h ++ flat_map (extracted dir prefix) z)%list,
       Ok (pm || negb (String.eqb prefix "") && matched prefix z)).
Proof.
  intros Hnf. induction z as [|zf z IH]; intros Hfit Hsize pm h.
  - cbn. now rewrite app_nil_r, andb_false_r, orb_false_r.
  - rewrite extractAll_cons. unfold matched, extracted. cbn [flat_map existsb].
    fold (extracted dir prefix). fold (matched prefix z).
    assert (fitting prefix z) as Hfit'
        by (intros zf' name' Hin; apply Hfit; now right).
    assert (forall zf' name', In zf' z -> target prefix zf' = Some name' ->
              (0 <= zip.UncompressedSize64 zf' <= MaxZipFile)%Z) as Hsize'
        by (intros zf' name' Hin; apply (Hsize zf' name'); now right).
    destruct (target prefix zf) as [name|] eqn:Ht.
    + destruct (Hfit zf name (or_introl eq_refl) Ht) as (r & Hopen & Hend & Hlen).
      unfold bind.
      rewrite (extract_written dir name zf r h Hnf Hopen Hend
                 (Hsize zf name (or_introl eq_refl) Ht) Hlen).
      rewrite (IH Hfit' Hsize'), Hopen, <- app_assoc. f_equal. f_equal.
      destruct pm, (negb (String.eqb prefix "")); reflexivity.
    + rewrite (IH Hfit' Hsize'). reflexivity.
Qed.

(** What [unzip] does once the target is found empty and the zip is
    validated: the target is created and the loop runs. *)
Lemma unzip_validated (dir zipFile prefix : string) (f : os.File) (zipSize : Z)
      (z : list zip.File) (st : checkState) (h : list Event) :
  noFailure W -> ReadDir W dir = 0%nat -> OsOpen W zipFile = Ok f ->
  os.Stat f = Ok zipSize -> (zipSize <= MaxZipFile)%Z -> os.NewReader f = Ok z ->
  checkFiles checkStart z = Some st -> CheckedFiles.Err (cf st) = None ->
  unzip dir zipFile prefix h
  = match extractAll dir prefix z false
            (h ++ [EvReadDir dir; EvOpen zipFile; EvStat; EvNewReader;
                   EvChecked None; EvMkdirAll dir])%list with
    | (h2, Ok pm) =>
        (h2, if negb (String.eqb prefix "") && negb pm
             then Fail (zipError "unzip" zipFile (ErrNoPrefixMatch prefix))
             else Ok tt)
    | (h2, Fail e) => (h2, Fail (zipError "unzip" zipFile e))
    | (h2, Diverges) => (h2, Diverges)
    end.
Proof.
  intros Hnf Hdir Hopen Hs Hle Hr Hst Herr.
  unfold Main.unzip, deferZipError, bind at 1, emit at 1.
  rewrite Hdir. cbn [Nat.ltb Nat.leb].
  unfold bind at 1, emit at 1, bind at 1, lift at 1. rewrite Hopen.
  unfold bind at 1.
  rewrite (checkZip_run SimpleFold CheckFilePath f zipSize z st _ Hs Hle Hr Hst), Herr.
  unfold bind at 1, mkdirAll, bind at 1, history at 1, bind at 1, emit at 1, orFail.
  destruct (Hnf (((h ++ [EvReadDir dir]) ++ [EvOpen zipFile]) ++
                 [EvStat; EvNewReader; EvChecked None])%list dir) as (-> & _).
  unfold ret at 1, bind at 1. rewrite <- !app_assoc. cbn [app].
  destruct (extractAll dir prefix z false _) as [h2 [pm|e|]]; [|reflexivity..].
  destruct (negb (String.eqb prefix "") && negb pm); reflexivity.
Qed.

(** After a validation without error the entries that are written declare
    a size within the budget. *)
Lemma validated_targets (prefix : string) (z : list zip.File) (st : checkState) :
  checkFiles checkStart z = Some st -> CheckedFiles.Err (cf st) = None ->
  Forall (fun zf => uint64 (zip.UncompressedSize64 zf)) z ->
  forall zf name, In zf z -> target prefix zf = Some name ->
    (0 <= zip.UncompressedSize64 zf <= MaxZipFile)%Z.
Proof.
  intros Hst Herr Hu zf name Hin Ht.
  unfold CheckedFiles.Err in Herr.
  destruct (CheckedFiles.SizeError (cf st)) eqn:Hse; [discriminate|].
  assert (CheckedFiles.Invalid (cf st) = []) as Hinv
      by (destruct (CheckedFiles.Invalid (cf st)); [reflexivity | discriminate]).
  eapply (validated_sizes SimpleFold CheckFilePath z checkStart st); eauto.
  - unfold sizeOk. cbn. rewrite MaxZipFile_val. lia.
  - unfold target in Ht. unfold entryIsDir.
    destruct (Str.HasSuffixSlash (zip.Name zf)); [|reflexivity].
    rewrite orb_true_r in Ht. discriminate.
  - unfold invalidPaths. rewrite Hinv. reflexivity.
  - rewrite List.Forall_forall in Hu. now apply Hu.
Qed.

(** X8. The extraction of a validated archive whose streams fit: when the
    target is empty, the zip passes the validation, no call of the file
    system fails and every entry that is written has a stream that ends,
    without error, within its declared size, [unzip] creates the target and
    writes every such entry whole, in the order of the archive, under its
    name joined to the target; directory entries and entries outside the
    prefix leave no call.  It returns no error, unless a prefix was given
    and no entry was under it. *)
Theorem unzip_writes_all (dir zipFile prefix : string) (f : os.File) (zipSize : Z)
        (z : list zip.File) (st : checkState) (h : list Event) :
  noFailure W -> ReadDir W dir = 0%nat -> OsOpen W zipFile = Ok f ->
  os.Stat f = Ok zipSize -> (zipSize <= MaxZipFile)%Z -> os.NewReader f = Ok z ->
  checkFiles checkStart z = Some st -> CheckedFiles.Err (cf st) = None ->
  Forall (fun zf => uint64 (zip.UncompressedSize64 zf)) z ->
  fitting prefix z ->
  unzip dir zipFile prefix h
  = ((h ++ [EvReadDir dir; EvOpen zipFile; EvStat; EvNewReader; EvChecked None;
            EvMkdirAll dir] ++ flat_map (extracted dir prefix) z)%list,
     if negb (String.eqb prefix "") && negb (matched prefix z)
     then Fail (zipError "unzip" zipFile (ErrNoPrefixMatch prefix))
     else Ok tt).
Proof.
  intros Hnf Hdir Hopen Hs Hle Hr Hst Herr Hu Hfit.
  rewrite (unzip_validated dir zipFile prefix f zipSize z st h); try assumption.
  rewrite (extractAll_fitting dir prefix z Hnf Hfit
             (validated_targets prefix z st Hst Herr Hu)).
  rewrite <- app_assoc. cbn [orb].
  destruct (negb (String.eqb prefix "")), (matched prefix z); reflexivity.
Qed.

(** X9. The extraction stops at the first entry whose stream ends with an
    error, as the reader of [archive/zip] ends a stream that is shorter or
    longer than declared or that fails its checksum, and leaves behind what
    it has written: the entries before it are written whole, of the entry
    itself what the stream has delivered is written and the file is closed,
    the entries after it are not touched, and the error of the stream is
    returned. *)
Theorem unzip_stops_at_stream_error (dir zipFile prefix : string) (f : os.File)
        (zipSize : Z) (z1 z2 : list zip.File) (zf : zip.File) (name : string)
        (r : zip.Reader) (e : error) (st : checkState) (h : list Event) :
  noFailure W -> ReadDir W dir = 0%nat -> OsOpen W zipFile = Ok f ->
  os.Stat f = Ok zipSize -> (zipSize <= MaxZipFile)%Z ->
  os.NewReader f = Ok (z1 ++ zf :: z2)%list ->
  checkFiles checkStart (z1 ++ zf :: z2)%list = Some st ->
  CheckedFiles.Err (cf st) = None ->
  Forall (fun zf => uint64 (zip.UncompressedSize64 zf)) (z1 ++ zf :: z2)%list ->
  fitting prefix z1 ->
  target prefix zf = Some name -> zip.Open zf = Ok r -> zip.End_ r = Some e ->
  (Z.of_nat (String.length (zip.Bytes r)) <= zip.UncompressedSize64 zf)%Z ->
  unzip dir zipFile prefix h
  = ((h ++ [EvReadDir dir; EvOpen zipFile; EvStat; EvNewReader; EvChecked None;
            EvMkdirAll dir] ++ flat_map (extracted dir prefix) z1
        ++ [EvMkdirAll (Path.Dir (Join dir name)); EvOpenFile (Join dir name);
            EvZipOpen (zip.Name zf)]
        ++ (if String.eqb (zip.Bytes r) "" then []
            else [EvCopy (Join dir name) (zip.Bytes r)])
        ++ [EvClose (Join dir name)])%list,
     Fail (zipError "unzip" zipFile e)).
Proof.
  intros Hnf Hdir Hopen Hs Hle Hr Hst Herr Hu Hfit Ht Hzf Hend Hlen.
  rewrite (unzip_validated dir zipFile prefix f zipSize (z1 ++ zf :: z2)%list st h);
    try assumption.
  pose proof (validated_targets prefix (z1 ++ zf :: z2)%list st Hst Herr Hu) as Hsize.
  rewrite extractAll_app.
  rewrite (extractAll_fitting dir prefix z1 Hnf Hfit).
  2: { intros zf' name' Hin. apply Hsize. apply in_or_app. now left. }
  rewrite extractAll_cons, Ht. unfold bind.
  rewrite (extract_cut dir name zf r e _ Hnf Hzf Hend); [|
    apply (Hsize zf name); [apply in_or_app; right; now left | exact Ht] | exact Hlen].
  unfold written. rewrite <- !app_assoc. reflexivity.
Qed.

(** X10. With a prefix under which the validated archive has no file
    entry, [unzip] still creates the target directory; it writes no file
    and fails because no file matched the prefix. *)
Theorem unzip_no_prefix_match (dir zipFile prefix : string) (f : os.File)
        (zipSize : Z) (z : list zip.File) (st : checkState) (h : list Event) :
  noFailure W -> ReadDir W dir = 0%nat -> OsOpen W zipFile = Ok f ->
  os.Stat f = Ok zipSize -> (zipSize <= MaxZipFile)%Z -> os.NewReader f = Ok z ->
  checkFiles checkStart z = Some st -> CheckedFiles.Err (cf st) = None ->
  prefix <> "" ->
  (forall zf, In zf z -> Str.HasSuffixSlash (zip.Name zf) = false ->
              Str.HasPrefix (zip.Name zf) (prefix ++ "/") = false) ->
  unzip dir zipFile prefix h
  = ((h ++ [EvReadDir dir; EvOpen zipFile; EvStat; EvNewReader; EvChecked None;
            EvMkdirAll dir])%list,
     Fail (zipError "unzip" zipFile (ErrNoPrefixMatch prefix))).
Proof.
  intros Hnf Hdir Hopen Hs Hle Hr Hst Herr Hp Hno.
  rewrite (unzip_validated dir zipFile prefix f zipSize z st h); try assumption.
  assert (forall pm h', extractAll dir prefix z pm h' = (h', Ok pm)) as Hskip.
  { clear Hr Hst. induction z as [|zf z' IH]; intros pm h'; [reflexivity|].
    rewrite extractAll_cons.
    assert (target prefix zf = None) as ->.
    { unfold target. destruct (String.eqb (zip.Name zf) ""); [reflexivity|].
      destruct (Str.HasSuffixSlash (zip.Name zf)) eqn:Hd; [reflexivity|]. cbn [orb].
      apply String.eqb_neq in Hp. rewrite Hp. cbn [negb].
      now rewrite (Hno zf (or_introl eq_refl) Hd). }
    apply IH. intros zf' Hin. apply Hno. now right. }
  rewrite Hskip. apply String.eqb_neq in Hp. rewrite Hp. reflexivity.
Qed.

(** X11. A target directory that is not empty is refused before the zip is
    opened: the only call is the reading of the target. *)
Theorem unzip_target_not_empty (dir zipFile prefix : string) (h : list Event) :
  (0 < ReadDir W dir)%nat ->
  unzip dir zipFile prefix h
  = ((h ++ [EvReadDir dir])%list,
     Fail (zipError "unzip" zipFile (ErrTargetNotEmpty dir))).
Proof.
  intros Hn. unfold Main.unzip, deferZipError, bind at 1, emit at 1.
  destruct (Nat.ltb_spec 0 (ReadDir W dir)) as [_|]; [reflexivity | lia].
Qed.

End LoopFacts.

(** ** The modes of [run] *)

Section RunModes.

Variable SimpleFold : Z -> Z.
Variable CheckFilePath : string -> option error.
Variable W : World.

Local Abbreviation checkZip := (checkZip SimpleFold CheckFilePath).
Local Abbreviation run := (run SimpleFold CheckFilePath W).

(** X13. With three or four arguments and the fingerprint of the zip as
    the second one, [run] hands over to [unzip] after the hashing and the
    comparison, with the third argument as the target and the fourth as the
    prefix: a missing fourth argument and an empty one are the same. *)
Theorem run_hands_over (args : list string) (h : list Event) :
  length args = 3%nat \/ length args = 4%nat ->
  dirhash.HashZip W (nth 0 args "") = Ok (nth 1 args "") ->
  run args h
  = unzip SimpleFold CheckFilePath W (nth 2 args "") (nth 0 args "") (nth 3 args "")
      (h ++ [EvHashZip (nth 0 args "");
             EvCompareHash (nth 1 args "") (nth 1 args "")])%list.
Proof.
  intros Hn Hh. unfold Main.run.
  assert (negb (length args =? 1)%nat && negb (length args =? 3)%nat
          && negb (length args =? 4)%nat = false) as ->
      by (destruct Hn as [-> | ->]; reflexivity).
  assert ((length args =? 1)%nat = false) as ->
      by (destruct Hn as [-> | ->]; reflexivity).
  unfold bind at 1. rewrite hashZip_run, Hh.
  unfold bind at 1, emit at 1. rewrite String.eqb_refl. cbn [negb].
  rewrite <- app_assoc. cbn [app].
  destruct Hn as [Hn | Hn]; rewrite Hn; cbn [Nat.eqb]; [|reflexivity].
  rewrite (nth_overflow args "" (n := 3)) by lia. reflexivity.
Qed.

(** X14. With an expected fingerprint that is not the fingerprint of the
    zip, [run] reports both and stops: after the hashing and the comparison
    it makes no call, so that neither the target nor the zip is looked
    at. *)
Theorem run_hash_mismatch (args : list string) (hash : string) (h : list Event) :
  length args = 3%nat \/ length args = 4%nat ->
  dirhash.HashZip W (nth 0 args "") = Ok hash ->
  hash <> nth 1 args "" ->
  run args h
  = ((h ++ [EvHashZip (nth 0 args ""); EvCompareHash hash (nth 1 args "")])%list,
     Fail (ErrHashMismatch hash (nth 1 args ""))).
Proof.
  intros Hn Hh Hne. unfold Main.run.
  assert (negb (length args =? 1)%nat && negb (length args =? 3)%nat
          && negb (length args =? 4)%nat = false) as ->
      by (destruct Hn as [-> | ->]; reflexivity).
  assert ((length args =? 1)%nat = false) as ->
      by (destruct Hn as [-> | ->]; reflexivity).
  unfold bind at 1. rewrite hashZip_run, Hh.
  unfold bind at 1, emit at 1.
  apply String.eqb_neq in Hne. rewrite Hne. cbn [negb].
  unfold fail. now rewrite <- app_assoc.
Qed.

End RunModes.

Lemma unzip_writes_all_witness :
  unzip Sample.SimpleFold Sample.CheckFilePath (Sample.world 100 Sample.scenario)
        "out" "some.zip" "a" []
  = ([EvReadDir "out"; EvOpen "some.zip"; EvStat; EvNewReader; EvChecked None;
      EvMkdirAll "out"; EvMkdirAll "out"; EvOpenFile "out/b.txt";
      EvZipOpen "a/b.txt"; EvCopy "out/b.txt" "hi"; EvClose "out/b.txt"], Ok tt).
Proof.
  rewrite (unzip_writes_all Sample.SimpleFold Sample.CheckFilePath
             (Sample.world 100 Sample.scenario) "out" "some.zip" "a"
             (os.mkFile (Ok 100%Z) (Ok Sample.scenario)) 100 Sample.scenario
             (match checkFiles Sample.SimpleFold Sample.CheckFilePath checkStart
                      Sample.scenario with
              | Some s => s | None => checkStart end) []).
  - vm_compute. reflexivity.
  - apply Sample_noFailure.
  - reflexivity.
  - reflexivity.
  - reflexivity.
  - vm_compute. discriminate.
  - reflexivity.
  - vm_compute. reflexivity.
  - vm_compute. reflexivity.
  - repeat (apply List.Forall_cons;
            [unfold uint64; split; [apply Z.leb_le | apply Z.ltb_lt]; reflexivity|]).
    apply List.Forall_nil.
  - intros zf name [<-|[<-|[]]] Ht; vm_compute in Ht; [|discriminate].
    eexists. split; [reflexivity|]. split; [reflexivity|]. vm_compute. discriminate.
Defined.

Lemma unzip_stops_at_stream_error_witness :
  let z := [Sample.file "a" "x"; Sample.broken "b" 5 "he" "unexpected EOF";
            Sample.file "c" "y"] in
  unzip Sample.SimpleFold Sample.CheckFilePath (Sample.world 100 z)
        "out" "some.zip" "" []
  = ([EvReadDir "out"; EvOpen "some.zip"; EvStat; EvNewReader; EvChecked None;
      EvMkdirAll "out";
      EvMkdirAll "out"; EvOpenFile "out/a"; EvZipOpen "a"; EvCopy "out/a" "x";
      EvClose "out/a";
      EvMkdirAll "out"; EvOpenFile "out/b"; EvZipOpen "b"; EvCopy "out/b" "he";
      EvClose "out/b"],
     Fail (zipError "unzip" "some.zip" (ErrOther "unexpected EOF"))).
Proof.
  intros z.
  rewrite (unzip_stops_at_stream_error Sample.SimpleFold Sample.CheckFilePath
             (Sample.world 100 z) "out" "some.zip" ""
             (os.mkFile (Ok 100%Z) (Ok z)) 100
             [Sample.file "a" "x"] [Sample.file "c" "y"]
             (Sample.broken "b" 5 "he" "unexpected EOF") "b"
             (zip.mkReader "he" (Some (ErrOther "unexpected EOF")))
             (ErrOther "unexpected EOF")
             (match checkFiles Sample.SimpleFold Sample.CheckFilePath checkStart z with
              | Some s => s | None => checkStart end) []).
  - vm_compute. reflexivity.
  - apply Sample_noFailure.
  - reflexivity.
  - reflexivity.
  - reflexivity.
  - vm_compute. discriminate.
  - reflexivity.
  - vm_compute. reflexivity.
  - vm_compute. reflexivity.
  - repeat (apply List.Forall_cons;
            [unfold uint64; split; [apply Z.leb_le | apply Z.ltb_lt]; reflexivity|]).
    apply List.Forall_nil.
  - intros zf name [<-|[]] Ht.
    eexists. split; [reflexivity|]. split; [reflexivity|]. vm_compute. discriminate.
  - reflexivity.
  - reflexivity.
  - reflexivity.
  - vm_compute. discriminate.
Defined.

Lemma unzip_no_prefix_match_witness :
  unzip Sample.SimpleFold Sample.CheckFilePath (Sample.world 100 Sample.scenario)
        "out" "some.zip" "a/b.txt" []
  = ([EvReadDir "out"; EvOpen "some.zip"; EvStat; EvNewReader; EvChecked None;
      EvMkdirAll "out"],
     Fail (zipError "unzip" "some.zip" (ErrNoPrefixMatch "a/b.txt"))).
Proof.
  apply (unzip_no_prefix_match Sample.SimpleFold Sample.CheckFilePath
           (Sample.world 100 Sample.scenario) "out" "some.zip" "a/b.txt"
           (os.mkFile (Ok 100%Z) (Ok Sample.scenario)) 100 Sample.scenario
           (match checkFiles Sample.SimpleFold Sample.CheckFilePath checkStart
                    Sample.scenario with
            | Some s => s | None => checkStart end) []).
  - apply Sample_noFailure.
  - reflexivity.
  - reflexivity.
  - reflexivity.
  - vm_compute. discriminate.
  - reflexivity.
  - vm_compute. reflexivity.
  - vm_compute. reflexivity.
  - discriminate.
  - intros zf [<-|[<-|[]]] Hd; [reflexivity | discriminate].
Defined.

Lemma unzip_target_not_empty_witness :
  let W := {| ReadDir := fun _ => 2%nat;
              OsOpen := fun _ => Fail (ErrOther "not opened");
              MkdirAll := fun _ _ => None; OpenFile := fun _ _ => None;
              Write := fun _ _ _ => None; Close := fun _ _ => None |} in
  unzip Sample.SimpleFold Sample.CheckFilePath W "out" "some.zip" "" []
  = ([EvReadDir "out"], Fail (zipError "unzip" "some.zip" (ErrTargetNotEmpty "out"))).
Proof.
  intros W.
  apply (unzip_target_not_empty Sample.SimpleFold Sample.CheckFilePath W
           "out" "some.zip" "" []).
  cbn. lia.
Defined.

Lemma run_hash_mismatch_witness :
  run Sample.SimpleFold Sample.CheckFilePath (Sample.world 100 Sample.scenario)
      ["some.zip"; "h1:expected"; "out"] []
  = ([EvHashZip "some.zip";
      EvCompareHash "h1:JekT5fRrO3oztIo1nAmJ99q/+/D4RuyASHq3wVC+4ps=" "h1:expected"],
     Fail (ErrHashMismatch "h1:JekT5fRrO3oztIo1nAmJ99q/+/D4RuyASHq3wVC+4ps="
                           "h1:expected")).
Proof.
  apply (run_hash_mismatch Sample.SimpleFold Sample.CheckFilePath
           (Sample.world 100 Sample.scenario)
           ["some.zip"; "h1:expected"; "out"]
           "h1:JekT5fRrO3oztIo1nAmJ99q/+/D4RuyASHq3wVC+4ps=" []).
  - now left.
  - vm_compute. reflexivity.
  - discriminate.
Defined.

Lemma run_hands_over_witness :
  let hash := "h1:JekT5fRrO3oztIo1nAmJ99q/+/D4RuyASHq3wVC+4ps=" in
  run Sample.SimpleFold Sample.CheckFilePath (Sample.world 100 Sample.scenario)
      ["some.zip"; hash; "out"] []
  = unzip Sample.SimpleFold Sample.CheckFilePath (Sample.world 100 Sample.scenario)
      "out" "some.zip" "" [EvHashZip "some.zip"; EvCompareHash hash hash].
Proof.
  intros hash.
  apply (run_hands_over Sample.SimpleFold Sample.CheckFilePath
           (Sample.world 100 Sample.scenario) ["some.zip"; hash; "out"] []).
  - now left.
  - vm_compute. reflexivity.
Defined.

(** ** A name joined to the target *)

Module JoinFacts.
Import Str Path Elements PathFacts CleanFacts.

Local Abbreviation chars := list_ascii_of_string.

Lemma sep_app (t : string) : "/" ++ t = String slash t.
Proof. reflexivity. Qed.

Lemma atEnd_app_sep (s t : string) : atEnd (s ++ String slash t) = atEnd s.
Proof. destruct s; reflexivity. Qed.

Lemma dotdot_app_sep (c : ascii) (s t : string) :
  Ascii.eqb c dot && headIs dot (s ++ String slash t)
    && atEnd (tail (s ++ String slash t))
  = Ascii.eqb c dot && headIs dot s && atEnd (tail s).
Proof.
  destruct s as [|d s].
  - rewrite app_nil. cbn [headIs tail atEnd].
    change (Ascii.eqb slash dot) with false. now rewrite !andb_false_r.
  - rewrite app_cons. cbn [headIs tail]. now rewrite atEnd_app_sep.
Qed.

Lemma copyElem_app_sep (s t : string) (out : list ascii) :
  forall rest out2, copyElem s out = (rest, out2) ->
    copyElem (s ++ String slash t) out = (rest ++ String slash t, out2).
Proof.
  revert out. induction s as [|c s IH]; intros out rest out2 H.
  - inversion H; subst. reflexivity.
  - rewrite app_cons. simpl in *. destruct (Ascii.eqb c slash).
    + inversion H; subst. reflexivity.
    + now apply IH.
Qed.

(** Elements that are neither empty nor [.] nor [..], after any path: the
    loop of [Clean] leaves them as they are, behind what it made of the
    path before them. *)
Lemma cleanLoop_then (rooted : bool) (t : string) :
  tidy false (segments t) = true ->
  forall fuel s out dd, (String.length s <= fuel)%nat ->
    forall fuel', (String.length s + S (String.length t) <= fuel')%nat ->
      cleanLoop fuel' rooted (s ++ String slash t) out dd
      = (rev (chars t) ++ withSep rooted (cleanLoop fuel rooted s out dd))%list.
Proof.
  intros Ht fuel s out dd H.
  pattern s, out, dd, (cleanLoop fuel rooted s out dd).
  apply cleanLoop_ind; [..|exact H]; clear - Ht.
  - intros out dd [|f] Hf; [simpl in Hf; lia|].
    rewrite app_nil. cbn [cleanLoop]. rewrite Ascii.eqb_refl.
    pose proof (cleanLoop_cleans rooted f t out dd ltac:(simpl in Hf; lia)) as Hc.
    destruct (cleans_tidy _ _ _ _ _ Hc false ltac:(discriminate)) as [Hx _].
    now apply Hx.
  - intros s1 out dd R IH [|f] Hf; simpl in Hf; [lia|].
    rewrite app_cons. cbn [cleanLoop]. rewrite Ascii.eqb_refl. apply IH. lia.
  - intros s1 out dd R E IH [|f] Hf; simpl in Hf; [lia|].
    rewrite app_cons. cbn [cleanLoop]. change (Ascii.eqb dot slash) with false.
    cbv iota. rewrite Ascii.eqb_refl, atEnd_app_sep, E. cbn [andb].
    apply IH. lia.
  - intros s2 out dd R E Hdd IH [|f] Hf; simpl in Hf; [lia|].
    rewrite !app_cons. cbn [cleanLoop]. change (Ascii.eqb dot slash) with false.
    cbv iota. cbn [atEnd headIs tail]. change (Ascii.eqb dot slash) with false.
    rewrite Ascii.eqb_refl, atEnd_app_sep, E. cbn [andb].
    destruct (Nat.ltb_spec dd (length out)); [|lia]. apply IH. lia.
  - intros s2 out dd R E Hdd -> out2 IH [|f] Hf; simpl in Hf; [lia|].
    rewrite !app_cons. cbn [cleanLoop]. change (Ascii.eqb dot slash) with false.
    cbv iota. cbn [atEnd headIs tail]. change (Ascii.eqb dot slash) with false.
    rewrite Ascii.eqb_refl, atEnd_app_sep, E. cbn [andb negb].
    destruct (Nat.ltb_spec dd (length out)); [lia|]. apply IH. lia.
  - intros s2 out dd R E Hdd -> IH [|f] Hf; simpl in Hf; [lia|].
    rewrite !app_cons. cbn [cleanLoop]. change (Ascii.eqb dot slash) with false.
    cbv iota. cbn [atEnd headIs tail]. change (Ascii.eqb dot slash) with false.
    rewrite Ascii.eqb_refl, atEnd_app_sep, E. cbn [andb negb].
    destruct (Nat.ltb_spec dd (length out)); [lia|]. apply IH. lia.
  - intros c s1 out dd rest out2 R Hc E1 E2 E3 IH [|f] Hf; simpl in Hf; [lia|].
    rewrite app_cons. cbn [cleanLoop].
    destruct (Ascii.eqb_spec c slash); [contradiction|].
    rewrite atEnd_app_sep, E1, dotdot_app_sep, E2.
    rewrite <- app_cons. rewrite (copyElem_app_sep _ _ _ _ _ E3).
    apply IH. apply copyElem_first in E3 as [E3 _]; [lia | assumption].
Qed.

Lemma string_of_list_ascii_app (a b : list ascii) :
  string_of_list_ascii (a ++ b) = string_of_list_ascii a ++ string_of_list_ascii b.
Proof.
  induction a as [|x a IH]; [now rewrite app_nil|].
  cbn [app string_of_list_ascii]. now rewrite app_cons, IH.
Qed.

Lemma ofRev_then (t : string) (X : list ascii) :
  ofRev (rev (chars t) ++ X) = ofRev X ++ t.
Proof.
  unfold ofRev. rewrite rev_app_distr, rev_involutive, string_of_list_ascii_app.
  now rewrite string_of_list_ascii_of_string.
Qed.

Lemma ofRev_cons (c : ascii) (X : list ascii) :
  ofRev (c :: X) = ofRev X ++ String c "".
Proof. unfold ofRev. cbn [rev]. now rewrite string_of_list_ascii_app. Qed.

Lemma tidy_weaken (l : list string) : tidy false l = true -> tidy true l = true.
Proof.
  destruct l as [|x l]; [reflexivity|]. cbn [tidy].
  destruct (String.eqb x ".."); [discriminate | auto].
Qed.

(** A path whose elements are neither empty nor [.] nor [..] is not empty,
    is relative and has the clean shape. *)
Lemma tidy_shape (t : string) :
  tidy false (segments t) = true ->
  t <> "" /\ headIs slash t = false /\ isClean t = true.
Proof.
  intros Ht. destruct t as [|c t]; [discriminate|].
  split; [discriminate|]. cbn [headIs]. unfold isClean.
  destruct (Ascii.eqb_spec c slash) as [->|Hc].
  - rewrite segments_slash in Ht. discriminate.
  - split; [reflexivity|]. rewrite (tidy_weaken _ Ht). apply orb_true_r.
Qed.

Lemma tidy_suffix (l1 l2 : list string) :
  tidy false (l1 ++ l2)%list = true -> tidy false l2 = true.
Proof.
  induction l1 as [|x l1 IH]; [auto|]. cbn [app tidy].
  destruct (String.eqb x ".."); [discriminate|].
  intros H. apply andb_true_iff in H as [_ H]. auto.
Qed.

Lemma segments_app_sep (s t : string) :
  segments (s ++ String slash t) = (segments s ++ segments t)%list.
Proof.
  induction s as [|c s IH]; [reflexivity|]. rewrite app_cons.
  destruct (Ascii.eqb_spec c slash) as [->|Hc].
  - rewrite !segments_slash, IH. reflexivity.
  - destruct (segments_cons c s Hc) as (x & l & Hx & ->).
    destruct (segments_cons c (s ++ String slash t) Hc) as (x' & l' & Hx' & ->).
    rewrite IH, Hx in Hx'. cbn [app] in Hx'. inversion Hx'; subst. reflexivity.
Qed.

Lemma HasPrefix_split (p : string) :
  forall s, HasPrefix s p = true -> s = p ++ TrimPrefix s p.
Proof.
  unfold TrimPrefix. induction p as [|a p IH]; intros s H.
  - cbn [HasPrefix String.length]. rewrite Nat.sub_0_r, app_nil.
    destruct s; [reflexivity|]. cbn [String.substring String.length].
    now rewrite substring_all.
  - rewrite H. destruct s as [|b s]; [discriminate|]. cbn [HasPrefix] in H.
    apply andb_true_iff in H as [Hab Hs]. apply Ascii.eqb_eq in Hab as <-.
    specialize (IH s Hs). rewrite Hs in IH.
    rewrite app_cons. cbn [String.length String.substring Nat.sub]. now f_equal.
Qed.

(** The files of an extraction are the target, cleaned, with the name of
    the entry behind it: [base] is empty when the target is empty or the
    current directory, ["/"] when the target is the root, and the cleaned
    target with a separator otherwise. *)
Lemma Join_base (dir : string) :
  exists base,
    ((base = "" /\ (dir = "" \/ Clean dir = ".")) \/
     (base = "/" /\ Clean dir = "/") \/
     base = Clean dir ++ "/") /\
    forall name, tidy false (segments name) = true -> Join dir name = base ++ name.
Proof.
  assert (forall name X, name <> "" ->
            match (rev (chars name) ++ X)%list with
            | [] => "."
            | _ => ofRev (rev (chars name) ++ X)
            end = ofRev X ++ name) as Hout.
  { intros name X Hne. rewrite <- ofRev_then.
    destruct (rev (chars name) ++ X)%list eqn:E; [|reflexivity].
    apply (f_equal (@length ascii)) in E.
    rewrite length_app, length_rev, length_chars in E.
    destruct name; [contradiction | cbn in E; lia]. }
  destruct dir as [|c d].
  { exists "". split; [left; auto|]. intros name Ht.
    destruct (tidy_shape name Ht) as (Hne & _ & Hc).
    unfold Join. cbn [String.eqb negb]. apply String.eqb_neq in Hne. rewrite Hne.
    cbn [negb]. rewrite app_nil. now apply Clean_fixed. }
  assert (forall name, Join (String c d) name
                       = Clean (String c (d ++ String slash name))) as HJ.
  { intros name. unfold Join. cbn [String.eqb negb].
    now rewrite sep_app, app_cons. }
  destruct (Ascii.eqb c slash) eqn:Hc.
  - pose proof (RootedFacts.cleanLoop_rooted (String.length d) d [slash] 1
                  ltac:(lia) ltac:(discriminate) eq_refl ltac:(lia)) as [Hne Hlast].
    assert (Clean (String c d)
            = ofRev (cleanLoop (String.length d) true d [slash] 1)) as HC.
    { unfold Clean. rewrite Hc. cbn [tail].
      rewrite (cleanLoop_fuel true _ (String.length d)) by (cbn; lia).
      destruct (cleanLoop _ true d [slash] 1); [contradiction | reflexivity]. }
    assert (forall name, tidy false (segments name) = true ->
              Join (String c d) name
              = ofRev (withSep true (cleanLoop (String.length d) true d [slash] 1))
                  ++ name) as Hjoin.
    { intros name Ht. rewrite HJ. unfold Clean. rewrite Hc. cbn [tail].
      rewrite (cleanLoop_then true name Ht (String.length d) d [slash] 1);
        [| lia | cbn; rewrite length_append; cbn; lia].
      apply Hout. apply (tidy_shape name Ht). }
    destruct (cleanLoop (String.length d) true d [slash] 1) as [|x [|y R]] eqn:ER;
      [contradiction | |].
    + cbn in Hlast. subst x. exists "/". split; [right; left; auto|]. exact Hjoin.
    + exists (Clean (String c d) ++ "/"). split; [right; right; reflexivity|].
      intros name Ht. rewrite (Hjoin name Ht), HC. unfold withSep. cbn [length].
      cbn [andb orb negb Nat.eqb]. now rewrite ofRev_cons.
  - assert (forall name, tidy false (segments name) = true ->
              Join (String c d) name
              = ofRev (withSep false
                         (cleanLoop (String.length (String c d)) false (String c d) [] 0))
                  ++ name) as Hjoin.
    { intros name Ht. rewrite HJ. unfold Clean. rewrite Hc.
      rewrite <- app_cons.
      rewrite (cleanLoop_then false name Ht (String.length (String c d))
                 (String c d) [] 0);
        [| lia | rewrite length_append; cbn; lia].
      apply Hout. apply (tidy_shape name Ht). }
    assert (Clean (String c d)
            = match cleanLoop (String.length (String c d)) false (String c d) [] 0 with
              | [] => "."
              | out => ofRev out
              end) as HC
        by (unfold Clean; rewrite Hc;
            destruct (cleanLoop _ false (String c d) [] 0); reflexivity).
    destruct (cleanLoop (String.length (String c d)) false (String c d) [] 0)
      as [|x R] eqn:ER.
    + exists "". split; [left; split; [reflexivity | right; exact HC]|]. exact Hjoin.
    + exists (Clean (String c d) ++ "/"). split; [right; right; reflexivity|].
      intros name Ht. rewrite (Hjoin name Ht), HC. unfold withSep. cbn [length].
      cbn [andb orb negb Nat.eqb]. now rewrite ofRev_cons.
Qed.

End JoinFacts.

(** ** Where an extraction writes *)

Section EmitsOk.

Context {A B : Type} (P : Event -> Prop).

(** The calls of [m] followed by [k], when [k] is looked at only on what
    [m] can return. *)
Lemma emits_bind_ok (m : M A) (k : A -> M B) :
  emits P m -> (forall a h, snd (m h) = Ok a -> emits P (k a)) -> emits P (bind m k).
Proof.
  intros Hm Hk h. unfold bind. destruct (Hm h) as (evs & He & Hp).
  destruct (m h) as [h' [a| |]] eqn:E; cbn [fst] in He; subst h'.
  - destruct (Hk a h ltac:(now rewrite E) (h ++ evs)%list) as (evs' & He' & Hp').
    exists (evs ++ evs')%list. rewrite He', app_assoc.
    split; [reflexivity | now apply Forall_app].
  - exists evs. auto.
  - exists evs. auto.
Qed.

End EmitsOk.

Section StaysUnder.
Import Elements.

Variable SimpleFold : Z -> Z.
Variable CheckFilePath : string -> option error.
Variable W : World.

Local Abbreviation checkName := (checkName CheckFilePath).
Local Abbreviation checkFile := (checkFile SimpleFold CheckFilePath).
Local Abbreviation checkFiles := (checkFiles SimpleFold CheckFilePath).
Local Abbreviation checkZip := (checkZip SimpleFold CheckFilePath).
Local Abbreviation extract := (extract W).
Local Abbreviation extractAll := (extractAll W).
Local Abbreviation unzip := (unzip SimpleFold CheckFilePath W).

Lemma append_assoc (a b c : string) : (a ++ b) ++ c = a ++ (b ++ c).
Proof.
  induction a as [|x a IH]; [now rewrite !PathFacts.app_nil|].
  now rewrite !PathFacts.app_cons, IH.
Qed.

Lemma tidy_plain (name : string) :
  tidy false (segments name) = true -> plain name.
Proof.
  intros Ht. destruct (CleanFacts.tidy_no_dot _ _ Ht) as [H1 H2].
  pose proof (CleanFacts.tidy_dotdot _ Ht) as H3. unfold plain.
  repeat split;
    match goal with |- hasSegment ?x name = false =>
      destruct (hasSegment x name) eqn:E; [|reflexivity];
      apply CleanFacts.hasSegment_In in E; contradiction
    end.
Qed.

(** With a [CheckFilePath] that refuses them, a name that passed the
    checks has no element that is empty, [.] or [..]. *)
Lemma checkName_tidy (p : string) :
  plainOnly CheckFilePath -> checkName p = None ->
  tidy false (segments p) = true.
Proof.
  intros Hplain H. unfold Main.checkName in H.
  destruct (String.eqb_spec (Path.Clean p) p) as [Hc|]; [|discriminate].
  cbn [negb] in H. destruct (Hplain p H) as (Hrel & Hdot & Hdd).
  apply CleanFacts.Clean_fixed in Hc. destruct p as [|c p]; [discriminate|].
  unfold isClean in Hc. cbn [Str.headIs] in Hrel. rewrite Hrel in Hc.
  destruct (String.eqb_spec (String c p) ".") as [E|_].
  { rewrite E in Hdot. discriminate. }
  cbn [orb] in Hc.
  destruct (segments (String c p)) as [|x l] eqn:Es; [reflexivity|].
  cbn [tidy] in Hc |- *. destruct (String.eqb_spec x "..") as [->|_]; [|exact Hc].
  unfold hasSegment in Hdd. rewrite Es in Hdd. cbn in Hdd. discriminate.
Qed.

(** After a pass that recorded no invalid entry, every name passed the
    checks. *)
Lemma validated_names (z : list zip.File) :
  forall st st', checkFiles st z = Some st' ->
    length (CheckedFiles.Invalid (cf st')) = length (CheckedFiles.Invalid (cf st)) ->
    forall zf, In zf z -> checkName (entryName zf) = None.
Proof.
  induction z as [|zf0 z IH]; intros st st' H Hlen zf Hin; [destruct Hin|].
  cbn [Main.checkFiles] in H.
  destruct (checkFile st zf0) as [st1|] eqn:H1; [|discriminate].
  pose proof (checkFile_registry SimpleFold CheckFilePath _ _ _ H1) as (_ & Ha & _).
  pose proof (checkFiles_registry SimpleFold CheckFilePath _ _ _ H) as (_ & Hb & _).
  destruct Hin as [->|Hin].
  - unfold Main.checkFile in H1.
    destruct (checkName (entryName zf)) as [err|]; [|reflexivity].
    inversion H1; subst st1. cbn in Hb. rewrite length_app in Hb. cbn in Hb. lia.
  - eapply (IH st1 st'); eauto. lia.
Qed.

(** The name under which an entry is written is the name of the entry or
    what follows the prefix in it. *)
Lemma target_tidy (prefix : string) (zf : zip.File) (name : string) :
  tidy false (segments (entryName zf)) = true ->
  target prefix zf = Some name ->
  tidy false (segments name) = true.
Proof.
  unfold target, entryName, entryIsDir. intros Ht H.
  destruct (String.eqb (zip.Name zf) ""); [discriminate|].
  destruct (Str.HasSuffixSlash (zip.Name zf)); [discriminate|]. cbn [orb] in H.
  destruct (negb (String.eqb prefix "")); [|now inversion H; subst].
  destruct (Str.HasPrefix (zip.Name zf) (prefix ++ "/")) eqn:Hp; [|discriminate].
  cbn [negb] in H. inversion H; subst name.
  apply JoinFacts.HasPrefix_split in Hp.
  rewrite append_assoc, JoinFacts.sep_app in Hp.
  rewrite Hp, JoinFacts.segments_app_sep in Ht.
  now apply JoinFacts.tidy_suffix in Ht.
Qed.

Lemma emits_extract_onFile (dir name : string) (zf : zip.File) :
  emits (onFile (Join dir name)) (extract dir name zf).
Proof.
  assert (onFile (Join dir name) (EvMkdirAll (Path.Dir (Join dir name)))) as Hmk
      by (split; intros d Hd; [discriminate | now inversion Hd]).
  assert (onFile (Join dir name) (EvOpenFile (Join dir name))) as Hop
      by (split; intros d Hd; [now inversion Hd | discriminate]).
  assert (onFile (Join dir name) (EvClose (Join dir name))) as Hcl
      by (split; intros d Hd; [now inversion Hd | discriminate]).
  assert (forall data, onFile (Join dir name) (EvCopy (Join dir name) data)) as Hcp
      by (split; intros d Hd; [now inversion Hd | discriminate]).
  assert (forall n, onFile (Join dir name) (EvZipOpen n)) as Hzo
      by (split; intros d Hd; discriminate).
  unfold Main.extract.
  apply emits_bind.
  { unfold mkdirAll. apply emits_bind; [apply emits_history|]. intros h.
    apply emits_bind; [now apply emits_emit|]. intros _. apply emits_orFail. }
  intros _. apply emits_bind.
  { unfold openFile. apply emits_bind; [apply emits_history|]. intros h.
    apply emits_bind; [now apply emits_emit|]. intros _. apply emits_orFail. }
  intros _. apply emits_bind; [now apply emits_emit|]. intros _.
  assert (emits (onFile (Join dir name)) (close W (Join dir name))) as Hclose.
  { unfold close. apply emits_bind; [apply emits_history|]. intros h.
    apply emits_bind; [now apply emits_emit|]. intros _. apply emits_orFail. }
  destruct (zip.Open zf) as [r|e|].
  - destruct (limited _ r) as [[data rerr] n].
    apply emits_bind.
    { apply emits_errOf. unfold copy. destruct (String.eqb data ""); [apply emits_ret|].
      apply emits_bind; [apply emits_history|]. intros h.
      apply emits_bind; [now apply emits_emit|]. intros _. apply emits_orFail. }
    intros werr. destruct (match werr with Some e => Some e | None => rerr end).
    + apply emits_bind; [apply emits_errOf, Hclose|]. intros _. apply emits_fail.
    + apply emits_bind; [apply Hclose|]. intros _.
      destruct (n <=? 0)%Z; [apply emits_fail | apply emits_ret].
  - apply emits_bind; [apply emits_errOf, Hclose|]. intros _. apply emits_fail.
  - apply emits_diverge.
Qed.

Lemma emits_extractAll_onFile (dir prefix : string) (z : list zip.File) :
  forall pm,
    emits (fun e => fileOf e = None /\ dirOf e = None \/
                    exists zf name, In zf z /\ target prefix zf = Some name /\
                                    onFile (Join dir name) e)
          (extractAll dir prefix z pm).
Proof.
  induction z as [|zf z IH]; intros pm; [apply emits_ret|].
  rewrite extractAll_cons.
  assert (forall pm', emits (fun e => fileOf e = None /\ dirOf e = None \/
            exists zf' name, In zf' (zf :: z) /\ target prefix zf' = Some name /\
                             onFile (Join dir name) e)
            (extractAll dir prefix z pm')) as Hrest.
  { intros pm'. eapply emits_weaken; [|apply IH].
    intros e [He | (zf' & name & Hin & Ht & He)]; [now left|].
    right. exists zf', name. split; [now right | auto]. }
  destruct (target prefix zf) as [name|] eqn:Ht; [|apply Hrest].
  apply emits_bind; [|intros _; apply Hrest].
  eapply emits_weaken; [|apply emits_extract_onFile].
  intros e He. right. exists zf, name. split; [now left | auto].
Qed.

Lemma emits_checkZip (P : Event -> Prop) (f : os.File) :
  P EvStat -> P EvNewReader -> (forall e, P (EvChecked e)) -> emits P (checkZip f).
Proof.
  intros H1 H2 H3 h.
  destruct (checkZip_shape SimpleFold CheckFilePath f h) as (evs & r & Hrun & Hc).
  exists evs. rewrite Hrun. split; [reflexivity|].
  destruct Hc as [(z & _ & ->) | (_ & [-> | [-> | [e ->]]])]; repeat constructor; auto.
Qed.

(** [checkZip] returns the entries only of an archive that passed the
    validation. *)
Lemma checkZip_ok (f : os.File) (h : list Event) (z : list zip.File) :
  snd (checkZip f h) = Ok z ->
  exists st, os.NewReader f = Ok z /\
             checkFiles checkStart z = Some st /\ CheckedFiles.Err (cf st) = None.
Proof.
  unfold Main.checkZip, bind, emit, lift, orFail, ret, fail, diverge.
  destruct (os.Stat f) as [zipSize|e|]; [|discriminate..].
  destruct (MaxZipFile <? zipSize)%Z; [discriminate|].
  destruct (os.NewReader f) as [z'|e|]; [|discriminate..].
  destruct (checkFiles checkStart z') as [st|] eqn:Hst; [|discriminate].
  destruct (CheckedFiles.Err (cf st)) eqn:He; [discriminate|].
  cbn. intros H. inversion H; subst. exists st; auto.
Qed.

(** X15. An extraction writes under its target only, provided
    [module.CheckFilePath] accepts no rooted path and no element [.] or
    [..]: whatever the archive and the prefix, every file that [unzip]
    creates, writes or closes is [base] followed by a path whose elements
    are neither empty nor [.] nor [..], where [base] is the cleaned target
    with a separator (nothing for an empty target or the current directory,
    the separator alone for the root); and every directory it creates is the
    target or the directory of such a file. *)
Theorem extraction_stays_under_target (dir : string) :
  plainOnly CheckFilePath ->
  exists base,
    ((base = "" /\ (dir = "" \/ Path.Clean dir = ".")) \/
     (base = "/" /\ Path.Clean dir = "/") \/
     base = Path.Clean dir ++ "/") /\
    forall zipFile prefix h,
    exists evs,
      fst (unzip dir zipFile prefix h) = (h ++ evs)%list /\
      Forall (fun e =>
                (forall d, fileOf e = Some d ->
                   exists name, plain name /\ d = base ++ name) /\
                (forall d, dirOf e = Some d ->
                   d = dir \/
                   exists name, plain name /\ d = Path.Dir (base ++ name))) evs.
Proof.
  intros Hplain. destruct (JoinFacts.Join_base dir) as (base & Hbase & Hjoin).
  exists base. split; [exact Hbase|]. intros zipFile prefix.
  set (P := fun e : Event =>
              (forall d, fileOf e = Some d ->
                 exists name, plain name /\ d = base ++ name) /\
              (forall d, dirOf e = Some d ->
                 d = dir \/
                 exists name, plain name /\ d = Path.Dir (base ++ name))).
  assert (forall e, fileOf e = None -> dirOf e = None -> P e) as Hnone
      by (intros e H1 H2; split; intros d Hd; congruence).
  assert (P (EvMkdirAll dir)) as Hdir
      by (split; intros d Hd; [discriminate | inversion Hd; now left]).
  change (emits P (unzip dir zipFile prefix)).
  unfold Main.unzip. apply emits_deferZipError.
  apply emits_bind; [apply emits_emit; now apply Hnone|]. intros _.
  destruct (0 <? ReadDir W dir)%nat; [apply emits_fail|].
  apply emits_bind; [apply emits_emit; now apply Hnone|]. intros _.
  apply emits_bind; [apply emits_lift|]. intros f.
  apply emits_bind_ok.
  { apply emits_checkZip; [now apply Hnone.. | intros e; now apply Hnone]. }
  intros z h Hz. apply checkZip_ok in Hz as (st & _ & Hst & Herr).
  assert (forall zf name, In zf z -> target prefix zf = Some name ->
            tidy false (segments name) = true) as Htidy.
  { intros zf name Hin Ht. apply (target_tidy prefix zf name); [|exact Ht].
    apply checkName_tidy; [exact Hplain|].
    apply (validated_names z checkStart st Hst); [|exact Hin].
    unfold CheckedFiles.Err in Herr.
    destruct (CheckedFiles.SizeError (cf st)); [discriminate|].
    destruct (CheckedFiles.Invalid (cf st)); [reflexivity | discriminate]. }
  apply emits_bind.
  { unfold mkdirAll. apply emits_bind; [apply emits_history|]. intros h'.
    apply emits_bind; [now apply emits_emit|]. intros _. apply emits_orFail. }
  intros _. apply emits_bind.
  { eapply emits_weaken; [|apply emits_extractAll_onFile].
    intros e [[H1 H2] | (zf & name & Hin & Ht & Hon & Hod)]; [now apply Hnone|].
    specialize (Htidy zf name Hin Ht).
    split; intros d Hd.
    - exists name. split; [now apply tidy_plain|].
      rewrite (Hon d Hd). now apply Hjoin.
    - right. exists name. split; [now apply tidy_plain|].
      rewrite (Hod d Hd). f_equal. now apply Hjoin. }
  intros pm. destruct (_ && _); [apply emits_fail | apply emits_ret].
Qed.

End StaysUnder.

Lemma Sample_plainOnly : plainOnly Sample.CheckPlainPath.
Proof.
  intros p H. unfold Sample.CheckPlainPath in H.
  destruct (Elements.hasSegment "." p); [discriminate|].
  destruct (Elements.hasSegment ".." p); [discriminate|]. cbn [orb] in H.
  split; [|auto].
  unfold Sample.CheckFilePath in H.
  destruct (String.eqb p ""); [discriminate|].
  destruct (existsb (String.eqb "") (Elements.segments p)) eqn:E; [discriminate|].
  destruct p as [|c p]; [reflexivity|]. cbn [Str.headIs].
  cbn [Elements.segments] in E. destruct (Ascii.eqb c Str.slash); [|reflexivity].
  cbn in E. discriminate.
Qed.

Lemma extraction_stays_under_target_witness :
  exists base,
    ((base = "" /\ ("out/./sub" = "" \/ Path.Clean "out/./sub" = ".")) \/
     (base = "/" /\ Path.Clean "out/./sub" = "/") \/
     base = Path.Clean "out/./sub" ++ "/") /\
    forall zipFile prefix h,
    exists evs,
      fst (unzip Sample.SimpleFold Sample.CheckPlainPath
                 (Sample.world 100 Sample.scenario) "out/./sub" zipFile prefix h)
      = (h ++ evs)%list /\
      Forall (fun e =>
                (forall d, fileOf e = Some d ->
                   exists name, plain name /\ d = base ++ name) /\
                (forall d, dirOf e = Some d ->
                   d = "out/./sub" \/
                   exists name, plain name /\ d = Path.Dir (base ++ name))) evs.
Proof.
  apply (extraction_stays_under_target Sample.SimpleFold Sample.CheckPlainPath
           (Sample.world 100 Sample.scenario) "out/./sub").
  exact Sample_plainOnly.
Defined.

(** ** The reasons for which a name is not clean *)

Module ShapeFacts.
Import Str Elements.

(** An empty element after the first one comes from two separators in a
    row or from a separator at the end. *)
Lemma empty_later (s : string) :
  In "" (tl (segments s)) -> doubleSlash s = true \/ HasSuffixSlash s = true.
Proof.
  induction s as [|c s IH]; [intros []|]. intros H.
  assert (In "" (tl (segments s)) ->
          doubleSlash (String c s) = true \/ HasSuffixSlash (String c s) = true)
    as Hrest.
  { intros Hin. destruct (IH Hin) as [Hd|Hs].
    - left. cbn [doubleSlash]. rewrite Hd. apply orb_true_r.
    - right. destruct s as [|d s]; [discriminate | exact Hs]. }
  destruct (Ascii.eqb_spec c slash) as [->|Hc].
  - rewrite CleanFacts.segments_slash in H. cbn [tl] in H.
    destruct s as [|d s]; [right; reflexivity|].
    destruct (Ascii.eqb_spec d slash) as [->|Hd].
    + left. reflexivity.
    + destruct (CleanFacts.segments_cons d s Hd) as (x & l & Hx & Heq).
      rewrite Heq in H. destruct H as [H|H]; [discriminate|].
      apply Hrest. rewrite Heq. exact H.
  - destruct (CleanFacts.segments_cons c s Hc) as (x & l & Hx & Heq).
    rewrite Heq in H. cbn [tl] in H. apply Hrest. rewrite Hx. exact H.
Qed.

(** An empty element comes from an empty path, a leading separator, two
    separators in a row or a separator at the end. *)
Lemma empty_segment (p : string) :
  In "" (segments p) ->
  p = "" \/ headIs slash p = true \/ doubleSlash p = true \/ HasSuffixSlash p = true.
Proof.
  destruct p as [|c p]; [now left|]. intros H. right.
  destruct (Ascii.eqb_spec c slash) as [->|Hc]; [left; reflexivity|]. right.
  apply empty_later.
  destruct (CleanFacts.segments_cons c p Hc) as (x & l & Hx & Heq).
  rewrite Heq in H |- *. destruct H as [H|H]; [discriminate | exact H].
Qed.

Lemma tidy_all (ok : bool) (l : list string) :
  ~ In "" l -> ~ In "." l -> ~ In ".." l -> tidy ok l = true.
Proof.
  revert ok. induction l as [|x l IH]; intros ok H1 H2 H3; [reflexivity|].
  cbn [tidy]. destruct (String.eqb_spec x "..") as [->|_]; [exfalso; apply H3; now left|].
  destruct (String.eqb_spec x "") as [->|_]; [exfalso; apply H1; now left|].
  destruct (String.eqb_spec x ".") as [->|_]; [exfalso; apply H2; now left|].
  cbn [negb andb]. apply IH; intros H; [apply H1 | apply H2 | apply H3]; now right.
Qed.

(** A name that [path.Clean] changes is empty, or has a leading, a
    redundant or a trailing separator, or an element [.] or [..]. *)
Lemma notClean_reason (p : string) :
  isClean p = false ->
  p = "" \/ headIs slash p = true \/ doubleSlash p = true \/
  HasSuffixSlash p = true \/ hasSegment "." p = true \/ hasSegment ".." p = true.
Proof.
  intros Hc.
  destruct (String.eqb_spec p "") as [|Hne]; [now left|]. right.
  destruct (headIs slash p) eqn:Hh; [now left|]. right.
  destruct (doubleSlash p) eqn:Hd; [now left|]. right.
  destruct (HasSuffixSlash p) eqn:Hs; [now left|]. right.
  destruct (hasSegment "." p) eqn:H1; [now left|]. right.
  destruct (hasSegment ".." p) eqn:H2; [reflexivity|]. exfalso.
  destruct p as [|c p]; [contradiction|]. unfold isClean in Hc.
  cbn [headIs] in Hh. rewrite Hh in Hc.
  apply orb_false_iff in Hc as [_ Hc].
  rewrite tidy_all in Hc; [discriminate| | |].
  - intros Hin. apply empty_segment in Hin as [Hx|[Hx|[Hx|Hx]]];
      [discriminate | cbn [headIs] in Hx | |]; congruence.
  - intros Hin. apply CleanFacts.hasSegment_In in Hin. congruence.
  - intros Hin. apply CleanFacts.hasSegment_In in Hin. congruence.
Qed.

End ShapeFacts.

Section NameClaims.

Variable CheckFilePath : string -> option error.

Local Abbreviation checkName := (checkName CheckFilePath).

(** C5 (amended).  With a [module.CheckFilePath] that accepts no path that
    starts with a separator, no element [.] or [..] and no byte outside the
    safe set, the checks of the name reject [p] if and only if [p] has one
    of the four reasons listed (a [..] element, a leading separator, a
    redundant separator, a byte outside the safe set), or [p] is empty, has
    a [.] element or ends with a separator, or [module.CheckFilePath]
    rejects [p] for a reason of its own; they accept [p] in every other
    case.  Each of the four reasons listed is enough for a rejection.  The
    checks accept [p] if and only if [p] has the clean shape, which is what
    [path.Clean(p) == p] tests, and [module.CheckFilePath] accepts it; a
    name that is not of the clean shape is rejected as not clean whatever
    [module.CheckFilePath] says. *)
Theorem name_checks (p : string) :
  plainOnly CheckFilePath -> safeOnly CheckFilePath ->
  (checkName p <> None <->
   Elements.listedReason p = true \/ p = "" \/ Elements.hasSegment "." p = true \/
   Str.HasSuffixSlash p = true \/ CheckFilePath p <> None) /\
  (Elements.listedReason p = true -> checkName p <> None) /\
  (checkName p = None <-> Elements.isClean p = true /\ CheckFilePath p = None) /\
  (Elements.isClean p = false -> checkName p = Some (ErrNotClean p)) /\
  (p = "" \/ Elements.doubleSlash p = true \/
   (Elements.hasSegment "." p = true /\ p <> ".") \/
   (Str.HasSuffixSlash p = true /\ p <> "/") \/
   (Str.headIs Str.slash p = true /\ Elements.hasSegment ".." p = true) ->
   checkName p = Some (ErrNotClean p)).
Proof.
  intros Hplain Hsafe.
  assert (Elements.isClean p = false -> checkName p = Some (ErrNotClean p)) as Hrej.
  { intros Hc. unfold Main.checkName.
    destruct (String.eqb_spec (Path.Clean p) p) as [Heq|Hne]; [|reflexivity].
    apply CleanFacts.Clean_fixed in Heq. congruence. }
  assert (checkName p = None <-> Elements.isClean p = true /\ CheckFilePath p = None)
    as Hacc.
  { unfold Main.checkName.
    destruct (String.eqb_spec (Path.Clean p) p) as [Heq|Hne]; cbn [negb].
    + apply CleanFacts.Clean_fixed in Heq. tauto.
    + split; [discriminate|]. intros [Hc _].
      apply CleanFacts.Clean_fixed in Hc. contradiction. }
  assert (Elements.listedReason p = true \/ p = "" \/ Elements.hasSegment "." p = true \/
          Str.HasSuffixSlash p = true \/ CheckFilePath p <> None ->
          checkName p <> None) as Hback.
  { intros H Hnone. apply Hacc in Hnone as [Hc Hf].
    destruct (Hplain p Hf) as (Hrel & Hdot & Hdd). specialize (Hsafe p Hf).
    destruct (CleanFacts.isClean_shape p Hc) as (H1 & H2 & H3 & H4 & H5).
    destruct H as [H | [H | [H | [H | H]]]].
    - unfold Elements.listedReason in H. rewrite Hdd, Hrel, H2, Hsafe in H.
      discriminate.
    - contradiction.
    - congruence.
    - rewrite (H4 H) in Hrel. discriminate.
    - contradiction. }
  split; [split; [|exact Hback]|].
  - intros Hne. destruct (Elements.isClean p) eqn:Hc.
    + right. right. right. right. intros Hf. apply Hne. apply Hacc. auto.
    + unfold Elements.listedReason.
      destruct (ShapeFacts.notClean_reason p Hc) as [H|[H|[H|[H|[H|H]]]]].
      * right. now left.
      * left. rewrite H. now rewrite orb_true_r.
      * left. rewrite H. now rewrite !orb_true_r.
      * right. right. right. now left.
      * right. right. now left.
      * left. rewrite H. reflexivity.
  - split; [intros H; apply Hback; now left|].
    split; [exact Hacc|]. split; [exact Hrej|].
    intros H. apply Hrej.
    destruct (Elements.isClean p) eqn:Hc; [|reflexivity]. exfalso.
    destruct (CleanFacts.isClean_shape p Hc) as (H1 & H2 & H3 & H4 & H5).
    destruct H as [H | [H | [[H H'] | [[H H'] | [H H']]]]].
    + contradiction.
    + congruence.
    + auto.
    + auto.
    + rewrite (H5 H) in H'. discriminate.
Qed.

End NameClaims.

Lemma Sample_safeOnly : safeOnly Sample.CheckPlainPath.
Proof.
  intros p H. unfold Sample.CheckPlainPath, Sample.CheckFilePath in H.
  destruct (_ || _); [discriminate|].
  destruct (String.eqb p ""); [discriminate|].
  destruct (existsb _ _); [discriminate|].
  destruct (existsb _ _); [discriminate|].
  destruct (Elements.allBytes Elements.safeByte p); [reflexivity | discriminate].
Qed.

Lemma name_checks_witness :
  checkName Sample.CheckPlainPath "a/b.txt" = None /\
  checkName Sample.CheckPlainPath "../etc/passwd" <> None /\
  checkName Sample.CheckPlainPath "/a" <> None /\
  checkName Sample.CheckPlainPath "a:b" <> None /\
  checkName Sample.CheckPlainPath "a//b" = Some (ErrNotClean "a//b") /\
  checkName Sample.CheckPlainPath "/a/../b" = Some (ErrNotClean "/a/../b").
Proof.
  pose proof (fun p => name_checks Sample.CheckPlainPath p
                         Sample_plainOnly Sample_safeOnly) as H.
  split; [|split; [|split; [|split; [|split]]]].
  - apply (proj1 (proj2 (proj2 (H "a/b.txt")))). split; reflexivity.
  - apply (proj1 (proj2 (H "../etc/passwd"))). reflexivity.
  - apply (proj1 (proj2 (H "/a"))). reflexivity.
  - apply (proj1 (proj2 (H "a:b"))). reflexivity.
  - apply (proj1 (proj2 (proj2 (proj2 (H "a//b"))))). reflexivity.
  - apply (proj2 (proj2 (proj2 (proj2 (H "/a/../b"))))).
    right. right. right. right. split; reflexivity.
Defined.

(** C5, as stated, fails on a name with a [.] element: ["a/./b"] has no
    [..] element, no leading and no redundant separator and no byte outside
    the safe set, and it is rejected, whatever [module.CheckFilePath]
    accepts.  So is the empty name. *)
Lemma name_checks_counterexample :
  Elements.listedReason "a/./b" = false /\
  (forall CheckFilePath, checkName CheckFilePath "a/./b" = Some (ErrNotClean "a/./b")) /\
  Elements.listedReason "" = false /\
  (forall CheckFilePath, checkName CheckFilePath "" = Some (ErrNotClean "")).
Proof. repeat split. Qed.

(** The table of the documentation of [path.Clean], and other paths. *)
Example Clean_table :
  map Path.Clean
    [ "a/c"; "a//c"; "a/c/."; "a/c/b/.."; "/../a/c"; "/../a/b/../././/c"; "";
      "abc/def/../../.."; "/abc/def/../../.."; "../abc"; "abc//./../def";
      "abc/def/../../../ghi/jkl/../../../mno"; "abc/../../././../def";
      "/"; "//"; "a/"; "."; "./"; ".."; "/a"; "a/./b"; "..a/.b."; "a/..." ]
  = [ "a/c"; "a/c"; "a/c"; "a/c"; "/a/c"; "/a/c"; ".";
      ".."; "/"; "../abc"; "def";
      "../../mno"; "../../def";
      "/"; "/"; "a"; "."; "."; ".."; "/a"; "a/b"; "..a/.b."; "a/..." ].
Proof. vm_compute. reflexivity. Qed.

Example Dir_table :
  map Path.Dir ["/a/b"; "a/b"; "a"; ""; "/"; "abc/def/"; "a/"; "////"; "a/b/c"; "../a"; "/a"]
  = ["/a"; "a"; "."; "."; "/"; "abc/def"; "a"; "/"; "a/b"; ".."; "/"].
Proof. vm_compute. reflexivity. Qed.

Example strToFold_table :
  map (strToFold Sample.SimpleFold) ["Foo.TXT"; "foo.txt"; "a/B/c"]
  = ["foo.txt"; "foo.txt"; "a/b/c"].
Proof. vm_compute. reflexivity. Qed.

(** A rooted path makes [check] recurse on ["/"] for ever. *)
Example check_rooted :
  check Sample.SimpleFold 50 ∅ "/a" false = None.
Proof. vm_compute. reflexivity. Qed.

(** ** The texts of the errors *)

Section TextFacts.

Variable Quote : string -> string.

Local Abbreviation Error := (Messages.Error Quote).
Local Abbreviation FileErrorText := (Messages.FileErrorText Quote).
Local Abbreviation nl := (String Str.newline "").

Lemma concat_sep (x : string) (l : list string) :
  String.concat nl (x :: l) = x ++ fold_right (fun y acc => nl ++ y ++ acc) "" l.
Proof.
  revert x. induction l as [|y l IH]; intros x.
  - cbn. symmetry. apply CleanFacts.app_empty.
  - change (String.concat nl (x :: y :: l)) with (x ++ nl ++ String.concat nl (y :: l)).
    now rewrite IH.
Qed.

(** X16. The text of a [FileErrorList] is the texts of its entries, each
    the path, a colon and the text of the reason, joined by newlines, with
    no newline at the end; the text of an empty list is empty.  It is the
    text of the error that a report with invalid entries and no size error
    gives. *)
Theorem FileErrorList_text :
  (forall el, Error (FileErrorList el) = String.concat nl (map FileErrorText el)) /\
  (forall path err, FileErrorText (mkFileError path err) = path ++ ": " ++ Error err) /\
  (forall c, CheckedFiles.SizeError c = None -> CheckedFiles.Invalid c <> [] ->
     exists e, CheckedFiles.Err c = Some e /\
               Error e = String.concat nl (map FileErrorText (CheckedFiles.Invalid c))).
Proof.
  assert (forall el, Error (FileErrorList el) = String.concat nl (map FileErrorText el))
    as Hjoin.
  { intros el. cbn [Messages.Error].
    match goal with |- ?f el "" "" = _ => set (loop := f) end.
    assert (forall buf sep, loop [] buf sep = buf) as Hnil by reflexivity.
    assert (forall e l buf sep,
              loop (e :: l) buf sep = loop l ((buf ++ sep) ++ FileErrorText e) nl)
      as Hstep by reflexivity.
    clearbody loop.
    assert (forall l buf,
              loop l buf nl
              = buf ++ fold_right (fun y acc => nl ++ y ++ acc) "" (map FileErrorText l))
      as Hloop.
    { induction l as [|e l IH]; intros buf.
      - rewrite Hnil. symmetry. apply CleanFacts.app_empty.
      - rewrite Hstep, IH. cbn [map fold_right]. now rewrite !append_assoc. }
    destruct el as [|e el]; [apply Hnil|].
    cbn [map]. rewrite concat_sep, Hstep, Hloop. now rewrite !PathFacts.app_nil. }
  split; [exact Hjoin|]. split; [reflexivity|].
  intros c Hs Hi. exists (FileErrorList (CheckedFiles.Invalid c)). split; [|apply Hjoin].
  unfold CheckedFiles.Err. rewrite Hs.
  destruct (CheckedFiles.Invalid c); [contradiction | reflexivity].
Qed.

End TextFacts.

(** ** What the result of a run tells *)

Section ResultFacts.

Variable SimpleFold : Z -> Z.
Variable CheckFilePath : string -> option error.
Variable W : World.
Variable Quote : string -> string.

Local Abbreviation Error := (Messages.Error Quote).
Local Abbreviation checkFiles := (checkFiles SimpleFold CheckFilePath).
Local Abbreviation checkZip := (checkZip SimpleFold CheckFilePath).
Local Abbreviation unzip := (unzip SimpleFold CheckFilePath W).
Local Abbreviation run := (run SimpleFold CheckFilePath W).

(** X17. Every error that [unzip] returns is a [zipError] of the verb
    [unzip] and of the path of the zip around its cause, which [Unwrap]
    gives back; its text is the text of the cause behind
    [unzip <path of the zip>: ], or behind [unzip: ] when the path is
    empty. *)
Theorem unzip_error_text (dir zipFile prefix : string) (h : list Event) (e : error) :
  snd (unzip dir zipFile prefix h) = Fail e ->
  exists cause,
    e = zipError "unzip" zipFile cause /\
    Unwrap e = Some cause /\
    Error e = (if String.eqb zipFile "" then "unzip: "
               else "unzip " ++ zipFile ++ ": ") ++ Error cause.
Proof.
  unfold Main.unzip, deferZipError.
  match goal with |- snd (match ?m with _ => _ end) = _ -> _ =>
    destruct m as [h' [[]|cause|]] end; cbn [snd]; intros H; inversion H; subst.
  exists cause. split; [reflexivity|]. split; [reflexivity|].
  cbn [Messages.Error]. destruct (String.eqb zipFile ""); [reflexivity|].
  now rewrite !append_assoc.
Qed.

(** What the continuation of a call returned when the whole returns. *)
Lemma bind_ok {A B : Type} (m : M A) (k : A -> M B) (h h2 : list Event) (b : B) :
  bind m k h = (h2, Ok b) ->
  exists h1 a, m h = (h1, Ok a) /\ k a h1 = (h2, Ok b).
Proof.
  unfold bind. destruct (m h) as [h1 [a|e|]]; [eauto | discriminate..].
Qed.

(** X18. When [run] returns no error, the fingerprint of the zip was
    computed and, if one was expected, it is the expected one; the zip was
    opened and decoded, and its entries passed the validation with no
    invalid entry and no size error. *)
Theorem run_ok_verified (args : list string) (h tr : list Event) :
  run args h = (tr, Ok tt) ->
  exists hash f z st,
    dirhash.HashZip W (nth 0 args "") = Ok hash /\
    (length args = 1%nat \/ hash = nth 1 args "") /\
    OsOpen W (nth 0 args "") = Ok f /\
    os.NewReader f = Ok z /\
    checkFiles checkStart z = Some st /\
    CheckedFiles.Invalid (cf st) = [] /\ CheckedFiles.SizeError (cf st) = None.
Proof.
  assert (forall (f : os.File) h1 z, snd (checkZip f h1) = Ok z ->
            exists st, os.NewReader f = Ok z /\ checkFiles checkStart z = Some st /\
                       CheckedFiles.Invalid (cf st) = [] /\
                       CheckedFiles.SizeError (cf st) = None) as Hcz.
  { intros f h1 z Hz.
    apply (checkZip_ok SimpleFold CheckFilePath) in Hz as (st & Hr & Hst & Herr).
    exists st. split; [exact Hr|]. split; [exact Hst|].
    unfold CheckedFiles.Err in Herr.
    destruct (CheckedFiles.SizeError (cf st)); [discriminate|].
    destruct (CheckedFiles.Invalid (cf st)); [auto | discriminate]. }
  unfold Main.run. destruct (_ && _); [discriminate|]. intros H.
  apply bind_ok in H as (h1 & hash & Hh & H).
  rewrite hashZip_run in Hh. inversion Hh as [[Hh1 Hhash]]. clear Hh.
  destruct (length args =? 1)%nat eqn:H1.
  - apply Nat.eqb_eq in H1.
    apply bind_ok in H as (h2 & [] & _ & H).
    apply bind_ok in H as (h3 & f & Hf & H).
    apply bind_ok in H as (h4 & z & Hz & _).
    unfold lift in Hf. inversion Hf as [[Hf1 Hopen]].
    destruct (Hcz f h3 z ltac:(now rewrite Hz)) as (st & Hst).
    exists hash, f, z, st. split; [exact Hhash|]. split; [now left|].
    split; [exact Hopen | exact Hst].
  - apply bind_ok in H as (h2 & [] & _ & H).
    destruct (String.eqb_spec hash (nth 1 args "")) as [Heq|Hne]; [|discriminate].
    cbn [negb] in H. unfold Main.unzip, deferZipError in H.
    match type of H with match ?m with _ => _ end = _ =>
      destruct m as [h3 [[]|e|]] eqn:Hm; [|discriminate..] end.
    apply bind_ok in Hm as (h4 & [] & _ & Hm).
    destruct (0 <? ReadDir W (nth 2 args ""))%nat; [discriminate|].
    apply bind_ok in Hm as (h5 & [] & _ & Hm).
    apply bind_ok in Hm as (h6 & f & Hf & Hm).
    apply bind_ok in Hm as (h7 & z & Hz & _).
    unfold lift in Hf. inversion Hf as [[Hf1 Hopen]].
    destruct (Hcz f h6 z ltac:(now rewrite Hz)) as (st & Hst).
    exists hash, f, z, st. split; [exact Hhash|]. split; [now right|].
    split; [exact Hopen | exact Hst].
Qed.

End ResultFacts.

Lemma unzip_error_text_witness :
  exists e,
    snd (unzip Sample.SimpleFold Sample.CheckFilePath
               (Sample.world 100 [Sample.file "a" "x"; Sample.file "A" "y"])
               "out" "some.zip" "" []) = Fail e /\
    Messages.Error Sample.Quote e
    = String.concat ""
        ["unzip some.zip: A: case-insensitive file name collision: ";
         Sample.Quote "a"; " and "; Sample.Quote "A"].
Proof.
  eexists. split; [vm_compute; reflexivity|].
  destruct (unzip_error_text Sample.SimpleFold Sample.CheckFilePath
              (Sample.world 100 [Sample.file "a" "x"; Sample.file "A" "y"])
              Sample.Quote "out" "some.zip" "" []
              (zipError "unzip" "some.zip"
                 (FileErrorList [mkFileError "A" (ErrCollision "a" "A")])))
    as (cause & Hc & _ & Ht); [vm_compute; reflexivity|].
  rewrite Ht. inversion Hc; subst cause. vm_compute. reflexivity.
Defined.

Lemma run_ok_verified_witness :
  exists st,
    checkFiles Sample.SimpleFold Sample.CheckFilePath checkStart Sample.scenario
    = Some st /\
    CheckedFiles.Invalid (cf st) = [] /\ CheckedFiles.SizeError (cf st) = None.
Proof.
  destruct (run_ok_verified Sample.SimpleFold Sample.CheckFilePath
              (Sample.world 100 Sample.scenario)
              ["some.zip"; "h1:JekT5fRrO3oztIo1nAmJ99q/+/D4RuyASHq3wVC+4ps="; "out"; "a"]
              []
              [EvHashZip "some.zip";
               EvCompareHash "h1:JekT5fRrO3oztIo1nAmJ99q/+/D4RuyASHq3wVC+4ps="
                             "h1:JekT5fRrO3oztIo1nAmJ99q/+/D4RuyASHq3wVC+4ps=";
               EvReadDir "out"; EvOpen "some.zip"; EvStat; EvNewReader; EvChecked None;
               EvMkdirAll "out"; EvMkdirAll "out"; EvOpenFile "out/b.txt";
               EvZipOpen "a/b.txt"; EvCopy "out/b.txt" "hi"; EvClose "out/b.txt"])
    as (hash & f & z & st & _ & _ & Hf & Hz & Hst).
  - vm_compute. reflexivity.
  - cbn in Hf. inversion Hf; subst f. cbn in Hz. inversion Hz; subst z.
    exists st. exact Hst.
Defined.

(** ** Runes before a separator *)

Module SepFacts.
Import Str Utf8 PathFacts.

Lemma slash_low (lo hi : Z) : (0x80 <= lo)%Z -> inRange lo hi (byteVal slash) = false.
Proof.
  intros H. unfold inRange. change (byteVal slash) with 47%Z.
  destruct (Z.leb_spec lo 47); [lia | reflexivity].
Qed.

Lemma slash_lead (b0 : Z) :
  inRange (if (b0 =? 0xE0)%Z then 0xA0 else 0x80)
          (if (b0 =? 0xED)%Z then 0x9F else 0xBF) (byteVal slash) = false /\
  inRange (if (b0 =? 0xF0)%Z then 0x90 else 0x80)
          (if (b0 =? 0xF4)%Z then 0x8F else 0xBF) (byteVal slash) = false.
Proof.
  split; apply slash_low.
  - destruct (b0 =? 0xE0)%Z; lia.
  - destruct (b0 =? 0xF0)%Z; lia.
Qed.

(** The separator is no continuation byte: the rune that [range] reads at
    the head of a string is the same when a separator follows the
    string. *)
Lemma DecodeRune_app_sep (x s : string) :
  x <> "" ->
  DecodeRune (x ++ String slash s)
  = (fst (DecodeRune x), snd (DecodeRune x) ++ String slash s).
Proof.
  destruct x as [|c0 x]; [contradiction|]. intros _. rewrite app_cons.
  cbn [DecodeRune].
  destruct (slash_lead (byteVal c0)) as [H3 H4].
  pose proof (slash_low 0x80 0xBF ltac:(lia)) as H2.
  destruct (byteVal c0 <? RuneSelf)%Z; [reflexivity|].
  destruct (inRange 0xC2 0xDF (byteVal c0)).
  { destruct x as [|c1 x]; [rewrite app_nil, H2; reflexivity|].
    rewrite app_cons. destruct (inRange 128 191 (byteVal c1)); reflexivity. }
  destruct (inRange 0xE0 0xEF (byteVal c0)).
  { destruct x as [|c1 [|c2 x]].
    - rewrite app_nil. destruct s as [|c s]; [reflexivity|].
      rewrite H3. reflexivity.
    - rewrite app_cons, app_nil, H2, andb_false_r. reflexivity.
    - rewrite !app_cons. destruct (_ && _); reflexivity. }
  destruct (inRange 0xF0 0xF4 (byteVal c0)); [|reflexivity].
  destruct x as [|c1 [|c2 [|c3 x]]].
  - rewrite app_nil. destruct s as [|c [|c' s]]; [reflexivity..|].
    rewrite H4. reflexivity.
  - rewrite app_cons, app_nil. destruct s as [|c s]; [reflexivity|].
    rewrite H2, andb_false_r. reflexivity.
  - rewrite !app_cons, app_nil, H2, andb_false_r. reflexivity.
  - rewrite !app_cons. destruct (_ && _); reflexivity.
Qed.

(** [range] moves on by a byte at least. *)
Lemma DecodeRune_rest (c : ascii) (s : string) :
  (String.length (snd (DecodeRune (String c s))) <= String.length s)%nat.
Proof.
  cbn [DecodeRune].
  destruct (byteVal c <? RuneSelf)%Z; [cbn; lia|].
  destruct (inRange 0xC2 0xDF (byteVal c)).
  { destruct s as [|c1 s]; [cbn; lia|].
    destruct (inRange 128 191 (byteVal c1)); cbn; lia. }
  destruct (inRange 0xE0 0xEF (byteVal c)).
  { destruct s as [|c1 [|c2 s]]; try (cbn; lia).
    destruct (_ && _); cbn; lia. }
  destruct (inRange 0xF0 0xF4 (byteVal c)); [|cbn; lia].
  destruct s as [|c1 [|c2 [|c3 s]]]; try (cbn; lia).
  destruct (_ && _); cbn; lia.
Qed.

Lemma EncodeRune_length (r : Z) : (1 <= String.length (EncodeRune r))%nat.
Proof.
  unfold EncodeRune, enc3.
  repeat match goal with |- context [if ?b then _ else _] => destruct b end;
    cbn; lia.
Qed.

End SepFacts.

(** ** The keys of a path and of its parents *)

Section KeyFacts.
Import Str Elements.

Variable SimpleFold : Z -> Z.

Local Abbreviation foldRune := (foldRune SimpleFold).
Local Abbreviation foldRunes := (foldRunes SimpleFold).
Local Abbreviation strToFold := (strToFold SimpleFold).
Local Abbreviation check := (check SimpleFold).

Lemma foldRunes_step (fuel : nat) (c : ascii) (s : string) :
  foldRunes (S fuel) (String c s)
  = Utf8.EncodeRune (foldRune (fst (Utf8.DecodeRune (String c s))))
      ++ foldRunes fuel (snd (Utf8.DecodeRune (String c s))).
Proof.
  cbn [Main.foldRunes]. now destruct (Utf8.DecodeRune (String c s)).
Qed.

(** The slow path needs no more iterations than the string has bytes. *)
Lemma foldRunes_fuel (fuel : nat) :
  forall s fuel', (String.length s <= fuel)%nat -> (String.length s <= fuel')%nat ->
    foldRunes fuel s = foldRunes fuel' s.
Proof.
  induction fuel as [|fuel IH]; intros s fuel' H H'.
  - destruct s; [|cbn in H; lia]. now destruct fuel'.
  - destruct s as [|c s]; [now destruct fuel'|].
    destruct fuel' as [|fuel']; [cbn in H'; lia|].
    rewrite !foldRunes_step. f_equal.
    pose proof (SepFacts.DecodeRune_rest c s). cbn in H, H'.
    apply IH; lia.
Qed.

(** The slow path on a string followed by a separator: the runes of the
    string, then those of the rest. *)
Lemma foldRunes_app_sep (n : nat) :
  forall x s fuel, (String.length x <= n)%nat ->
    (String.length x + S (String.length s) <= fuel)%nat ->
    foldRunes fuel (x ++ String slash s)
    = foldRunes (String.length x) x ++ foldRunes (S (String.length s)) (String slash s).
Proof.
  induction n as [|n IH]; intros x s fuel Hn Hf.
  - destruct x; [|cbn in Hn; lia]. rewrite PathFacts.app_nil.
    change (foldRunes (String.length "") "") with "".
    rewrite PathFacts.app_nil. apply foldRunes_fuel; cbn in *; lia.
  - destruct x as [|c x].
    { rewrite PathFacts.app_nil. change (foldRunes (String.length "") "") with "".
      rewrite PathFacts.app_nil. apply foldRunes_fuel; cbn in *; lia. }
    destruct fuel as [|fuel]; [cbn in Hf; lia|].
    rewrite PathFacts.app_cons, foldRunes_step, <- PathFacts.app_cons.
    rewrite SepFacts.DecodeRune_app_sep by discriminate. cbn [fst snd].
    cbn [String.length]. rewrite foldRunes_step.
    pose proof (SepFacts.DecodeRune_rest c x) as Hr. cbn in Hn, Hf.
    rewrite (IH _ s fuel) by lia.
    rewrite append_assoc. f_equal. f_equal.
    apply foldRunes_fuel; lia.
Qed.

Lemma needsFold_app (x s : string) :
  needsFold (x ++ s) = needsFold x || needsFold s.
Proof.
  induction x as [|c x IH]; [now rewrite PathFacts.app_nil|].
  rewrite PathFacts.app_cons. cbn [needsFold]. rewrite IH. now rewrite !orb_assoc.
Qed.

(** On a string of ASCII bytes the slow path reads a byte at a time. *)
Lemma foldRunes_ascii (x : string) :
  needsFold x = false -> (String.length x <= String.length (foldRunes (String.length x) x))%nat.
Proof.
  induction x as [|c x IH]; [cbn; lia|]. intros H. cbn [needsFold] in H.
  apply orb_false_iff in H as [H Hx]. apply orb_false_iff in H as [Hc _].
  cbn [String.length]. rewrite foldRunes_step. cbn [Utf8.DecodeRune].
  apply Z.leb_gt in Hc. destruct (Z.ltb_spec (byteVal c) Utf8.RuneSelf); [|lia].
  cbn [fst snd]. rewrite PathFacts.length_append.
  pose proof (SepFacts.EncodeRune_length (foldRune (byteVal c))).
  specialize (IH Hx). lia.
Qed.

(** The folded form of a path is longer than the folded form of what
    stands before one of its separators. *)
Lemma strToFold_longer (x e : string) :
  (String.length (strToFold x) < String.length (strToFold (x ++ String slash e)))%nat.
Proof.
  unfold Main.strToFold. rewrite needsFold_app.
  assert (1 <= String.length (foldRunes (S (String.length e)) (String slash e)))%nat as Hsep.
  { rewrite foldRunes_step, PathFacts.length_append.
    pose proof (SepFacts.EncodeRune_length
                  (foldRune (fst (Utf8.DecodeRune (String slash e))))). lia. }
  destruct (needsFold x) eqn:Hx; cbn [orb].
  - rewrite (foldRunes_app_sep (String.length x) x e)
      by (rewrite ?PathFacts.length_append; cbn; lia).
    rewrite PathFacts.length_append. lia.
  - destruct (needsFold (String slash e)).
    + rewrite (foldRunes_app_sep (String.length x) x e)
        by (rewrite ?PathFacts.length_append; cbn; lia).
      rewrite PathFacts.length_append. pose proof (foldRunes_ascii x Hx). lia.
    + rewrite PathFacts.length_append. cbn. lia.
Qed.

End KeyFacts.

(** ** A path and its parents *)

Module ParentFacts.
Import Str Path Elements PathFacts CleanFacts.

Lemma splitDir_split (p : string) :
  hasSlash p = true ->
  exists x e, p = x ++ String slash e /\ splitDir p = x ++ "/".
Proof.
  induction p as [|c p IH]; [discriminate|]. intros H.
  cbn [splitDir]. rewrite H. cbn [hasSlash] in H.
  destruct (hasSlash p) eqn:Hp.
  - destruct (IH eq_refl) as (x & e & Hx & ->).
    exists (String c x), e. rewrite !app_cons. now rewrite <- Hx.
  - rewrite orb_false_r in H. apply Ascii.eqb_eq in H as ->.
    rewrite (splitDir_none p Hp). exists "", p. split; reflexivity.
Qed.

Lemma tidy_prefix (l1 l2 : list string) :
  forall ok, tidy ok (l1 ++ l2)%list = true -> tidy ok l1 = true.
Proof.
  induction l1 as [|x l1 IH]; intros ok; [reflexivity|]. cbn [app tidy].
  destruct (String.eqb x "..").
  - intros H. apply andb_true_iff in H as [-> H]. cbn [andb]. now apply IH.
  - intros H. apply andb_true_iff in H as [-> H]. cbn [andb]. now apply IH.
Qed.

(** The parent of a clean relative path is ["."] or what stands before
    the last separator of the path, itself a clean relative path. *)
Lemma Dir_clean (p : string) :
  isClean p = true -> headIs slash p = false ->
  Dir p = "." \/
  exists e, p = Dir p ++ String slash e /\
            isClean (Dir p) = true /\ headIs slash (Dir p) = false.
Proof.
  intros Hc Hrel. destruct (hasSlash p) eqn:Hs.
  2: { left. unfold Dir. now rewrite (splitDir_none p Hs). }
  right. destruct (splitDir_split p Hs) as (x & e & Hp & Hd).
  destruct x as [|c x].
  { rewrite app_nil in Hp. subst p. discriminate. }
  assert (isClean (String c x) = true /\ headIs slash (String c x) = false) as [Hx Hxr].
  { rewrite Hp, app_cons in Hc, Hrel. cbn [headIs] in Hrel |- *.
    unfold isClean in Hc |- *. rewrite Hrel in Hc |- *.
    split; [|reflexivity].
    assert (String.eqb (String c (x ++ String slash e)) "." = false) as E.
    { apply String.eqb_neq. intros E. inversion E as [[E1 E2]].
      destruct x; discriminate. }
    rewrite E in Hc. cbn [orb] in Hc.
    rewrite <- app_cons, JoinFacts.segments_app_sep in Hc.
    apply tidy_prefix in Hc. rewrite Hc. apply orb_true_r. }
  assert (Dir p = String c x) as HD.
  { unfold Dir. rewrite Hd, Clean_app_slash by discriminate. now apply Clean_fixed. }
  rewrite HD. exists e. auto.
Qed.

End ParentFacts.

Section FreshPath.

Variable SimpleFold : Z -> Z.

Local Abbreviation strToFold := (strToFold SimpleFold).
Local Abbreviation check := (check SimpleFold).
Local Abbreviation registered := (registered SimpleFold).

(** A clean relative path whose folded form is shorter than every key of
    the registry passes [check]: neither the path nor one of its parents
    meets an entry. *)
Lemma check_short_key (fuel : nat) :
  forall (cc : gmap string pathInfo.t) (p : string) (isDir : bool),
    Elements.isClean p = true -> Str.headIs Str.slash p = false ->
    (String.length p <= fuel)%nat ->
    (forall k v, cc !! k = Some v ->
                 (String.length (strToFold p) < String.length k)%nat) ->
    exists cc', check (S fuel) cc p isDir = Some (cc', None).
Proof.
  induction fuel as [|fuel IH]; intros cc p isDir Hc Hrel Hlen Hkeys.
  { destruct p; [discriminate | cbn in Hlen; lia]. }
  rewrite check_unfold.
  destruct (cc !! strToFold p) as [v|] eqn:Hcc.
  { specialize (Hkeys _ _ Hcc). lia. }
  destruct (String.eqb_spec (Path.Dir p) ".") as [E|E]; [eauto|].
  destruct (ParentFacts.Dir_clean p Hc Hrel) as [Hd | (e & Hp & Hdc & Hdr)];
    [contradiction|].
  pose proof (strToFold_longer SimpleFold (Path.Dir p) e) as Hlonger.
  rewrite <- Hp in Hlonger.
  apply IH; [exact Hdc | exact Hdr | |].
  - apply (f_equal String.length) in Hp.
    rewrite PathFacts.length_append in Hp. cbn in Hp. lia.
  - intros k v Hk. rewrite lookup_insert in Hk. case_decide as Hkk.
    + now subst k.
    + specialize (Hkeys _ _ Hk). lia.
Qed.

(** X20. A path does not collide with its own parents.  Whatever the table
    of [unicode.SimpleFold], [check] on an empty registry returns no error
    for a relative path that [path.Clean] leaves as it is, and leaves the
    path registered, with every parent directory registered as a
    directory. *)
Theorem check_fresh_path (p : string) (isDir : bool) :
  Path.Clean p = p -> Str.headIs Str.slash p = false ->
  exists cc',
    check (S (String.length p)) ∅ p isDir = Some (cc', None) /\
    registered cc' p isDir /\
    (forall a, ancestor a p -> registered cc' a true).
Proof.
  intros Hc Hrel. apply CleanFacts.Clean_fixed in Hc.
  destruct (check_short_key (String.length p) ∅ p isDir Hc Hrel (le_n _)) as [cc' H].
  { intros k v Hk. rewrite lookup_empty in Hk. discriminate. }
  exists cc'. split; [exact H|]. apply check_ok in H as (H1 & H2 & _). auto.
Qed.

End FreshPath.

Lemma check_fresh_path_witness :
  exists cc',
    check Sample.SimpleFold 10 ∅ "A/b/C.txt" false = Some (cc', None) /\
    registered Sample.SimpleFold cc' "A/b/C.txt" false /\
    (forall a, ancestor a "A/b/C.txt" -> registered Sample.SimpleFold cc' a true).
Proof.
  apply (check_fresh_path Sample.SimpleFold "A/b/C.txt" false); reflexivity.
Defined.

(** ** The prefix and the closing of the files *)

Module PrefixFacts.
Import Str PathFacts.

Lemma HasPrefix_app (p s : string) : HasPrefix (p ++ s) p = true.
Proof.
  induction p as [|a p IH]; [now destruct s|].
  rewrite app_cons. cbn [HasPrefix]. now rewrite Ascii.eqb_refl, IH.
Qed.

Lemma TrimPrefix_app (p s : string) : TrimPrefix (p ++ s) p = s.
Proof.
  pose proof (JoinFacts.HasPrefix_split p (p ++ s) (HasPrefix_app p s)) as H.
  revert H. generalize (TrimPrefix (p ++ s) p). intros t H.
  induction p as [|a p IH]; [rewrite !app_nil in H; now symmetry|].
  rewrite !app_cons in H. inversion H. auto.
Qed.

End PrefixFacts.

Section PrefixAndClose.

Variable W : World.

Local Abbreviation extract := (extract W).
Local Abbreviation extractAll := (extractAll W).

(** X21. The prefix is matched by whole path elements and stripped with
    its separator: with a prefix, the loop of [unzip] writes a file entry
    named [prefix/name] under [name] and sets [prefixMatched], and it skips
    every entry whose name is not the prefix followed by a separator and by
    something, the entry named as the prefix itself among them. *)
Theorem prefix_strip (dir prefix : string) (zf : zip.File) (z : list zip.File)
        (pm : bool) :
  prefix <> "" ->
  (forall name, zip.Name zf = prefix ++ "/" ++ name ->
     Str.HasSuffixSlash (zip.Name zf) = false ->
     extractAll dir prefix (zf :: z) pm
     = bind (extract dir name zf) (fun _ => extractAll dir prefix z true)) /\
  ((forall name, zip.Name zf <> prefix ++ "/" ++ name) ->
   extractAll dir prefix (zf :: z) pm = extractAll dir prefix z pm).
Proof.
  intros Hp. apply String.eqb_neq in Hp. split.
  - intros name Hn Hd. rewrite extractAll_cons. unfold target.
    rewrite Hd, Hp, orb_false_r. cbn [negb].
    assert (String.eqb (zip.Name zf) "" = false) as ->.
    { apply String.eqb_neq. intros E. rewrite E in Hn.
      destruct prefix; [discriminate|]. rewrite PathFacts.app_cons in Hn. discriminate. }
    rewrite Hn, <- append_assoc.
    rewrite PrefixFacts.HasPrefix_app, PrefixFacts.TrimPrefix_app. cbn [negb].
    now rewrite orb_true_r.
  - intros Hno. rewrite extractAll_cons. unfold target.
    destruct (_ || _); [reflexivity|]. rewrite Hp. cbn [negb].
    destruct (Str.HasPrefix (zip.Name zf) (prefix ++ "/")) eqn:E; [|reflexivity].
    apply JoinFacts.HasPrefix_split in E. rewrite append_assoc in E.
    now apply Hno in E.
Qed.

(** X22. A file that [unzip] has created is closed once, on every path: in
    the calls for an entry, when the directory and the file were created,
    the opening of the file is followed by the opening of the stream, by at
    most one write and by the closing of the file as the last call, whether
    the stream could be opened or not and whether the copy failed or not;
    when the directory or the file could not be created, that error is
    returned and nothing is closed. *)
Theorem extract_closes_once (dir name : string) (zf : zip.File) (h : list Event) :
  zip.Open zf <> Diverges ->
  let dst := Join dir name in
  exists evs r,
    extract dir name zf h = ((h ++ evs)%list, r) /\
    (MkdirAll W h (Path.Dir dst) = None ->
     OpenFile W (h ++ [EvMkdirAll (Path.Dir dst)])%list dst = None ->
     exists mid,
       evs = ([EvMkdirAll (Path.Dir dst); EvOpenFile dst; EvZipOpen (zip.Name zf)]
                ++ mid ++ [EvClose dst])%list /\
       (mid = [] \/ exists data, mid = [EvCopy dst data])) /\
    (forall e, MkdirAll W h (Path.Dir dst) = Some e ->
       evs = [EvMkdirAll (Path.Dir dst)] /\ r = Fail e) /\
    (forall e, MkdirAll W h (Path.Dir dst) = None ->
       OpenFile W (h ++ [EvMkdirAll (Path.Dir dst)])%list dst = Some e ->
       evs = [EvMkdirAll (Path.Dir dst); EvOpenFile dst] /\ r = Fail e).
Proof.
  intros Hopen dst.
  unfold Main.extract. fold dst.
  unfold mkdirAll, openFile, bind at 1, bind at 1, history at 1, bind at 1, emit at 1.
  destruct (MkdirAll W h (Path.Dir dst)) as [e|] eqn:Hm; cbn [orFail].
  { exists [EvMkdirAll (Path.Dir dst)], (Fail e). split; [reflexivity|].
    split; [discriminate|]. split; [intros e' He'; inversion He'; auto | discriminate]. }
  unfold ret at 1, bind at 1, bind at 1, history at 1, bind at 1, emit at 1.
  destruct (OpenFile W (h ++ [EvMkdirAll (Path.Dir dst)])%list dst) as [e|] eqn:Ho;
    cbn [orFail].
  { exists [EvMkdirAll (Path.Dir dst); EvOpenFile dst], (Fail e).
    split; [unfold fail; now rewrite <- app_assoc|].
    split; [discriminate|]. split; [discriminate|].
    intros e' _ He'. inversion He'; auto. }
  unfold ret at 1, bind at 1, emit at 1.
  assert (forall h1 (k : option error -> M unit) (rest : list Event) r,
            (forall o h2, k o h2 = (h2 ++ rest, r o)%list) ->
            exists r', bind (errOf (close W dst)) k h1
                       = ((h1 ++ EvClose dst :: rest)%list, r')) as Hclose.
  { intros h1 k rest r Hk. unfold bind, errOf, close, bind, history, emit, orFail.
    destruct (Close W h1 dst); cbn; rewrite Hk, <- app_assoc; eauto. }
  destruct (zip.Open zf) as [rd|e|]; [| |contradiction].
  - destruct (limited _ rd) as [[data rerr] n].
    set (h3 := (((h ++ [EvMkdirAll (Path.Dir dst)]) ++ [EvOpenFile dst])
                  ++ [EvZipOpen (zip.Name zf)])%list).
    assert (exists mid r', forall (k : option error -> M unit),
              (mid = [] \/ exists d, mid = [EvCopy dst d]) /\
              bind (errOf (copy W dst data)) k h3 = k r' (h3 ++ mid)%list)
      as (mid & werr & Hcopy).
    { unfold copy. destruct (String.eqb data "").
      - exists [], None. intros k. split; [now left|].
        unfold bind, errOf, ret. now rewrite app_nil_r.
      - destruct (Write W h3 dst data) as [e|] eqn:Hw.
        + exists [EvCopy dst data], (Some e). intros k. split; [right; eauto|].
          unfold bind, errOf, history, emit, orFail. rewrite Hw. reflexivity.
        + exists [EvCopy dst data], None. intros k. split; [right; eauto|].
          unfold bind, errOf, history, emit, orFail. rewrite Hw. reflexivity. }
    destruct (Hcopy (fun werr =>
                match match werr with Some e => Some e | None => rerr end with
                | Some err => do _ <- errOf (close W dst); fail err
                | None =>
                    do _ <- close W dst;
                    if (n <=? 0)%Z
                    then fail (ErrDeclaredSize (zip.Name zf) (zip.UncompressedSize64 zf))
                    else ret tt
                end)) as [Hmid ->].
    assert (exists r',
              match match werr with Some e => Some e | None => rerr end with
              | Some err => do _ <- errOf (close W dst); fail err
              | None =>
                  do _ <- close W dst;
                  if (n <=? 0)%Z
                  then fail (ErrDeclaredSize (zip.Name zf) (zip.UncompressedSize64 zf))
                  else ret tt
              end (h3 ++ mid)%list = (((h3 ++ mid) ++ [EvClose dst])%list, r'))
      as [r' Hr].
    { destruct (match werr with Some e => Some e | None => rerr end) as [err|].
      - destruct (Hclose (h3 ++ mid)%list (fun _ => fail err) [] (fun _ => Fail err))
          as [r' Hr']; [intros; unfold fail; now rewrite app_nil_r | eauto].
      - unfold bind, close, bind, history, emit, orFail.
        destruct (Close W (h3 ++ mid)%list dst); cbn; [eauto|].
        destruct (n <=? 0)%Z; eauto. }
    rewrite Hr. exists ([EvMkdirAll (Path.Dir dst); EvOpenFile dst;
                         EvZipOpen (zip.Name zf)] ++ mid ++ [EvClose dst])%list, r'.
    split; [unfold h3; now rewrite <- !app_assoc|].
    split; [intros _ _; exists mid; auto|]. split; [discriminate|].
    intros e' _ He'. discriminate.
  - destruct (Hclose (((h ++ [EvMkdirAll (Path.Dir dst)]) ++ [EvOpenFile dst])
                        ++ [EvZipOpen (zip.Name zf)])%list
                     (fun _ => fail e) [] (fun _ => Fail e)) as [r' Hr'];
      [intros; unfold fail; now rewrite app_nil_r|].
    rewrite Hr'. exists [EvMkdirAll (Path.Dir dst); EvOpenFile dst;
                         EvZipOpen (zip.Name zf); EvClose dst], r'.
    split; [now rewrite <- !app_assoc|].
    split; [intros _ _; exists []; auto|]. split; [discriminate|].
    intros e' _ He'. discriminate.
Qed.

End PrefixAndClose.

Lemma prefix_strip_witness :
  extractAll (Sample.world 100 Sample.scenario) "out" "a"
             [Sample.file "a/b.txt" "hi"; Sample.file "ab/c" "x"; Sample.file "a" "y"]
             false []
  = ([EvMkdirAll "out"; EvOpenFile "out/b.txt"; EvZipOpen "a/b.txt";
      EvCopy "out/b.txt" "hi"; EvClose "out/b.txt"], Ok true).
Proof.
  rewrite (proj1 (prefix_strip (Sample.world 100 Sample.scenario) "out" "a"
                    (Sample.file "a/b.txt" "hi")
                    [Sample.file "ab/c" "x"; Sample.file "a" "y"] false
                    ltac:(discriminate)) "b.txt" eq_refl eq_refl).
  vm_compute. reflexivity.
Defined.

Lemma extract_closes_once_witness :
  exists mid,
    fst (extract (Sample.world 100 Sample.scenario) "out" "b.txt"
                 {| zip.Name := "a/b.txt"; zip.Method := 8;
                    zip.UncompressedSize64 := 2;
                    zip.Open := Fail (ErrOther "bad stream") |} [])
    = ([EvMkdirAll "out"; EvOpenFile "out/b.txt"; EvZipOpen "a/b.txt"]
         ++ mid ++ [EvClose "out/b.txt"])%list.
Proof.
  destruct (extract_closes_once (Sample.world 100 Sample.scenario) "out" "b.txt"
              {| zip.Name := "a/b.txt"; zip.Method := 8;
                 zip.UncompressedSize64 := 2;
                 zip.Open := Fail (ErrOther "bad stream") |} [])
    as (evs & r & Hrun & Hshape & _); [discriminate|].
  destruct Hshape as (mid & Hevs & _); [reflexivity | reflexivity |].
  exists mid. rewrite Hrun. cbn [fst app]. exact Hevs.
Defined.

(** ** The standard output and the exit status *)

Section ExitFacts.

Variable SimpleFold : Z -> Z.
Variable CheckFilePath : string -> option error.
Variable W : World.
Variable Quote : string -> string.

Local Abbreviation checkZip := (checkZip SimpleFold CheckFilePath).
Local Abbreviation extract := (extract W).
Local Abbreviation extractAll := (extractAll W).
Local Abbreviation unzip := (unzip SimpleFold CheckFilePath W).
Local Abbreviation run := (run SimpleFold CheckFilePath W).
Local Abbreviation main := (main SimpleFold CheckFilePath W Quote).

(** [unzip] prints nothing. *)
Lemma unzip_silent (dir zipFile prefix : string) :
  emits (fun e => forall s, e <> EvPrintln s) (unzip dir zipFile prefix).
Proof.
  set (Q := fun e : Event => forall s, e <> EvPrintln s).
  assert (forall d, emits Q (mkdirAll W d)) as Hmk.
  { intros d. unfold mkdirAll. apply emits_bind; [apply emits_history|]. intros h.
    apply emits_bind; [apply emits_emit; discriminate|]. intros _. apply emits_orFail. }
  assert (forall dst, emits Q (close W dst)) as Hclose.
  { intros dst. unfold close. apply emits_bind; [apply emits_history|]. intros h.
    apply emits_bind; [apply emits_emit; discriminate|]. intros _. apply emits_orFail. }
  assert (forall name zf, emits Q (extract dir name zf)) as Hex.
  { intros name zf. unfold Main.extract.
    apply emits_bind; [apply Hmk|]. intros _. apply emits_bind.
    { unfold openFile. apply emits_bind; [apply emits_history|]. intros h.
      apply emits_bind; [apply emits_emit; discriminate|]. intros _. apply emits_orFail. }
    intros _. apply emits_bind; [apply emits_emit; discriminate|]. intros _.
    destruct (zip.Open zf) as [r|e|].
    - destruct (limited _ r) as [[data rerr] n]. apply emits_bind.
      { apply emits_errOf. unfold copy. destruct (String.eqb data ""); [apply emits_ret|].
        apply emits_bind; [apply emits_history|]. intros h.
        apply emits_bind; [apply emits_emit; discriminate|]. intros _. apply emits_orFail. }
      intros werr. destruct (match werr with Some e => Some e | None => rerr end).
      + apply emits_bind; [apply emits_errOf, Hclose|]. intros _. apply emits_fail.
      + apply emits_bind; [apply Hclose|]. intros _.
        destruct (n <=? 0)%Z; [apply emits_fail | apply emits_ret].
    - apply emits_bind; [apply emits_errOf, Hclose|]. intros _. apply emits_fail.
    - apply emits_diverge. }
  assert (forall z pm, emits Q (extractAll dir prefix z pm)) as Hall.
  { induction z as [|zf z IH]; intros pm; [apply emits_ret|].
    rewrite extractAll_cons. destruct (target prefix zf); [|apply IH].
    apply emits_bind; [apply Hex | intros _; apply IH]. }
  unfold Main.unzip. apply emits_deferZipError.
  apply emits_bind; [apply emits_emit; discriminate|]. intros _.
  destruct (0 <? ReadDir W dir)%nat; [apply emits_fail|].
  apply emits_bind; [apply emits_emit; discriminate|]. intros _.
  apply emits_bind; [apply emits_lift|]. intros f.
  apply emits_bind.
  { apply (emits_checkZip SimpleFold CheckFilePath); discriminate. }
  intros z. apply emits_bind; [apply Hmk|]. intros _.
  apply emits_bind; [apply Hall|]. intros pm.
  destruct (_ && _); [apply emits_fail | apply emits_ret].
Qed.

(** [run] prints only when it returns no error. *)
Lemma run_prints_on_success (args : list string) (h : list Event) :
  exists evs r,
    run args h = ((h ++ evs)%list, r) /\
    (r = Ok tt \/ Forall (fun e => forall s, e <> EvPrintln s) evs).
Proof.
  unfold Main.run. destruct (_ && _).
  { exists [], (Fail ErrUsage). unfold fail. rewrite app_nil_r. auto. }
  unfold bind at 1. rewrite hashZip_run.
  destruct (dirhash.HashZip W (nth 0 args "")) as [hash|e|].
  2,3: eexists [_], _; split; [reflexivity|]; right; repeat constructor; discriminate.
  destruct (length args =? 1)%nat.
  - unfold bind at 1, emit at 1. unfold bind at 1, lift at 1.
    destruct (OsOpen W (nth 0 args "")) as [f|e|].
    2,3: eexists [_; _], _; split; [now rewrite <- app_assoc|]; right;
         repeat constructor; discriminate.
    unfold bind at 1.
    destruct (emits_checkZip SimpleFold CheckFilePath
                (fun e => forall s, e <> EvPrintln s) f
                ltac:(discriminate) ltac:(discriminate) ltac:(discriminate)
                ((h ++ [EvHashZip (nth 0 args "")]) ++ [EvOpen (nth 0 args "")])%list)
      as (cz & Hcz & Hq).
    destruct (checkZip f _) as [h4 [z|e|]]; cbn [fst] in Hcz; subst h4.
    + eexists _, (Ok tt). split; [|now left]. unfold emit.
      rewrite <- !app_assoc. reflexivity.
    + exists ([EvHashZip (nth 0 args ""); EvOpen (nth 0 args "")] ++ cz)%list, (Fail e).
      split; [now rewrite <- !app_assoc|]. right.
      repeat constructor; try discriminate. exact Hq.
    + exists ([EvHashZip (nth 0 args ""); EvOpen (nth 0 args "")] ++ cz)%list, Diverges.
      split; [now rewrite <- !app_assoc|]. right.
      repeat constructor; try discriminate. exact Hq.
  - unfold bind at 1, emit at 1.
    destruct (negb (String.eqb hash (nth 1 args ""))).
    { eexists [_; _], _. split; [unfold fail; now rewrite <- app_assoc|]. right.
      repeat constructor; discriminate. }
    destruct (unzip_silent (nth 2 args "") (nth 0 args "")
                (if (length args =? 4)%nat then nth 3 args "" else "")
                ((h ++ [EvHashZip (nth 0 args "")])
                   ++ [EvCompareHash hash (nth 1 args "")])%list)
      as (evs & Hevs & Hq).
    destruct (unzip _ _ _ _) as [h' r]. cbn [fst] in Hevs. subst h'.
    exists ([EvHashZip (nth 0 args ""); EvCompareHash hash (nth 1 args "")] ++ evs)%list, r.
    split; [now rewrite <- !app_assoc|]. right.
    repeat constructor; try discriminate. exact Hq.
Qed.


End ExitFacts.


(** ** The budget, and the parents of a path *)

Section BudgetFacts.

Variable SimpleFold : Z -> Z.
Variable CheckFilePath : string -> option error.

Local Abbreviation checkFile := (checkFile SimpleFold CheckFilePath).
Local Abbreviation checkFiles := (checkFiles SimpleFold CheckFilePath).

Lemma declaredTotal_nonneg (z : list zip.File) :
  Forall (fun zf => uint64 (zip.UncompressedSize64 zf)) z -> (0 <= declaredTotal z)%Z.
Proof.
  induction 1 as [|zf z Hu _ IH]; cbn [declaredTotal]; [lia|].
  unfold uint64 in Hu. destruct (entryIsDir zf); lia.
Qed.

(** As long as the declared sizes fit into what is left of the budget, the
    loop adds them up and sets no size error. *)
Lemma checkFiles_within (z : list zip.File) :
  forall st st', checkFiles st z = Some st' -> sizeOk st ->
    Forall (fun zf => uint64 (zip.UncompressedSize64 zf)) z ->
    length (CheckedFiles.Invalid (cf st')) = length (CheckedFiles.Invalid (cf st)) ->
    CheckedFiles.SizeError (cf st) = None ->
    (size st + declaredTotal z <= MaxZipFile)%Z ->
    CheckedFiles.SizeError (cf st') = None /\ size st' = (size st + declaredTotal z)%Z.
Proof.
  induction z as [|zf z IH]; intros st st' H Hok Hu Hlen Herr Hfit;
    cbn [Main.checkFiles] in H.
  - inversion H; subst. cbn. split; [exact Herr | lia].
  - destruct (checkFile st zf) as [st1|] eqn:H1; [|discriminate].
    inversion Hu as [|? ? Hu1 Hu2]; subst.
    pose proof (declaredTotal_nonneg z Hu2) as Hnn.
    pose proof (checkFile_registry SimpleFold CheckFilePath _ _ _ H1) as (_ & Ha & _).
    pose proof (checkFiles_registry SimpleFold CheckFilePath _ _ _ H) as (_ & Hb & _).
    cbn [declaredTotal] in Hfit |- *.
    apply checkFile_cases in H1 as [(cc & err & ->) | [(Hd & Hc & Hs) | (Hd & cc & ->)]].
    + cbn in Hb. rewrite length_app in Hb. cbn in Hb. lia.
    + rewrite Hd in Hfit |- *.
      assert (sizeOk st1) as Hok1 by (unfold sizeOk in *; now rewrite Hs).
      assert (CheckedFiles.SizeError (cf st1) = None) as He1 by (now rewrite Hc).
      destruct (IH _ _ H Hok1 Hu2 ltac:(lia) He1 ltac:(rewrite Hs; lia)) as [He Hsz].
      split; [exact He|]. rewrite Hsz, Hs. lia.
    + rewrite Hd in Hfit |- *.
      destruct (addSize_spec st cc zf Hok) as (_ & HI & Hok1 & Hin & _).
      assert (0 <= size st)%Z as H0 by (apply Hok).
      pose proof MaxZipFile_val as HM. unfold uint64 in Hu1.
      assert (int64 (zip.UncompressedSize64 zf) = zip.UncompressedSize64 zf) as Hi
          by (apply int64_small; lia).
      rewrite Hi in Hin. destruct Hin as [Hs1 He1]; [lia|].
      destruct (IH _ _ H Hok1 Hu2 ltac:(lia) ltac:(congruence) ltac:(lia)) as [He Hsz].
      split; [exact He|]. lia.
Qed.

(** X24. Without invalid entry, the size error is set exactly when the
    declared sizes of the file entries add up to more than [MaxZipFile]: an
    archive within the budget is never refused for its size, and then the
    running total is the sum of the declared sizes. *)
Theorem size_error_exact (z : list zip.File) (st : checkState) :
  checkFiles checkStart z = Some st ->
  Forall (fun zf => uint64 (zip.UncompressedSize64 zf)) z ->
  CheckedFiles.Invalid (cf st) = [] ->
  (CheckedFiles.SizeError (cf st) = None <-> (declaredTotal z <= MaxZipFile)%Z) /\
  (CheckedFiles.SizeError (cf st) = None -> size st = declaredTotal z).
Proof.
  intros Hst Hu Hinv.
  assert (sizeOk checkStart) as Hok0 by (unfold sizeOk; cbn; rewrite MaxZipFile_val; lia).
  assert (CheckedFiles.SizeError (cf st) = None -> size st = declaredTotal z) as Htot.
  { intros He.
    now rewrite (checkFiles_total SimpleFold CheckFilePath z _ _ Hst Hok0 Hu Hinv He). }
  split; [|exact Htot]. split.
  - intros He. rewrite <- (Htot He).
    destruct (checkFiles_effect SimpleFold CheckFilePath z _ _ Hst Hok0) as (Hok & _).
    apply Hok.
  - intros Hle.
    apply (checkFiles_within z checkStart st Hst Hok0 Hu); [now rewrite Hinv | reflexivity|].
    cbn. lia.
Qed.

End BudgetFacts.

Module AncestorFacts.
Import Str Path Elements PathFacts CleanFacts.

Lemma splitDir_last (p : string) :
  hasSlash p = true ->
  exists x e, p = x ++ String slash e /\ splitDir p = x ++ "/" /\ hasSlash e = false.
Proof.
  induction p as [|c p IH]; [discriminate|]. intros H.
  cbn [splitDir]. rewrite H. cbn [hasSlash] in H.
  destruct (hasSlash p) eqn:Hp.
  - destruct (IH eq_refl) as (x & e & Hx & -> & He).
    exists (String c x), e. rewrite !app_cons. now rewrite <- Hx.
  - rewrite orb_false_r in H. apply Ascii.eqb_eq in H as ->.
    rewrite (splitDir_none p Hp). exists "", p. repeat split; auto.
Qed.

Lemma hasSlash_app (s t : string) : hasSlash (s ++ t) = hasSlash s || hasSlash t.
Proof.
  induction s as [|c s IH]; [now rewrite app_nil|].
  rewrite app_cons. cbn [hasSlash]. now rewrite IH, orb_assoc.
Qed.

(** A path is cut at its last separator in one way only. *)
Lemma last_slash_unique (a : string) :
  forall x e e0, a ++ String slash e = x ++ String slash e0 ->
    hasSlash e = false -> hasSlash e0 = false -> a = x /\ e = e0.
Proof.
  induction a as [|c a IH]; intros x e e0 H He He0.
  - rewrite app_nil in H. destruct x as [|c' x].
    + rewrite app_nil in H. inversion H. auto.
    + rewrite app_cons in H. inversion H; subst.
      rewrite hasSlash_app in He. apply orb_false_iff in He as [_ He]. discriminate.
  - rewrite app_cons in H. destruct x as [|c' x].
    + rewrite app_nil in H. inversion H; subst.
      rewrite hasSlash_app in He0. apply orb_false_iff in He0 as [_ He0]. discriminate.
    + rewrite app_cons in H. inversion H; subst.
      destruct (IH x e e0) as [-> ->]; auto.
Qed.

(** The parent of a clean relative path with a separator is what stands
    before its last separator. *)
Lemma Dir_last (p : string) :
  isClean p = true -> headIs slash p = false -> hasSlash p = true ->
  exists e, p = Dir p ++ String slash e /\ hasSlash e = false /\
            isClean (Dir p) = true /\ headIs slash (Dir p) = false /\ Dir p <> ".".
Proof.
  intros Hc Hrel Hs. destruct (splitDir_last p Hs) as (x & e & Hp & Hd & He).
  destruct x as [|c x].
  { rewrite app_nil in Hp. subst p. discriminate. }
  assert (tidy true (segments (String c x)) = true /\ headIs slash (String c x) = false)
    as [Hx Hxr].
  { rewrite Hp, app_cons in Hc, Hrel. cbn [headIs] in Hrel |- *.
    unfold isClean in Hc. rewrite Hrel in Hc. split; [|exact Hrel].
    assert (String.eqb (String c (x ++ String slash e)) "." = false) as E.
    { apply String.eqb_neq. intros E. inversion E as [[E1 E2]].
      destruct x; discriminate. }
    rewrite E in Hc. cbn [orb] in Hc.
    rewrite <- app_cons, JoinFacts.segments_app_sep in Hc.
    now apply ParentFacts.tidy_prefix in Hc. }
  assert (isClean (String c x) = true) as Hxc.
  { unfold isClean. cbn [headIs] in Hxr. rewrite Hxr, Hx. apply orb_true_r. }
  assert (Dir p = String c x) as HD.
  { unfold Dir. rewrite Hd, Clean_app_slash by discriminate. now apply Clean_fixed. }
  rewrite HD. exists e. repeat split; auto.
  intros E. rewrite E in Hx. discriminate.
Qed.

Lemma append_sep_assoc (a e1 e2 : string) :
  (a ++ String slash e1) ++ String slash e2 = a ++ String slash (e1 ++ String slash e2).
Proof. now rewrite append_assoc, app_cons. Qed.

(** From a parent directory at any depth to the path: what stands behind
    it starts with a separator. *)
Lemma ancestor_prefix (a p : string) :
  ancestor a p -> isClean p = true -> headIs slash p = false ->
  exists e, p = a ++ String slash e.
Proof.
  induction 1 as [p Hd | q p Hd Hq IH]; intros Hc Hrel.
  - destruct (ParentFacts.Dir_clean p Hc Hrel) as [E | (e & Hp & _)];
      [contradiction | eauto].
  - destruct (ParentFacts.Dir_clean p Hc Hrel) as [E | (e & Hp & Hdc & Hdr)];
      [contradiction|].
    destruct (IH Hdc Hdr) as [e1 He1].
    exists (e1 ++ String slash e). rewrite <- append_sep_assoc, <- He1. exact Hp.
Qed.

(** From the path to what stands before one of its separators: a parent
    directory, at some depth. *)
Lemma prefix_ancestor (n : nat) :
  forall a e p, (String.length e <= n)%nat -> p = a ++ String slash e ->
    isClean p = true -> headIs slash p = false -> ancestor a p.
Proof.
  induction n as [|n IH]; intros a e p Hn Hp Hc Hrel.
  - destruct e; [|cbn in Hn; lia].
    assert (hasSlash p = true) as Hs
        by (rewrite Hp, hasSlash_app; apply orb_true_iff; right; reflexivity).
    destruct (Dir_last p Hc Hrel Hs) as (e0 & Hp0 & He0 & _ & _ & Hne).
    rewrite Hp in Hp0 at 1.
    destruct (last_slash_unique _ _ _ _ Hp0 eq_refl He0) as [-> _].
    now apply ancestor_parent.
  - assert (hasSlash p = true) as Hs
        by (rewrite Hp, hasSlash_app; apply orb_true_iff; right; reflexivity).
    destruct (Dir_last p Hc Hrel Hs) as (e0 & Hp0 & He0 & Hdc & Hdr & Hne).
    destruct (hasSlash e) eqn:He.
    + destruct (splitDir_last e He) as (e1 & e2 & He12 & _ & He2).
      rewrite Hp, He12, <- append_sep_assoc in Hp0 at 1.
      destruct (last_slash_unique _ _ _ _ Hp0 He2 He0) as [Hx _].
      apply ancestor_step; [exact Hne|].
      apply (IH a e1 (Dir p)); [| now symmetry | exact Hdc | exact Hdr].
      apply (f_equal String.length) in He12.
      rewrite length_append in He12. cbn in He12. lia.
    + rewrite Hp in Hp0 at 1.
      destruct (last_slash_unique _ _ _ _ Hp0 He He0) as [-> _].
      now apply ancestor_parent.
Qed.

End AncestorFacts.

(** X25. The directories on which [check] recurses from a relative path
    that [path.Clean] leaves as it is are what stands before each separator
    of the path: [a] is a parent directory of [p], at some depth, exactly
    when [p] is [a], a separator and a rest. *)
Theorem ancestors_are_prefixes (p a : string) :
  Path.Clean p = p -> Str.headIs Str.slash p = false ->
  (ancestor a p <-> exists e, p = a ++ "/" ++ e).
Proof.
  intros Hc Hrel. apply CleanFacts.Clean_fixed in Hc. split.
  - intros H. destruct (AncestorFacts.ancestor_prefix a p H Hc Hrel) as [e He].
    exists e. now rewrite JoinFacts.sep_app.
  - intros [e He]. rewrite JoinFacts.sep_app in He.
    now apply (AncestorFacts.prefix_ancestor (String.length e) a e p).
Qed.

Lemma size_error_exact_witness :
  let z := [Sample.sized "a" (MaxZipFile - 1) ""; Sample.directory "d/";
            Sample.sized "b" 1 ""] in
  exists st,
    checkFiles Sample.SimpleFold Sample.CheckFilePath checkStart z = Some st /\
    CheckedFiles.SizeError (cf st) = None /\ size st = MaxZipFile.
Proof.
  intros z.
  destruct (checkFiles Sample.SimpleFold Sample.CheckFilePath checkStart z)
    as [st|] eqn:Hst; [|vm_compute in Hst; discriminate].
  exists st. split; [reflexivity|].
  destruct (size_error_exact Sample.SimpleFold Sample.CheckFilePath z st Hst)
    as [Hiff Htot].
  - unfold z.
    repeat (apply List.Forall_cons;
            [unfold uint64; split; [apply Z.leb_le | apply Z.ltb_lt]; reflexivity|]).
    apply List.Forall_nil.
  - vm_compute in Hst. injection Hst as <-. reflexivity.
  - assert (CheckedFiles.SizeError (cf st) = None) as He
        by (apply Hiff; vm_compute; discriminate).
    split; [exact He|]. rewrite (Htot He). vm_compute. reflexivity.
Defined.

Lemma ancestors_are_prefixes_witness :
  ancestor "a" "a/b/c.txt" /\ ancestor "a/b" "a/b/c.txt".
Proof.
  split.
  - apply (proj2 (ancestors_are_prefixes "a/b/c.txt" "a" eq_refl eq_refl)).
    exists "b/c.txt". reflexivity.
  - apply (proj2 (ancestors_are_prefixes "a/b/c.txt" "a/b" eq_refl eq_refl)).
    exists "c.txt". reflexivity.
Defined.

(** ** One file for each entry *)

Section OneFileEach.

Variable SimpleFold : Z -> Z.
Variable CheckFilePath : string -> option error.

Local Abbreviation checkName := (checkName CheckFilePath).
Local Abbreviation checkFile := (checkFile SimpleFold CheckFilePath).
Local Abbreviation checkFiles := (checkFiles SimpleFold CheckFilePath).

(** The files that [unzip] opens for an archive, in the order of the
    entries. *)
Local Abbreviation opened dir prefix z :=
  (flat_map (fun zf => match target prefix zf with
                       | Some name => [Join dir name]
                       | None => []
                       end) z).

(** After a pass that recorded no invalid entry, [Valid] has grown by the
    names of all the file entries. *)
Lemma checkFiles_valid_all (z : list zip.File) :
  forall st st', checkFiles st z = Some st' ->
    length (CheckedFiles.Invalid (cf st')) = length (CheckedFiles.Invalid (cf st)) ->
    CheckedFiles.Valid (cf st')
    = (CheckedFiles.Valid (cf st)
       ++ map zip.Name (List.filter (fun zf => negb (entryIsDir zf)) z))%list.
Proof.
  induction z as [|zf z IH]; intros st st' H Hlen; cbn [Main.checkFiles] in H.
  - inversion H; subst. cbn. now rewrite app_nil_r.
  - destruct (checkFile st zf) as [st1|] eqn:H1; [|discriminate].
    pose proof (checkFiles_registry SimpleFold CheckFilePath _ _ _ H) as (_ & Hb & _).
    pose proof (checkFile_registry SimpleFold CheckFilePath _ _ _ H1) as (_ & Ha & _).
    assert (length (CheckedFiles.Invalid (cf st'))
            = length (CheckedFiles.Invalid (cf st1))) as Hl1 by lia.
    rewrite (IH _ _ H Hl1). cbn [List.filter].
    apply checkFile_cases in H1 as [(cc & err & ->) | [(Hd & Hc & Hs) | (Hd & cc & ->)]].
    + cbn in Hb. rewrite length_app in Hb. cbn in Hb. lia.
    + rewrite Hd, Hc. reflexivity.
    + rewrite Hd. cbn. now rewrite <- app_assoc.
Qed.

(** The name of an entry is found again from the name it is written
    under. *)
Lemma target_name (prefix : string) (zf : zip.File) (name : string) :
  target prefix zf = Some name ->
  entryIsDir zf = false /\
  zip.Name zf = (if String.eqb prefix "" then name else prefix ++ "/" ++ name).
Proof.
  unfold target, entryIsDir. intros H.
  destruct (String.eqb (zip.Name zf) ""); [discriminate|].
  destruct (Str.HasSuffixSlash (zip.Name zf)); [discriminate|]. cbn [orb] in H.
  split; [reflexivity|].
  destruct (String.eqb prefix ""); cbn [negb] in H; [now inversion H|].
  destruct (Str.HasPrefix (zip.Name zf) (prefix ++ "/")) eqn:Hp; [|discriminate].
  cbn [negb] in H. inversion H; subst name.
  apply JoinFacts.HasPrefix_split in Hp. rewrite <- append_assoc. exact Hp.
Qed.

Lemma append_cancel (a b c : string) : a ++ b = a ++ c -> b = c.
Proof.
  induction a as [|x a IH]; cbn [String.append]; [auto|].
  intros H. inversion H. auto.
Qed.

(** No two entries of an archive that passed the validation are written
    to the same file. *)
Lemma targets_distinct (dir prefix : string) (z : list zip.File)
        (st : checkState) :
  plainOnly CheckFilePath ->
  checkFiles checkStart z = Some st ->
  CheckedFiles.Invalid (cf st) = [] ->
  List.NoDup (opened dir prefix z).
Proof.
  intros Hplain H Hinv.
  assert (length (CheckedFiles.Invalid (cf st))
          = length (CheckedFiles.Invalid (cf checkStart))) as Hlen
      by (rewrite Hinv; reflexivity).
  pose proof (validated_names SimpleFold CheckFilePath z _ _ H Hlen) as Hnames.
  pose proof (checkFiles_valid_all z _ _ H Hlen) as HV. cbn in HV.
  assert (List.NoDup (map zip.Name (List.filter (fun zf => negb (entryIsDir zf)) z)))
    as Hnd.
  { rewrite <- HV.
    destruct (checkFiles_validRegistered SimpleFold CheckFilePath z _ _ H)
      as [_ Hd]; [split; [intros ? [] | constructor]|].
    eapply NoDup_map_inv. exact Hd. }
  destruct (JoinFacts.Join_base dir) as (base & _ & Hjoin).
  clear H Hinv Hlen HV st.
  induction z as [|zf z IH]; [constructor|].
  cbn [flat_map].
  assert (List.NoDup (opened dir prefix z)) as Hrest.
  { apply IH; [intros; apply Hnames; now right|].
    cbn [List.filter] in Hnd. destruct (negb (entryIsDir zf)); [|exact Hnd].
    cbn [map] in Hnd. now inversion Hnd. }
  destruct (target prefix zf) as [name|] eqn:Ht; [|exact Hrest].
  cbn [app]. constructor; [|exact Hrest].
  intros Hin. apply in_flat_map in Hin as (zf2 & Hin2 & Hx).
  destruct (target prefix zf2) as [name2|] eqn:Ht2; [|destruct Hx].
  destruct Hx as [Hx|[]].
  assert (forall zf' n, In zf' (zf :: z) -> target prefix zf' = Some n ->
                        Join dir n = base ++ n) as Hj.
  { intros zf' n Hin' Ht'. apply Hjoin. eapply target_tidy; [|exact Ht'].
    apply checkName_tidy with (CheckFilePath := CheckFilePath);
      [exact Hplain | now apply Hnames]. }
  rewrite (Hj zf name (or_introl eq_refl) Ht) in Hx.
  rewrite (Hj zf2 name2 (or_intror Hin2) Ht2) in Hx.
  apply append_cancel in Hx. subst name2.
  destruct (target_name _ _ _ Ht) as [Hd1 Hn1].
  destruct (target_name _ _ _ Ht2) as [Hd2 Hn2].
  cbn [List.filter] in Hnd. rewrite Hd1 in Hnd. cbn [negb map] in Hnd.
  inversion Hnd as [|? ? Hnotin _]. apply Hnotin.
  rewrite Hn1, <- Hn2. apply in_map. apply filter_In.
  split; [exact Hin2 | now rewrite Hd2].
Qed.

Variable W : World.

Local Abbreviation extract := (extract W).
Local Abbreviation extractAll := (extractAll W).
Local Abbreviation unzip := (unzip SimpleFold CheckFilePath W).

(** A call that opens no file. *)
Local Abbreviation quiet := (fun e : Event => opens [e] = []).

(** The files that [m] opens are among [L], in the order of [L] and at most
    as often. *)
Local Abbreviation opensIn L m :=
  (forall h : list Event,
      exists evs, fst (m h) = (h ++ evs)%list /\ sublist (opens evs) L).

Lemma opens_app (a b : list Event) : opens (a ++ b) = (opens a ++ opens b)%list.
Proof. apply flat_map_app. Qed.

Lemma opens_quiet (evs : list Event) : Forall quiet evs -> opens evs = [].
Proof.
  induction 1 as [|e evs He _ IH]; [reflexivity|].
  change (e :: evs) with ([e] ++ evs)%list. now rewrite opens_app, He, IH.
Qed.

Lemma opensIn_quiet {A} (m : M A) (L : list string) :
  emits quiet m -> opensIn L m.
Proof.
  intros Hm h. destruct (Hm h) as (evs & He & Hq). exists evs.
  split; [exact He|]. rewrite (opens_quiet _ Hq). apply sublist_nil_l.
Qed.

Lemma opensIn_bind {A B} (m : M A) (k : A -> M B) (L1 L2 : list string) :
  opensIn L1 m -> (forall a, opensIn L2 (k a)) -> opensIn (L1 ++ L2)%list (bind m k).
Proof.
  intros Hm Hk h. unfold bind. destruct (Hm h) as (evs & He & Hs).
  destruct (m h) as [h' [a| |]]; cbn [fst] in He; subst h'.
  - destruct (Hk a (h ++ evs)%list) as (evs' & He' & Hs').
    exists (evs ++ evs')%list. rewrite He', app_assoc, opens_app.
    split; [reflexivity | now apply sublist_app].
  - exists evs. split; [reflexivity | now apply sublist_inserts_r].
  - exists evs. split; [reflexivity | now apply sublist_inserts_r].
Qed.

(** The calls for one entry open its file at most once, and no other. *)
Lemma extract_opens (dir name : string) (zf : zip.File) :
  opensIn [Join dir name] (extract dir name zf).
Proof.
  unfold Main.extract.
  apply (opensIn_bind _ _ [] [Join dir name]).
  { apply opensIn_quiet. unfold mkdirAll.
    apply emits_bind; [apply emits_history|]. intros h.
    apply emits_bind; [now apply emits_emit|]. intros _. apply emits_orFail. }
  intros _. apply (opensIn_bind _ _ [Join dir name] []).
  { intros h. unfold openFile, bind, history, emit.
    exists [EvOpenFile (Join dir name)].
    split; [now destruct (OpenFile W h (Join dir name)) | reflexivity]. }
  intros _. apply opensIn_quiet.
  apply emits_bind; [now apply emits_emit|]. intros _.
  assert (emits quiet (close W (Join dir name))) as Hclose.
  { unfold close. apply emits_bind; [apply emits_history|]. intros h.
    apply emits_bind; [now apply emits_emit|]. intros _. apply emits_orFail. }
  destruct (zip.Open zf) as [r|e|].
  - destruct (limited _ r) as [[data rerr] n].
    apply emits_bind.
    { apply emits_errOf. unfold copy. destruct (String.eqb data ""); [apply emits_ret|].
      apply emits_bind; [apply emits_history|]. intros h.
      apply emits_bind; [now apply emits_emit|]. intros _. apply emits_orFail. }
    intros werr. destruct (match werr with Some e => Some e | None => rerr end).
    + apply emits_bind; [apply emits_errOf, Hclose|]. intros _. apply emits_fail.
    + apply emits_bind; [apply Hclose|]. intros _.
      destruct (n <=? 0)%Z; [apply emits_fail | apply emits_ret].
  - apply emits_bind; [apply emits_errOf, Hclose|]. intros _. apply emits_fail.
  - apply emits_diverge.
Qed.

(** The loop opens the files of the entries it writes, in the order of the
    archive, each at most once. *)
Lemma extractAll_opens (dir prefix : string) (z : list zip.File) :
  forall pm, opensIn (opened dir prefix z) (extractAll dir prefix z pm).
Proof.
  induction z as [|zf z IH]; intros pm.
  - apply opensIn_quiet, emits_ret.
  - rewrite extractAll_cons. cbn [flat_map].
    destruct (target prefix zf) as [name|]; [|apply IH].
    apply opensIn_bind; [apply extract_opens | intros _; apply IH].
Qed.

(** X26. [unzip] never opens a file twice, provided [module.CheckFilePath]
    accepts no rooted path and no element [.] or [..]: whatever the archive,
    the prefix and the failures of the file system, the calls of
    [os.OpenFile] in a run of [unzip] are on pairwise distinct paths, so
    that [O_EXCL] never refuses a file because an earlier entry of the same
    archive was written to it. *)
Theorem unzip_opens_once (dir zipFile prefix : string) (h : list Event) :
  plainOnly CheckFilePath ->
  exists evs,
    fst (unzip dir zipFile prefix h) = (h ++ evs)%list /\
    List.NoDup (opens evs).
Proof.
  intros Hplain.
  assert (forall (m : M unit),
            (forall h0, exists evs, fst (m h0) = (h0 ++ evs)%list /\
                                    List.NoDup (opens evs)) ->
            forall h0, exists evs,
              fst (deferZipError "unzip" zipFile m h0) = (h0 ++ evs)%list /\
              List.NoDup (opens evs)) as Hdefer.
  { intros m Hm h0. unfold deferZipError. destruct (Hm h0) as (evs & He & Hn).
    destruct (m h0) as [h' [a| |]]; cbn [fst] in *; subst h'; exists evs; auto. }
  assert (forall A B (m : M A) (k : A -> M B),
            emits quiet m ->
            (forall a h0, snd (m h0) = Ok a ->
               forall h1, exists evs, fst (k a h1) = (h1 ++ evs)%list /\
                                      List.NoDup (opens evs)) ->
            forall h0, exists evs, fst (bind m k h0) = (h0 ++ evs)%list /\
                                   List.NoDup (opens evs)) as Hbind.
  { intros A B m k Hm Hk h0. unfold bind. destruct (Hm h0) as (evs & He & Hq).
    apply opens_quiet in Hq.
    destruct (m h0) as [h' [a| |]] eqn:E; cbn [fst] in He; subst h'.
    - destruct (Hk a h0 ltac:(now rewrite E) (h0 ++ evs)%list) as (evs' & He' & Hn).
      exists (evs ++ evs')%list. rewrite He', app_assoc, opens_app, Hq.
      split; [reflexivity | exact Hn].
    - exists evs. rewrite Hq. split; [reflexivity | constructor].
    - exists evs. rewrite Hq. split; [reflexivity | constructor]. }
  assert (forall A (m : M A), emits quiet m ->
            forall h0, exists evs, fst (m h0) = (h0 ++ evs)%list /\
                                   List.NoDup (opens evs)) as Hquiet.
  { intros A m Hm h0. destruct (Hm h0) as (evs & He & Hq). exists evs.
    rewrite (opens_quiet _ Hq). split; [exact He | constructor]. }
  revert h. unfold Main.unzip. apply Hdefer.
  apply Hbind; [now apply emits_emit|]. intros _ _ _.
  destruct (0 <? ReadDir W dir)%nat; [apply Hquiet, emits_fail|].
  apply Hbind; [now apply emits_emit|]. intros _ _ _.
  apply Hbind; [apply emits_lift|]. intros f _ _.
  apply Hbind.
  { apply emits_checkZip; [reflexivity.. | intros e; reflexivity]. }
  intros z h0 Hz. apply (checkZip_ok SimpleFold CheckFilePath) in Hz as (st & _ & Hst & Herr).
  assert (CheckedFiles.Invalid (cf st) = []) as Hinv.
  { unfold CheckedFiles.Err in Herr.
    destruct (CheckedFiles.SizeError (cf st)); [discriminate|].
    destruct (CheckedFiles.Invalid (cf st)); [reflexivity | discriminate]. }
  pose proof (targets_distinct dir prefix z st Hplain Hst Hinv) as Hnd.
  assert (opensIn (opened dir prefix z)
            (do _ <- mkdirAll W dir;
             do prefixMatched <- extractAll dir prefix z false;
             if negb (String.eqb prefix "") && negb prefixMatched
             then fail (ErrNoPrefixMatch prefix) else ret tt)) as Hbody.
  { apply (opensIn_bind _ _ [] (opened dir prefix z)).
    { apply opensIn_quiet. unfold mkdirAll.
      apply emits_bind; [apply emits_history|]. intros h'.
      apply emits_bind; [now apply emits_emit|]. intros _. apply emits_orFail. }
    intros _. rewrite <- (app_nil_r (opened dir prefix z)).
    apply opensIn_bind; [apply extractAll_opens|].
    intros pm. apply opensIn_quiet.
    destruct (_ && _); [apply emits_fail | apply emits_ret]. }
  intros h1. destruct (Hbody h1) as (evs & He & Hs). exists evs.
  split; [exact He|].
  apply NoDup_ListNoDup. apply NoDup_ListNoDup in Hnd.
  eapply sublist_NoDup; [exact Hnd | exact Hs].
Qed.

End OneFileEach.

Lemma unzip_opens_once_witness :
  exists evs,
    fst (unzip Sample.SimpleFold Sample.CheckPlainPath
               (Sample.world 100 Sample.scenario) "out" "a.zip" "a" [])
    = evs /\ List.NoDup (opens evs).
Proof.
  destruct (unzip_opens_once Sample.SimpleFold Sample.CheckPlainPath
              (Sample.world 100 Sample.scenario) "out" "a.zip" "a" []
              Sample_plainOnly) as (evs & He & Hn).
  exists evs. split; [exact He | exact Hn].
Defined.

(** ** The answers of [check] *)

Section RegistryClaims.

Variable SimpleFold : Z -> Z.

Local Abbreviation strToFold := (strToFold SimpleFold).
Local Abbreviation check := (check SimpleFold).
Local Abbreviation registered := (registered SimpleFold).

(** A path that is not registered, in a directory that is registered with
    all its ancestors: [check] registers the path and nothing else. *)
Lemma check_new_entry (fuel : nat) (cc : gmap string pathInfo.t) (p : string)
      (isDir : bool) :
  Str.headIs Str.slash p = false -> (String.length p <= fuel)%nat ->
  cc !! strToFold p = None ->
  (forall a, ancestor a p -> registered cc a true) ->
  check (S fuel) cc p isDir
  = Some (<[strToFold p := pathInfo.mk p isDir]> cc, None).
Proof.
  intros Hrel Hlen Hnone Hanc. rewrite check_unfold, Hnone.
  destruct (String.eqb_spec (Path.Dir p) ".") as [E|E]; [reflexivity|].
  destruct (PathFacts.Dir_relative p Hrel) as [Hr [Hd|Hd]]; [contradiction|].
  destruct fuel as [|fuel]; [lia|].
  assert (forall q, registered cc q true ->
            registered (<[strToFold p := pathInfo.mk p isDir]> cc) q true) as Hkeep.
  { intros q Hq. unfold Main.registered in *. rewrite lookup_insert_ne; [exact Hq|].
    intros Heq. rewrite <- Heq, Hnone in Hq. discriminate. }
  apply check_known_dir; [exact Hr | lia | |].
  - apply Hkeep, Hanc. now apply ancestor_parent.
  - intros a Ha. apply Hkeep, Hanc. now apply ancestor_step.
Qed.

(** C3. When the folded form of [p] is registered, [check] answers in this
    order: a collision naming both paths when the registered path is not
    [p]; else an error that the entry is both a file and a directory when
    the flags differ; else an error for multiple entries when both are
    files; and for the same directory again it changes nothing and goes on
    with the parent, as a directory, unless the parent is ["."].  When the
    folded form of [p] is not registered, [check] registers [p] and goes on
    with the parent in the same way.  On a path that does not start with a
    separator the recursion reaches ["."]: the call returns, the registry
    has only grown, and when no error is returned [p] is registered, every
    parent directory of [p] up to the root is registered as a directory,
    and nothing else was added.  In a registry that has every parent
    directory of [p] as a directory, the same directory again is accepted
    and leaves the registry as it is, and a path that is not registered is
    accepted and is the only entry added. *)
Theorem check_priority (fuel : nat) (cc : gmap string pathInfo.t) (p : string)
        (isDir : bool) :
  (forall other, cc !! strToFold p = Some other ->
     (pathInfo.path other <> p ->
      check (S fuel) cc p isDir
      = Some (cc, Some (ErrCollision (pathInfo.path other) p))) /\
     (pathInfo.path other = p -> pathInfo.isDir other <> isDir ->
      check (S fuel) cc p isDir = Some (cc, Some (ErrFileAndDir p))) /\
     (pathInfo.path other = p -> pathInfo.isDir other = false -> isDir = false ->
      check (S fuel) cc p isDir = Some (cc, Some (ErrMultiple p))) /\
     (pathInfo.path other = p -> pathInfo.isDir other = true -> isDir = true ->
      check (S fuel) cc p isDir
      = if String.eqb (Path.Dir p) "." then Some (cc, None)
        else check fuel cc (Path.Dir p) true)) /\
  (cc !! strToFold p = None ->
   check (S fuel) cc p isDir
   = if String.eqb (Path.Dir p) "."
     then Some (<[strToFold p := pathInfo.mk p isDir]> cc, None)
     else check fuel (<[strToFold p := pathInfo.mk p isDir]> cc) (Path.Dir p) true) /\
  (Str.headIs Str.slash p = false -> (String.length p <= fuel)%nat ->
   (exists cc' err,
      check (S fuel) cc p isDir = Some (cc', err) /\ cc ⊆ cc' /\
      (err = None ->
       registered cc' p isDir /\
       (forall a, ancestor a p -> registered cc' a true) /\
       (forall q d, registered cc' q d ->
          registered cc q d \/ q = p \/ ancestor q p))) /\
   ((forall a, ancestor a p -> registered cc a true) ->
    (registered cc p true -> check (S fuel) cc p true = Some (cc, None)) /\
    (cc !! strToFold p = None ->
     check (S fuel) cc p isDir
     = Some (<[strToFold p := pathInfo.mk p isDir]> cc, None)))).
Proof.
  split; [|split].
  - intros other Hcc. rewrite check_unfold, Hcc.
    split; [|split; [|split]].
    + intros Hne.
      destruct (String.eqb_spec p (pathInfo.path other)); [congruence | reflexivity].
    + intros <- Hd. rewrite String.eqb_refl. cbn [negb].
      destruct isDir, (pathInfo.isDir other); try congruence; reflexivity.
    + intros <- -> ->. rewrite String.eqb_refl. reflexivity.
    + intros <- -> ->. rewrite String.eqb_refl. reflexivity.
  - intros Hcc. rewrite check_unfold, Hcc. reflexivity.
  - intros Hrel Hlen. split.
    + destruct (check_returns SimpleFold fuel cc p isDir Hrel Hlen) as (cc' & err & H).
      exists cc', err. split; [exact H|].
      split; [eapply (check_grows SimpleFold (S fuel)); exact H|].
      intros ->. apply (check_ok SimpleFold (S fuel)). exact H.
    + intros Hanc. split.
      * intros Hreg. now apply check_known_dir.
      * intros Hnone. now apply check_new_entry.
Qed.

End RegistryClaims.

Lemma check_priority_witness :
  let cc : gmap string pathInfo.t :=
    <["a" := pathInfo.mk "a" true]> (<["b" := pathInfo.mk "B" false]> ∅) in
  check Sample.SimpleFold 2 cc "b" false = Some (cc, Some (ErrCollision "B" "b")) /\
  check Sample.SimpleFold 2 cc "a" false = Some (cc, Some (ErrFileAndDir "a")) /\
  check Sample.SimpleFold 2 cc "B" false = Some (cc, Some (ErrMultiple "B")) /\
  check Sample.SimpleFold 2 cc "a" true = Some (cc, None) /\
  check Sample.SimpleFold 5 cc "a/C" false
  = Some (<["a/c" := pathInfo.mk "a/C" false]> cc, None) /\
  exists cc',
    check Sample.SimpleFold 6 cc "x/y/z" false = Some (cc', None) /\
    registered Sample.SimpleFold cc' "x/y/z" false /\
    registered Sample.SimpleFold cc' "x/y" true /\
    registered Sample.SimpleFold cc' "x" true.
Proof.
  intros cc.
  assert (forall a, ancestor a "a/C" -> registered Sample.SimpleFold cc a true) as Hanc.
  { intros a Ha. inversion Ha as [p0 Hp0 | q0 p0 Hp0 Hq0]; subst.
    - vm_compute. reflexivity.
    - inversion Hq0 as [p1 Hp1 | q1 p1 Hp1 Hq1]; subst;
        exfalso; apply Hp1; vm_compute; reflexivity. }
  split; [|split; [|split; [|split; [|split]]]].
  - apply (proj1 (proj1 (check_priority Sample.SimpleFold 1 cc "b" false)
                    (pathInfo.mk "B" false) eq_refl)).
    discriminate.
  - apply (proj1 (proj2 (proj1 (check_priority Sample.SimpleFold 1 cc "a" false)
                           (pathInfo.mk "a" true) eq_refl)));
      [reflexivity | discriminate].
  - apply (proj1 (proj2 (proj2 (proj1 (check_priority Sample.SimpleFold 1 cc "B" false)
                                  (pathInfo.mk "B" false) eq_refl))));
      reflexivity.
  - destruct (proj2 (proj2 (check_priority Sample.SimpleFold 1 cc "a" true))
                eq_refl ltac:(simpl; lia)) as [_ Hknown].
    refine (proj1 (Hknown _) eq_refl).
    intros a Ha. inversion Ha; subst; exfalso;
      match goal with H : Path.Dir _ <> _ |- _ => apply H; vm_compute; reflexivity end.
  - destruct (proj2 (proj2 (check_priority Sample.SimpleFold 4 cc "a/C" false))
                eq_refl ltac:(simpl; lia)) as [_ Hknown].
    apply (proj2 (Hknown Hanc)). reflexivity.
  - destruct (proj2 (proj2 (check_priority Sample.SimpleFold 5 cc "x/y/z" false))
                eq_refl ltac:(simpl; lia))
      as [(cc' & err & Hrun & _ & Hok) _].
    assert (err = None) as -> by (vm_compute in Hrun; now inversion Hrun).
    destruct (Hok eq_refl) as (Hp & Hparents & _).
    exists cc'. split; [exact Hrun|]. split; [exact Hp|]. split.
    + apply Hparents. apply (ancestor_parent "x/y/z"). vm_compute. discriminate.
    + apply Hparents. apply ancestor_step; [vm_compute; discriminate|].
      apply (ancestor_parent "x/y"). vm_compute. discriminate.
Defined.

(** ** The printing mode of [run] *)

Section PrintMode.

Variable SimpleFold : Z -> Z.
Variable CheckFilePath : string -> option error.
Variable W : World.

Local Abbreviation checkFiles := (checkFiles SimpleFold CheckFilePath).
Local Abbreviation run := (run SimpleFold CheckFilePath W).

(** X12. With the zip as its only argument, [run] changes nothing in the
    file system.  It returns no error exactly when the fingerprint was
    computed, the zip was opened, is within the size allowed, was decoded
    and passed the validation; then it prints the fingerprint of [hashZip],
    once and as its last call, after the validation.  When it returns an
    error it has printed nothing. *)
Theorem run_print_mode (zipFile : string) (h : list Event) :
  exists evs r,
    run [zipFile] h = ((h ++ evs)%list, r) /\
    Forall (fun e => writes e = false) evs /\
    (r = Ok tt <->
     exists hash f zipSize z st,
       dirhash.HashZip W zipFile = Ok hash /\ OsOpen W zipFile = Ok f /\
       os.Stat f = Ok zipSize /\ (zipSize <= MaxZipFile)%Z /\
       os.NewReader f = Ok z /\ checkFiles checkStart z = Some st /\
       CheckedFiles.Err (cf st) = None) /\
    (r = Ok tt ->
     exists hash,
       dirhash.HashZip W zipFile = Ok hash /\
       evs = [EvHashZip zipFile; EvOpen zipFile; EvStat; EvNewReader;
              EvChecked None; EvPrintln hash]) /\
    (r <> Ok tt -> forall s, ~ In (EvPrintln s) evs).
Proof.
  unfold Main.run. cbn [length Nat.eqb negb andb nth].
  unfold hashZip, Main.checkZip, bind, emit, lift, orFail, ret, fail, diverge.
  assert (forall (evs : list Event) (r : result unit),
            r <> Ok tt ->
            Forall (fun e => writes e = false) evs ->
            (forall s, ~ In (EvPrintln s) evs) ->
            ~ (exists hash f zipSize z st,
                 dirhash.HashZip W zipFile = Ok hash /\ OsOpen W zipFile = Ok f /\
                 os.Stat f = Ok zipSize /\ (zipSize <= MaxZipFile)%Z /\
                 os.NewReader f = Ok z /\ checkFiles checkStart z = Some st /\
                 CheckedFiles.Err (cf st) = None) ->
            Forall (fun e => writes e = false) evs /\
            (r = Ok tt <->
             exists hash f zipSize z st,
               dirhash.HashZip W zipFile = Ok hash /\ OsOpen W zipFile = Ok f /\
               os.Stat f = Ok zipSize /\ (zipSize <= MaxZipFile)%Z /\
               os.NewReader f = Ok z /\ checkFiles checkStart z = Some st /\
               CheckedFiles.Err (cf st) = None) /\
            (r = Ok tt ->
             exists hash,
               dirhash.HashZip W zipFile = Ok hash /\
               evs = [EvHashZip zipFile; EvOpen zipFile; EvStat; EvNewReader;
                      EvChecked None; EvPrintln hash]) /\
            (r <> Ok tt -> forall s, ~ In (EvPrintln s) evs)) as Hfails.
  { intros evs r Hr Hw Hp Hno. split; [exact Hw|]. split; [|split].
    - split; [contradiction | intros Hx; contradiction].
    - contradiction.
    - intros _. exact Hp. }
  destruct (dirhash.HashZip W zipFile) as [hash|e|] eqn:Hh.
  2,3: eexists [_], _; (split; [reflexivity|]); apply Hfails;
       [discriminate | repeat constructor | intros s [Hs|[]]; discriminate
       | intros (? & ? & ? & ? & ? & H1 & _); discriminate].
  destruct (OsOpen W zipFile) as [f|e|] eqn:Ho.
  2,3: eexists [_; _], _; (split; [now rewrite <- !app_assoc|]); apply Hfails;
       [discriminate | repeat constructor | intros s [Hs|[Hs|[]]]; discriminate
       | intros (? & ? & ? & ? & ? & _ & H2 & _); discriminate].
  destruct (os.Stat f) as [zipSize|e|] eqn:Hs.
  2,3: eexists [_; _; _], _; (split; [now rewrite <- !app_assoc|]); apply Hfails;
       [discriminate | repeat constructor | intros s [Hx|[Hx|[Hx|[]]]]; discriminate
       | intros (? & f' & ? & ? & ? & _ & H2 & H3 & _); congruence].
  destruct (Z.ltb_spec MaxZipFile zipSize) as [Hlt|Hle].
  { cbn. eexists [_; _; _], _. split; [now rewrite <- !app_assoc|]. apply Hfails;
      [discriminate | repeat constructor | intros s [Hx|[Hx|[Hx|[]]]]; discriminate|].
    intros (? & f' & zs' & ? & ? & _ & H2 & H3 & H4 & _).
    assert (zs' = zipSize) by congruence. lia. }
  destruct (os.NewReader f) as [z|e|] eqn:Hr.
  2,3: eexists [_; _; _; _], _; (split; [now rewrite <- !app_assoc|]); apply Hfails;
       [discriminate | repeat constructor
       | intros s [Hx|[Hx|[Hx|[Hx|[]]]]]; discriminate
       | intros (? & f' & ? & ? & ? & _ & H2 & _ & _ & H5 & _); congruence].
  destruct (checkFiles checkStart z) as [st|] eqn:Hst.
  2: { eexists [_; _; _; _], _. split; [now rewrite <- !app_assoc|]. apply Hfails;
       [discriminate | repeat constructor
       | intros s [Hx|[Hx|[Hx|[Hx|[]]]]]; discriminate
       | intros (? & f' & ? & z' & ? & _ & H2 & _ & _ & H5 & H6 & _); congruence]. }
  destruct (CheckedFiles.Err (cf st)) as [e|] eqn:He.
  { eexists [_; _; _; _; _], _. split; [now rewrite <- !app_assoc|]. apply Hfails;
      [discriminate | repeat constructor
      | intros s [Hx|[Hx|[Hx|[Hx|[Hx|[]]]]]]; discriminate
      | intros (? & f' & ? & z' & st' & _ & H2 & _ & _ & H5 & H6 & H7); congruence]. }
  exists [EvHashZip zipFile; EvOpen zipFile; EvStat; EvNewReader; EvChecked None;
          EvPrintln hash], (Ok tt).
  split; [now rewrite <- !app_assoc|]. split; [repeat constructor|]. split; [|split].
  - split; [|reflexivity]. intros _. exists hash, f, zipSize, z, st. auto 10.
  - intros _. exists hash. auto.
  - intros Hne. contradiction.
Qed.

End PrintMode.

Lemma run_print_mode_witness :
  exists hash,
    run Sample.SimpleFold Sample.CheckFilePath (Sample.world 100 Sample.scenario)
        ["some.zip"] []
    = ([EvHashZip "some.zip"; EvOpen "some.zip"; EvStat; EvNewReader;
        EvChecked None; EvPrintln hash], Ok tt).
Proof.
  destruct (run_print_mode Sample.SimpleFold Sample.CheckFilePath
              (Sample.world 100 Sample.scenario) "some.zip" [])
    as (evs & r & Hrun & _ & Hiff & Hok & _).
  assert (r = Ok tt) as Hr.
  { apply Hiff.
    exists (match dirhash.HashZip (Sample.world 100 Sample.scenario) "some.zip" with
            | Ok x => x | _ => "" end),
           (os.mkFile (Ok 100%Z) (Ok Sample.scenario)), 100%Z, Sample.scenario,
           (match checkFiles Sample.SimpleFold Sample.CheckFilePath checkStart
                    Sample.scenario with
            | Some s => s | None => checkStart end).
    split; [vm_compute; reflexivity|]. split; [reflexivity|]. split; [reflexivity|].
    split; [vm_compute; discriminate|]. split; [reflexivity|].
    split; vm_compute; reflexivity. }
  destruct (Hok Hr) as (hash & _ & Hevs). exists hash.
  rewrite Hrun, Hr, Hevs. reflexivity.
Defined.
